(** * CIBC statement text parser: a shallow embedding of
    [src/parsing/cibc_pdf_parser.py] and the properties of its
    text-to-record extraction engine.

    Character model.  A Python [str] is a [list ascii]; an [ascii] stands for
    the code point of the same number.  Statement text is taken to be ASCII:
    [upper] maps a-z to A-Z and leaves every other code point alone, and the
    whitespace and digit classes are the ones Python uses below code point
    256. *)

From Stdlib Require Import Ascii String Bool Arith PeanoNat Lia ZArith QArith.
From Stdlib Require Import Permutation Sorted List.
From Stdlib Require DecimalString.
Import ListNotations.

Local Open Scope string_scope.
Local Open Scope list_scope.
Local Open Scope nat_scope.

(** ** Python strings *)

Abbreviation str := (list ascii).

Definition lit (s : string) : str := list_ascii_of_string s.
Coercion lit : string >-> list.

Module Py.

Definition code (a : ascii) : nat := nat_of_ascii a.

Definition between (lo hi : nat) (a : ascii) : bool :=
  (lo <=? code a) && (code a <=? hi).

(** [str.isspace] on one character, which is also what [\s] matches and
    what [str.split()] and [str.strip()] cut on. *)
Definition isspace (a : ascii) : bool :=
  between 9 13 a || between 28 32 a || (code a =? 133) || (code a =? 160).

(** [\d] below code point 256. *)
Definition isdigit (a : ascii) : bool := between 48 57 a.

(** [[A-Z]] *)
Definition isupper (a : ascii) : bool := between 65 90 a.

Definition islower (a : ascii) : bool := between 97 122 a.

Definition upper_char (a : ascii) : ascii :=
  if islower a then ascii_of_nat (code a - 32) else a.

Definition lower_char (a : ascii) : ascii :=
  if isupper a then ascii_of_nat (code a + 32) else a.

(** [s.upper()] and [s.lower()] *)
Definition upper (s : str) : str := map upper_char s.
Definition lower (s : str) : str := map lower_char s.

(** [w.capitalize()] *)
Definition capitalize (w : str) : str :=
  match w with
  | [] => []
  | a :: w' => upper_char a :: lower w'
  end.

Fixpoint str_eqb (s t : str) : bool :=
  match s, t with
  | [], [] => true
  | a :: s', b :: t' => Ascii.eqb a b && str_eqb s' t'
  | _, _ => false
  end.

(** [s.startswith(p)] *)
Fixpoint startswith (s p : str) {struct p} : bool :=
  match p, s with
  | [], _ => true
  | b :: p', a :: s' => Ascii.eqb a b && startswith s' p'
  | _ :: _, [] => false
  end.

(** [s.endswith(p)] *)
Definition endswith (s p : str) : bool := startswith (rev s) (rev p).

(** [p in s] *)
Fixpoint contains (s p : str) : bool :=
  startswith s p ||
  match s with
  | [] => false
  | _ :: s' => contains s' p
  end.

(** [x in L] for a list or set of strings *)
Definition mem (x : str) (L : list str) : bool := existsb (str_eqb x) L.

(** [s.lstrip()], [s.rstrip()], [s.strip()] *)
Fixpoint lstrip (s : str) : str :=
  match s with
  | a :: s' => if isspace a then lstrip s' else s
  | [] => []
  end.
Definition rstrip (s : str) : str := rev (lstrip (rev s)).
Definition strip (s : str) : str := rstrip (lstrip s).

(** [s.split()]: the maximal runs of non-whitespace characters.  [cur] is
    the run being read, most recent character first. *)
Fixpoint split_from (cur : str) (s : str) : list str :=
  match s with
  | [] => match cur with [] => [] | _ => [rev cur] end
  | a :: s' =>
      if isspace a
      then match cur with
           | [] => split_from [] s'
           | _ => rev cur :: split_from [] s'
           end
      else split_from (a :: cur) s'
  end.
Definition split (s : str) : list str := split_from [] s.

(** [sep.join(ws)] *)
Fixpoint join (sep : str) (ws : list str) : str :=
  match ws with
  | [] => []
  | [w] => w
  | w :: ws' => w ++ sep ++ join sep ws'
  end.

(** [" ".join(s.split())] *)
Definition squeeze (s : str) : str := join " " (split s).

(** [s[:-n]] for [n > 0] *)
Definition drop_last (n : nat) (s : str) : str := firstn (length s - n) s.

(** [s.replace(old, new)] for a non-empty [old].  [skip] counts the
    characters of an occurrence still to be passed over. *)
Fixpoint replace_from (skip : nat) (old new s : str) : str :=
  match s with
  | [] => []
  | a :: s' =>
      match skip with
      | S n => replace_from n old new s'
      | O => if startswith s old
             then new ++ replace_from (length old - 1) old new s'
             else a :: replace_from 0 old new s'
      end
  end.
Definition replace (s old new : str) : str := replace_from 0 old new s.

(** Line boundaries of [str.splitlines()]; ["\r\n"] counts as one. *)
Definition islinebreak (a : ascii) : bool :=
  between 10 13 a || between 28 30 a || (code a =? 133).

(** [s.splitlines()].  [after_cr] tells that the previous character was a
    carriage return, whose line feed is then passed over. *)
Fixpoint splitlines_from (after_cr : bool) (cur : str) (s : str) : list str :=
  match s with
  | [] => match cur with [] => [] | _ => [rev cur] end
  | a :: s' =>
      if after_cr && (code a =? 10) then splitlines_from false cur s'
      else if islinebreak a
           then rev cur :: splitlines_from (code a =? 13) [] s'
           else splitlines_from false (a :: cur) s'
  end.
Definition splitlines (s : str) : list str := splitlines_from false [] s.

(** [sorted(L, key=len, reverse=True)]: a stable insertion sort, so that
    labels of one length keep their order in [L]. *)
Fixpoint insert_by_len (x : str) (L : list str) : list str :=
  match L with
  | [] => [x]
  | y :: L' => if length y <=? length x then x :: L
               else y :: insert_by_len x L'
  end.
Definition sorted_by_len_desc (L : list str) : list str :=
  fold_right insert_by_len [] L.

End Py.


(** ** Regular expressions, as Python's [re] module matches them

    The patterns of the parser repeat single characters only, so a
    repetition carries a character class.  The matcher backtracks in
    Python's order: alternatives left to right, a greedy repetition longest
    first, a lazy one shortest first.  [i] is the position of [s] in the
    subject string. *)

Module Re.

Inductive regex : Type :=
| Lit (l : str)                      (* literal text *)
| Cls (c : ascii -> bool)            (* one character of a class *)
| Seq (r1 r2 : regex)
| Alt (r1 r2 : regex)
| Rep (greedy : bool) (c : ascii -> bool) (lo : nat) (hi : option nat)
| Grp (name : string) (r : regex)    (* capture group *)
| Bol                                (* ^ *)
| Eol                                (* $ *)
| Ahead (c : ascii -> bool).         (* (?=[c]) *)

Definition caps := list (string * str).

Definition room (hi : option nat) : bool :=
  match hi with Some O => false | _ => true end.

Section Matcher.
Variable R : Type.

Fixpoint rep (greedy : bool) (c : ascii -> bool) (lo : nat)
    (hi : option nat) (i : nat) (s : str)
    (k : nat -> str -> option R) {struct s} : option R :=
  let stop (_ : unit) := match lo with O => k i s | S _ => None end in
  let more (_ : unit) :=
    match s with
    | a :: s' =>
        if c a && room hi
        then rep greedy c (pred lo) (option_map pred hi) (S i) s' k
        else None
    | [] => None
    end in
  if greedy
  then match more tt with Some x => Some x | None => stop tt end
  else match stop tt with Some x => Some x | None => more tt end.

Fixpoint rmatch (r : regex) (i : nat) (s : str) (cs : caps)
    (k : nat -> str -> caps -> option R) {struct r} : option R :=
  match r with
  | Lit l =>
      if Py.startswith s l
      then k (i + length l) (skipn (length l) s) cs
      else None
  | Cls c =>
      match s with
      | a :: s' => if c a then k (S i) s' cs else None
      | [] => None
      end
  | Seq r1 r2 =>
      rmatch r1 i s cs (fun i' s' cs' => rmatch r2 i' s' cs' k)
  | Alt r1 r2 =>
      match rmatch r1 i s cs k with
      | Some x => Some x
      | None => rmatch r2 i s cs k
      end
  | Rep g c lo hi => rep g c lo hi i s (fun i' s' => k i' s' cs)
  | Grp n r1 =>
      rmatch r1 i s cs
        (fun i' s' cs' => k i' s' ((n, firstn (i' - i) s) :: cs'))
  | Bol => if i =? 0 then k i s cs else None
  | Eol =>
      match s with
      | [] => k i s cs
      | [a] => if Py.code a =? 10 then k i s cs else None
      | _ => None
      end
  | Ahead c =>
      match s with
      | a :: _ => if c a then k i s cs else None
      | [] => None
      end
  end.
End Matcher.
Arguments rep {R} greedy c lo hi i s k.
Arguments rmatch {R} r i s cs k.

(** A match object: [m.start()], [m.end()] and the groups. *)
Record mobj : Type := { m_start : nat; m_end : nat; m_caps : caps }.

(** [m.group(name)] *)
Fixpoint group (name : string) (cs : caps) : str :=
  match cs with
  | [] => []
  | (n, v) :: cs' => if String.eqb n name then v else group name cs'
  end.

Definition match_at (r : regex) (i : nat) (s : str) : option mobj :=
  rmatch r i s [] (fun j _ cs => Some {| m_start := i; m_end := j; m_caps := cs |}).

(** [re.match(r, s)] *)
Definition rematch (r : regex) (s : str) : option mobj := match_at r 0 s.

(** [re.search(r, s)]: the leftmost position with a match. *)
Fixpoint search_from (r : regex) (i : nat) (s : str) : option mobj :=
  match match_at r i s with
  | Some m => Some m
  | None =>
      match s with
      | [] => None
      | _ :: s' => search_from r (S i) s'
      end
  end.
Definition search (r : regex) (s : str) : option mobj := search_from r 0 s.

(** [re.sub(r, repl, s)] for a pattern that matches no empty string: the
    matches are replaced left to right, without overlap.  [skip] counts
    the characters of a match still to be passed over. *)
Fixpoint sub_from (r : regex) (repl : str) (skip : nat) (i : nat) (s : str)
    : str :=
  match s with
  | [] => []
  | a :: s' =>
      match skip with
      | S n => sub_from r repl n (S i) s'
      | O =>
          match match_at r i s with
          | Some m =>
              if m_end m <=? i
              then a :: sub_from r repl 0 (S i) s'
              else repl ++ sub_from r repl (m_end m - i - 1) (S i) s'
          | None => a :: sub_from r repl 0 (S i) s'
          end
      end
  end.
Definition sub (r : regex) (repl : str) (s : str) : str :=
  sub_from r repl 0 0 s.

(** Pattern syntax *)
Definition any_of (l : str) (a : ascii) : bool := existsb (Ascii.eqb a) l.
Definition dot (a : ascii) : bool := negb (Py.code a =? 10).
Definition star c := Rep true c 0 None.
Definition plus c := Rep true c 1 None.
Definition lazy_plus c := Rep false c 1 None.
Definition lazy_star c := Rep false c 0 None.
Definition opt c := Rep true c 0 (Some 1).
Definition times c lo hi := Rep true c lo (Some hi).
Definition at_least c lo := Rep true c lo None.
Fixpoint alts (ls : list string) : regex :=
  match ls with
  | [] => Lit []      (* not used with an empty list *)
  | [l] => Lit l
  | l :: ls' => Alt (Lit l) (alts ls')
  end.

End Re.

Declare Scope re_scope.
Delimit Scope re_scope with re.
Infix ";;" := Re.Seq (at level 61, right associativity) : re_scope.

(** ** Values the parser computes with *)

Inductive exn : Type :=
| ParserError (msg timestr : str)   (* dateutil's error, a ValueError *)
| ValueError (msg : str).

(** [str(e)] *)
Definition exn_str (e : exn) : str :=
  match e with
  | ParserError msg timestr => msg ++ ": " ++ timestr
  | ValueError msg => msg
  end.

Inductive result (A : Type) : Type :=
| Ok (a : A)
| Raise (e : exn).
Arguments Ok {A} a.
Arguments Raise {A} e.

Definition bind {A B} (x : result A) (f : A -> result B) : result B :=
  match x with
  | Ok a => f a
  | Raise e => Raise e
  end.
Notation "x <- c1 ;; c2" := (bind c1 (fun x => c2))
  (at level 61, c1 at next level, right associativity).

(** A [datetime] at midnight. *)
Record datetime : Type := { dt_year : Z; dt_month : Z; dt_day : Z }.

Module Num.

Definition digit_val (a : ascii) : Z := Z.of_nat (Py.code a - 48).

Fixpoint digits_val (acc : Z) (s : str) : option Z :=
  match s with
  | [] => Some acc
  | a :: s' =>
      if Py.isdigit a then digits_val (10 * acc + digit_val a)%Z s' else None
  end.

(** The value of a non-empty string of digits. *)
Definition nat_literal (s : str) : option Z :=
  match s with
  | [] => None
  | _ => digits_val 0 s
  end.

(** [int(s)] for a token with an optional sign and digits. *)
Definition int (s : str) : option Z :=
  match s with
  | a :: s' =>
      if Ascii.eqb a "-" then option_map Z.opp (nat_literal s')
      else if Ascii.eqb a "+" then nat_literal s'
      else nat_literal s
  | [] => None
  end.

(** [str(n)] *)
Definition to_str (n : Z) : str :=
  lit (DecimalString.NilZero.string_of_int (Z.to_int n)).

Fixpoint until_dot (s : str) : str * option str :=
  match s with
  | [] => ([], None)
  | a :: s' =>
      if Ascii.eqb a "."
      then ([], Some s')
      else let (w, f) := until_dot s' in (a :: w, f)
  end.

(** The value of the digits of a decimal literal, with its sign. *)
Definition float_digits (neg : bool) (body : str) : option Q :=
  let (whole, frac) := until_dot body in
  let frac := match frac with Some f => f | None => [] end in
  match whole ++ frac with
  | [] => None
  | ds =>
      match digits_val 0 ds with
      | Some n =>
          Some (Qmake (if neg then Z.opp n else n)
                      (Z.to_pos (10 ^ Z.of_nat (length frac))))
      | None => None
      end
  end.

(** [float(s)] for a decimal literal [-?digits[.digits]], as the exact
    rational it denotes; the rounding to a binary float is left out. *)
Definition float (s : str) : option Q :=
  match s with
  | a :: s' => if Ascii.eqb a "-" then float_digits true s'
               else float_digits false s
  | [] => None
  end.

End Num.

(** ** The calendar *)

Module Calendar.

Definition isleap (y : Z) : bool :=
  ((y mod 4 =? 0) && (negb (y mod 100 =? 0) || (y mod 400 =? 0)))%Z.

(** [calendar.monthrange(year, month)[1]] for a month from 1 to 12. *)
Definition monthrange (y m : Z) : Z :=
  (if m =? 2 then (if isleap y then 29 else 28)
   else if (m =? 4) || (m =? 6) || (m =? 9) || (m =? 11) then 30
   else 31)%Z.

(** [datetime(y, m, d)] *)
Definition mk_datetime (y m d : Z) : result datetime :=
  (if negb ((1 <=? y) && (y <=? 9999)) then
     Raise (ValueError ("year " ++ Num.to_str y ++ " is out of range"))
   else if negb ((1 <=? m) && (m <=? 12)) then
     Raise (ValueError "month must be in 1..12")
   else if negb ((1 <=? d) && (d <=? monthrange y m)) then
     Raise (ValueError "day is out of range for month")
   else Ok {| dt_year := y; dt_month := m; dt_day := d |})%Z.

Definition month_names : list string :=
  ["jan"; "feb"; "mar"; "apr"; "may"; "jun";
   "jul"; "aug"; "sep"; "oct"; "nov"; "dec"].

Fixpoint index_of (x : str) (L : list string) (i : Z) : option Z :=
  match L with
  | [] => None
  | y :: L' => if Py.str_eqb x y then Some i else index_of x L' (i + 1)%Z
  end.

(** [datetime.strptime(s, "%b").month]: the abbreviated month names,
    whatever their case. *)
Definition strptime_b (s : str) : option Z :=
  index_of (Py.lower s) month_names 1%Z.

End Calendar.

(** ** dateutil *)

Module Dateutil.

(** [dateutil.parser.parse] on the strings the parser hands it: a month
    name, a day number of one or two digits and a year, separated by
    whitespace.  The year token has three digits or more, which is what
    makes dateutil read it as the year, and the day number is the other
    one.  A day the month does not have is reported with the message of
    [datetime]; dateutil appends the string it was given.  dateutil reads
    many more formats; on any other string this model reports its
    unknown-format error. *)
Definition parse (timestr : str) : result datetime :=
  match Py.split timestr with
  | [mon; day; yr] =>
      match Calendar.strptime_b mon, Num.nat_literal day, Num.nat_literal yr with
      | Some m, Some d, Some y =>
          if (length day <=? 2) && (3 <=? length yr)
          then match Calendar.mk_datetime y m d with
               | Ok dt => Ok dt
               | Raise e => Raise (ParserError (exn_str e) timestr)
               end
          else Raise (ParserError "Unknown string format" timestr)
      | _, _, _ => Raise (ParserError "Unknown string format" timestr)
      end
  | _ => Raise (ParserError "Unknown string format" timestr)
  end.

End Dateutil.

(** ** The parser *)

Module PaymentRow.
Record t : Type := {
  trans_date : datetime;
  post_date : datetime;
  description : str;
  amount : Q;
  source : str
}.
End PaymentRow.

Module TransactionRow.
Record t : Type := {
  trans_date : datetime;
  post_date : datetime;
  description : str;
  category : str;
  amount : Q;
  location : str;
  city : str;
  province : str;
  source : str
}.
End TransactionRow.

Definition KNOWN_CATEGORIES : list str :=
  [ lit "Personal and Household Expenses";
    lit "Professional and Financial Services";
    lit "Retail and Grocery";
    lit "Transportation";
    lit "Hotel, Entertainment and Recreation";
    lit "Restaurants";
    lit "Health and Education";
    lit "Foreign Currency Transactions";
    lit "Other Transactions" ].

Definition PROVINCE_CODES : list string :=
  ["ON"; "QC"; "BC"; "AB"; "MB"; "SK"; "NB"; "NS"; "NL"; "PE"; "YT"; "NT"; "NU"].

Definition CITY_PATTERNS : list str :=
  [ lit "NIAGARA FALLS"; lit "RICHMOND HILL"; lit "STONEY CREEK";
    lit "MISSISSAUGA"; lit "ETOBICOKE"; lit "WOODBRIDGE"; lit "DESERONTO";
    lit "BRAMPTON"; lit "OTTAWA"; lit "NEPEAN"; lit "TORONTO"; lit "MARKHAM";
    lit "KANATA"; lit "ORLEANS";
    lit "SAINT GABRIEL"; lit "MONTREAL"; lit "WAKEFIELD";
    lit "CALGARY";
    lit "HALIFAX";
    lit "FREDERICTON" ].
Definition CITY_PATTERNS_SORTED : list str :=
  Py.sorted_by_len_desc CITY_PATTERNS.
Definition CITY_PATTERNS_NOSPACE : list str :=
  map (fun c => Py.replace c " " []) CITY_PATTERNS_SORTED.

Definition PAYMENTS_START : str := "Your payments".
Definition PAYMENTS_TOTAL_PREFIX : str := "Total payments $".
Definition CHARGES_START : str := "Your new charges and credits".
Definition TOTAL_FOR_PREFIX : str := "Total for".
Definition CARD_NUMBER_PREFIX : str := "Card number".

Section Patterns.
Import Re.
Local Open Scope re_scope.

(** [Transactions from .*? (\d{4})] *)
Definition TRANSACTIONS_FROM_RE : regex :=
  Lit "Transactions from " ;; lazy_star dot ;; Lit " " ;;
  Grp "1" (times Py.isdigit 4 4).

(** [(Jan|Feb|...|Dec)]; the text of this group is never read. *)
Definition MONTH_3 : regex :=
  alts ["Jan"; "Feb"; "Mar"; "Apr"; "May"; "Jun";
        "Jul"; "Aug"; "Sep"; "Oct"; "Nov"; "Dec"].

(** [MONTH_3\s+\d{1,2}] *)
Definition DATE_RE : regex :=
  MONTH_3 ;; plus Py.isspace ;; times Py.isdigit 1 2.

Definition digit_or_comma (a : ascii) : bool :=
  Py.isdigit a || Ascii.eqb a ",".

(** [-?\d[\d,]*\.?\d{0,2}] *)
Definition AMOUNT_RE : regex :=
  opt (any_of "-") ;; Cls Py.isdigit ;; star digit_or_comma ;;
  opt (any_of ".") ;; times Py.isdigit 0 2.

(** [^(?P<tdate>DATE)\s+(?P<pdate>DATE)\s+(?P<body>.+?)\s+(?P<amount>AMOUNT)$] *)
Definition ROW_RE : regex :=
  Bol ;; Grp "tdate" DATE_RE ;; plus Py.isspace ;;
  Grp "pdate" DATE_RE ;; plus Py.isspace ;;
  Grp "body" (lazy_plus dot) ;; plus Py.isspace ;;
  Grp "amount" AMOUNT_RE ;; Eol.

(** [(ON|QC|BC|AB|MB|SK|NB|NS|NL|PE|YT|NT|NU)] *)
Definition PROVINCE_RE : regex := Grp "1" (alts PROVINCE_CODES).

(** [\s(ON|...)\s*$], [-(ON|...)\s*$] and [(ON|...)\s*$] *)
Definition SPACE_PROVINCE_RE : regex :=
  Cls Py.isspace ;; PROVINCE_RE ;; star Py.isspace ;; Eol.
Definition HYPHEN_PROVINCE_RE : regex :=
  Lit "-" ;; PROVINCE_RE ;; star Py.isspace ;; Eol.
Definition TAIL_PROVINCE_RE : regex :=
  PROVINCE_RE ;; star Py.isspace ;; Eol.

(** [(HTTPSWWW|HTTPS|HTTP|WWW|G\.?CO/HELPPAY|GCO/HELPPAY|ONLINE)(?=[A-Z])] *)
Definition GLUED_PREFIX_RE : regex :=
  Grp "1" (Alt (Lit "HTTPSWWW") (Alt (Lit "HTTPS") (Alt (Lit "HTTP")
          (Alt (Lit "WWW")
          (Alt (Lit "G" ;; opt (any_of ".") ;; Lit "CO/HELPPAY")
          (Alt (Lit "GCO/HELPPAY") (Lit "ONLINE")))))))
  ;; Ahead Py.isupper.

(** [[^A-Z]] and [[^A-Z\s]] *)
Definition not_upper (a : ascii) : bool := negb (Py.isupper a).
Definition not_upper_or_space (a : ascii) : bool :=
  negb (Py.isupper a || Py.isspace a).

(** [^[A-Z]+$] *)
Definition UPPER_WORD_RE : regex := Bol ;; plus Py.isupper ;; Eol.

(** [^Page \d+ of \d+$], [^\*\d{7,}\*$] and [^-?\d{3}-\d{6,}$] *)
Definition PAGE_RE : regex :=
  Bol ;; Lit "Page " ;; plus Py.isdigit ;; Lit " of " ;; plus Py.isdigit ;; Eol.
Definition BARCODE_RE : regex :=
  Bol ;; Lit "*" ;; at_least Py.isdigit 7 ;; Lit "*" ;; Eol.
Definition REFCODE_RE : regex :=
  Bol ;; opt (any_of "-") ;; times Py.isdigit 3 3 ;; Lit "-" ;;
  at_least Py.isdigit 6 ;; Eol.

(** [\s{2,}] *)
Definition WIDE_SPACE_RE : regex := at_least Py.isspace 2.

End Patterns.

Definition is_some {A} (o : option A) : bool :=
  match o with Some _ => true | None => false end.

(** [_extract_year]; [now_year] is [datetime.now().year]. *)
Fixpoint _extract_year (now_year : Z) (pages_text : list str) : Z :=
  match pages_text with
  | [] => now_year
  | t :: rest =>
      match Re.search TRANSACTIONS_FROM_RE t with
      | Some m =>
          match Num.nat_literal (Re.group "1" (Re.m_caps m)) with
          | Some y => y
          | None => now_year    (* not reached: the group is four digits *)
          end
      | None => _extract_year now_year rest
      end
  end.

Definition DAY_OUT_OF_RANGE : str := "day is out of range for month".

Definition _normalize_date (dstr : str) (year : Z) : result datetime :=
  match Dateutil.parse (dstr ++ " " ++ Num.to_str year) with
  | Ok d => Ok d
  | Raise e =>
      if Py.contains (exn_str e) DAY_OUT_OF_RANGE
      then match Py.split dstr with
           | mon_str :: day_str :: _ =>
               match Calendar.strptime_b mon_str, Num.int day_str with
               | Some month, Some day =>
                   let last_day := Calendar.monthrange year month in
                   match Calendar.mk_datetime year month (Z.min day last_day) with
                   | Ok d => Ok d
                   | Raise _ => Raise e
                   end
               | _, _ => Raise e
               end
           | _ => Raise e
           end
      else Raise e
  end.

Definition KNOWN_CATEGORIES_SORTED : list str :=
  Py.sorted_by_len_desc KNOWN_CATEGORIES.

Fixpoint first_suffix (body_norm : str) (cats : list str) : option str :=
  match cats with
  | [] => None
  | cat :: cats' =>
      if Py.endswith body_norm cat then Some cat
      else first_suffix body_norm cats'
  end.

Definition _find_category_and_desc (body : str) : str * str :=
  let body_norm := Py.squeeze body in
  match first_suffix body_norm KNOWN_CATEGORIES_SORTED with
  | Some cat => (cat, Py.rstrip (Py.drop_last (length cat) body_norm))
  | None => ([], body_norm)
  end.

Definition _normalize_city (s : str) : str :=
  let s := Py.squeeze s in
  Py.join " " (map Py.capitalize (Py.split s)).

Definition _letters_only (s : str) : str :=
  Re.sub (Re.Cls not_upper) [] (Py.upper s).

Definition DOMAIN_HINTS : list str :=
  [ lit "WWW"; lit "HTTP"; lit "HTTPS"; lit ".COM"; lit ".CA"; lit "/";
    lit "G.CO"; lit "GOOGLE"; lit "AMAZON"; lit "UBER" ].

(** The match-like object the fourth strategy fabricates. *)
Definition _FakeMatch (start stop : nat) (prov : str) : Re.mobj :=
  {| Re.m_start := start; Re.m_end := stop; Re.m_caps := [("1"%string, prov)] |}.

Fixpoint glued_city (before_letters : str) (cities : list str) : bool :=
  match cities with
  | [] => false
  | city_ns :: rest =>
      Py.endswith before_letters city_ns || glued_city before_letters rest
  end.

(** The loop of the fourth strategy over the province codes. *)
Fixpoint detect_glued (U : str) (provs : list string)
    : option Re.mobj * str * str :=
  match provs with
  | [] => (None, [], [])
  | prov :: rest =>
      if Py.endswith U prov
      then let before := Py.rstrip (Py.drop_last (length (lit prov)) U) in
           let before_letters := _letters_only before in
           if glued_city before_letters CITY_PATTERNS_NOSPACE
           then (Some (_FakeMatch (length before) (length U) prov),
                 lit prov, lit "gluedcity")
           else detect_glued U rest
      else detect_glued U rest
  end.

(** The four strategies, in the order they are tried: a province after
    whitespace, after a hyphen, at the end of a string with a domain or
    brand hint, and glued to a known city. *)
Definition space_province (U : str) : option Re.mobj :=
  Re.search SPACE_PROVINCE_RE U.
Definition hyphen_province (U : str) : option Re.mobj :=
  Re.search HYPHEN_PROVINCE_RE U.
Definition domain_province (U : str) : option Re.mobj :=
  if existsb (Py.contains U) DOMAIN_HINTS
  then Re.search TAIL_PROVINCE_RE U
  else None.
Definition glued_province (U : str) : option Re.mobj * str * str :=
  detect_glued U PROVINCE_CODES.

Definition _detect_province_suffix (U : str) : option Re.mobj * str * str :=
  match space_province U with
  | Some m => (Some m, Re.group "1" (Re.m_caps m), lit "space")
  | None =>
  match hyphen_province U with
  | Some m => (Some m, Re.group "1" (Re.m_caps m), lit "hyphen")
  | None =>
  match domain_province U with
  | Some m => (Some m, Re.group "1" (Re.m_caps m), lit "domain")
  | None => glued_province U
  end end end.

Definition STOP : list str :=
  [ lit "STORE"; lit "SUPERCENTER"; lit "AMAZON"; lit "AMAZONCA"; lit "WWW";
    lit "HTTPS"; lit "HTTP"; lit "UBER"; lit "UBERCOM";
    lit "GOOGLE"; lit "YOUTUBE"; lit "G"; lit "CO"; lit "HELPPAY";
    lit "AIRBNB"; lit "WESTJET"; lit "INC"; lit "LTD"; lit "COMP"; lit "COM";
    lit "ONLINE";
    lit "SUPERCENTEROTTAWA"; lit "SUPERCENTERNEPEAN"; lit "COMPMONTREAL";
    lit "INCTORONTO"; lit "CKANATA";
    lit "AMAZONCAON"; lit "UBERON"; lit "HTTPSWWW" ].

Definition JOINERS : list str := [ lit "CREEK"; lit "FALLS"; lit "HILL" ].

(** The first gazetteer name the last token ends with or contains. *)
Fixpoint city_in_token (last_tok : str) (pats : list (str * str)) : option str :=
  match pats with
  | [] => None
  | (pat, pat_ns) :: rest =>
      if Py.endswith last_tok pat_ns || Py.contains last_tok pat
      then Some pat
      else city_in_token last_tok rest
  end.

Definition pick_city_from_tokens (toks : list str) : str :=
  let two_words :=
    match rev toks with
    | last :: before :: _ =>
        if Py.mem last JOINERS && is_some (Re.rematch UPPER_WORD_RE before)
        then Some (before ++ " " ++ last)
        else None
    | _ => None
    end in
  match two_words with
  | Some c => c
  | None =>
      match rev toks with
      | last_tok :: _ =>
          if negb (Py.mem last_tok STOP)
             && is_some (Re.rematch UPPER_WORD_RE last_tok)
          then if length last_tok <? 3 then []
               else match city_in_token last_tok
                            (combine CITY_PATTERNS_SORTED CITY_PATTERNS_NOSPACE) with
                    | Some pat => pat
                    | None => last_tok
                    end
          else []
      | [] => []
      end
  end.

(** The first gazetteer name that occurs in the alphabetic tail. *)
Fixpoint scan_city (tail_alpha : str) (pats : list str) : option str :=
  match pats with
  | [] => None
  | pat :: rest =>
      if Py.contains tail_alpha pat then Some pat
      else scan_city tail_alpha rest
  end.

(** Python's truth value of a string. *)
Definition truthy (s : str) : bool :=
  match s with [] => false | _ => true end.

(** The text before the province token, reduced to letters and single
    spaces. *)
Definition tail_alpha_of (U : str) (m : Re.mobj) : str :=
  let tail_raw := Py.rstrip (firstn (Re.m_start m) U) in
  let tail_raw := Re.sub GLUED_PREFIX_RE " " tail_raw in
  let tail_raw :=
    Py.replace (Py.replace tail_raw "UBERCOM" "UBER COM") "AMAZON.CA" "AMAZON CA" in
  let tail_alpha := Re.sub (Re.Cls not_upper_or_space) " " tail_raw in
  Py.squeeze tail_alpha.

(** The city the token heuristics give; none in the domain mode. *)
Definition token_city (tail_alpha mode : str) : str :=
  if Py.str_eqb mode "domain" then []
  else pick_city_from_tokens (Py.split tail_alpha).

(** [not cand_city or cand_city in STOP] *)
Definition unusable (cand_city : str) : bool :=
  negb (truthy cand_city) || Py.mem cand_city STOP.

(** The city the heuristics settle on, before the final tidy. *)
Definition candidate_city (tail_alpha prov mode : str) : str :=
  let cand_city := token_city tail_alpha mode in
  let cand_city :=
    if unusable cand_city
    then match scan_city tail_alpha CITY_PATTERNS_SORTED with
         | Some pat => pat
         | None => cand_city
         end
    else cand_city in
  if negb (truthy cand_city) && Py.str_eqb prov "NS"
     && Py.contains tail_alpha "HALIFAX"
  then lit "HALIFAX"
  else cand_city.

(** [_extract_location]: the triple (location, city, province). *)
Definition _extract_location (desc : str) : str * str * str :=
  let U := Py.strip (Py.upper desc) in
  match _detect_province_suffix U with
  | (None, _, _) => ([], [], [])
  | (Some m, prov, mode) =>
      let tail_alpha := tail_alpha_of U m in
      let cand_city := candidate_city tail_alpha prov mode in
      if truthy cand_city && negb (Py.mem cand_city STOP)
      then let city_norm := _normalize_city cand_city in
           (city_norm ++ " " ++ prov, city_norm, prov)
      else ([], [], prov)
  end.

Definition _is_noise (line : str) : bool :=
  let s := Py.strip line in
  if negb (truthy s) then true
  else if Py.startswith s CARD_NUMBER_PREFIX then true
  else if Py.startswith s TOTAL_FOR_PREFIX then true
  else if is_some (Re.rematch PAGE_RE s) then true
  else if is_some (Re.rematch BARCODE_RE s) then true
  else if is_some (Re.rematch REFCODE_RE s) then true
  else false.

(** The loop state of [_parse_pages_text]. *)
Record scan_state : Type := {
  in_payments : bool;
  in_charges : bool;
  payments : list PaymentRow.t;
  txns : list TransactionRow.t
}.

Definition initial_state : scan_state :=
  {| in_payments := false; in_charges := false; payments := []; txns := [] |}.

Definition set_section (p c : bool) (st : scan_state) : scan_state :=
  {| in_payments := p; in_charges := c;
     payments := payments st; txns := txns st |}.

Definition float_or_raise (s : str) : result Q :=
  match Num.float s with
  | Some q => Ok q
  | None => Raise (ValueError ("could not convert string to float: " ++ s))
  end.

(** The row a matched line of the payments section becomes. *)
Definition payment_row (tdate pdate : datetime) (body : str) (amount : Q)
    : PaymentRow.t :=
  {| PaymentRow.trans_date := tdate;
     PaymentRow.post_date := pdate;
     PaymentRow.description := body;
     PaymentRow.amount := amount;
     PaymentRow.source := "CIBC" |}.

(** The row a matched line of the charges section becomes. *)
Definition transaction_row (tdate pdate : datetime) (body : str) (amount : Q)
    : TransactionRow.t :=
  let '(cat, desc) := _find_category_and_desc body in
  let '(loc, city, prov) := _extract_location desc in
  {| TransactionRow.trans_date := tdate;
     TransactionRow.post_date := pdate;
     TransactionRow.description := desc;
     TransactionRow.category := cat;
     TransactionRow.amount := amount;
     TransactionRow.location := loc;
     TransactionRow.city := city;
     TransactionRow.province := prov;
     TransactionRow.source := "CIBC" |}.

(** [payments.append(row)] and [txns.append(row)] *)
Definition append_payment (st : scan_state) (row : PaymentRow.t) : scan_state :=
  {| in_payments := in_payments st; in_charges := in_charges st;
     payments := payments st ++ [row]; txns := txns st |}.
Definition append_txn (st : scan_state) (row : TransactionRow.t) : scan_state :=
  {| in_payments := in_payments st; in_charges := in_charges st;
     payments := payments st; txns := txns st ++ [row] |}.

(** What the loop does with a line the row grammar matched. *)
Definition scan_row (year : Z) (st : scan_state) (m : Re.mobj)
    : result scan_state :=
  tdate <- _normalize_date (Re.group "tdate" (Re.m_caps m)) year ;;
  pdate <- _normalize_date (Re.group "pdate" (Re.m_caps m)) year ;;
  let body := Re.group "body" (Re.m_caps m) in
  let amt_str := Py.replace (Re.group "amount" (Re.m_caps m)) "," [] in
  amount <- float_or_raise amt_str ;;
  if in_payments st then
    Ok (append_payment st (payment_row tdate pdate body amount))
  else if in_charges st then
    Ok (append_txn st (transaction_row tdate pdate body amount))
  else Ok st.

(** One turn of the loop over the lines. *)
Definition scan_line (year : Z) (st : scan_state) (raw_line : str)
    : result scan_state :=
  let line := Py.squeeze raw_line in
  if Py.startswith line PAYMENTS_START then Ok (set_section true false st)
  else if Py.startswith line CHARGES_START then Ok (set_section false true st)
  else if in_payments st && Py.startswith line PAYMENTS_TOTAL_PREFIX
  then Ok (set_section false (in_charges st) st)
  else if _is_noise line then Ok st
  else
    match Re.rematch ROW_RE line with
    | None => Ok st
    | Some m => scan_row year st m
    end.

Fixpoint scan_lines (year : Z) (st : scan_state) (lines : list str)
    : result scan_state :=
  match lines with
  | [] => Ok st
  | raw_line :: rest =>
      st' <- scan_line year st raw_line ;;
      scan_lines year st' rest
  end.

Fixpoint scan_pages (year : Z) (st : scan_state) (pages_text : list str)
    : result scan_state :=
  match pages_text with
  | [] => Ok st
  | page_text :: rest =>
      st' <- scan_lines year st (Py.splitlines page_text) ;;
      scan_pages year st' rest
  end.

(** The clean-up of the description column:
    [.str.replace(r"\s{2,}", " ", regex=True).str.strip()] *)
Definition clean_text (s : str) : str :=
  Py.strip (Re.sub WIDE_SPACE_RE " " s).

Definition clean_payment (p : PaymentRow.t) : PaymentRow.t :=
  {| PaymentRow.trans_date := PaymentRow.trans_date p;
     PaymentRow.post_date := PaymentRow.post_date p;
     PaymentRow.description := clean_text (PaymentRow.description p);
     PaymentRow.amount := PaymentRow.amount p;
     PaymentRow.source := PaymentRow.source p |}.

Definition clean_txn (t : TransactionRow.t) : TransactionRow.t :=
  {| TransactionRow.trans_date := TransactionRow.trans_date t;
     TransactionRow.post_date := TransactionRow.post_date t;
     TransactionRow.description := clean_text (TransactionRow.description t);
     TransactionRow.category := TransactionRow.category t;
     TransactionRow.amount := TransactionRow.amount t;
     TransactionRow.location := TransactionRow.location t;
     TransactionRow.city := TransactionRow.city t;
     TransactionRow.province := TransactionRow.province t;
     TransactionRow.source := TransactionRow.source t |}.

(** [_parse_pages_text]: the two tables are the lists of their rows; the
    conversions of the date and amount columns keep the values the rows
    already have.  [now_year] is the year of the clock. *)
Definition _parse_pages_text (now_year : Z) (pages_text : list str)
    : result (list PaymentRow.t * list TransactionRow.t) :=
  let year := _extract_year now_year pages_text in
  st <- scan_pages year initial_state pages_text ;;
  Ok (map clean_payment (payments st), map clean_txn (txns st)).

(** ** Statements *)

Module PySpec.

(** A token of [str.split()]: not empty, and without whitespace. *)
Definition word (w : str) : Prop :=
  w <> [] /\ forallb (fun a => negb (Py.isspace a)) w = true.

(** A string with a character that is not whitespace. *)
Definition has_word (s : str) : bool :=
  existsb (fun a => negb (Py.isspace a)) s.

End PySpec.

(** What a pattern matches, without the order of the search:
    [accepts r i s cs i' s' cs'] says that [r], read at position [i] where
    the text [s] starts, can match up to position [i'], where [s'] is left,
    and that the captures [cs] become [cs'] on the way. *)

Module ReSpec.
Import Re.

Definition within (hi : option nat) (n : nat) : Prop :=
  match hi with Some h => n <= h | None => True end.

Inductive accepts : regex -> nat -> str -> caps -> nat -> str -> caps -> Prop :=
| acc_lit l i s cs :
    accepts (Lit l) i (l ++ s) cs (i + length l) s cs
| acc_cls (c : ascii -> bool) a i s cs :
    c a = true ->
    accepts (Cls c) i (a :: s) cs (S i) s cs
| acc_seq r1 r2 i s cs i1 s1 cs1 i2 s2 cs2 :
    accepts r1 i s cs i1 s1 cs1 ->
    accepts r2 i1 s1 cs1 i2 s2 cs2 ->
    accepts (Seq r1 r2) i s cs i2 s2 cs2
| acc_alt_l r1 r2 i s cs i' s' cs' :
    accepts r1 i s cs i' s' cs' ->
    accepts (Alt r1 r2) i s cs i' s' cs'
| acc_alt_r r1 r2 i s cs i' s' cs' :
    accepts r2 i s cs i' s' cs' ->
    accepts (Alt r1 r2) i s cs i' s' cs'
| acc_rep g (c : ascii -> bool) lo hi w i s cs :
    forallb c w = true -> lo <= length w -> within hi (length w) ->
    accepts (Rep g c lo hi) i (w ++ s) cs (i + length w) s cs
| acc_grp n r i s cs i' s' cs' :
    accepts r i s cs i' s' cs' ->
    accepts (Grp n r) i s cs i' s' ((n, firstn (i' - i) s) :: cs')
| acc_bol s cs :
    accepts Bol 0 s cs 0 s cs
| acc_eol i s cs :
    s = [] \/ s = ["010"%char] ->
    accepts Eol i s cs i s cs
| acc_ahead (c : ascii -> bool) a i s cs :
    c a = true ->
    accepts (Ahead c) i (a :: s) cs i (a :: s) cs.

End ReSpec.

(** The row grammar in words: two dates, a body and an amount, with
    whitespace between them, up to the end of the line. *)

Module RowSpec.

Definition months : list string :=
  ["Jan"; "Feb"; "Mar"; "Apr"; "May"; "Jun";
   "Jul"; "Aug"; "Sep"; "Oct"; "Nov"; "Dec"].

(** One whitespace character or more. *)
Definition spaces (w : str) : Prop :=
  w <> [] /\ forallb Py.isspace w = true.

(** An abbreviated month, whitespace, a day of one or two digits. *)
Definition date_token (d : str) : Prop :=
  exists mon ws day,
    d = lit mon ++ ws ++ day /\ In mon months /\ spaces ws /\
    forallb Py.isdigit day = true /\ 1 <= length day <= 2.

(** An optional minus sign, a digit, digits and commas, an optional point,
    and at most two digits. *)
Definition amount_token (a : str) : Prop :=
  exists sign d ds point frac,
    a = sign ++ [d] ++ ds ++ point ++ frac /\
    (sign = [] \/ sign = lit "-") /\ Py.isdigit d = true /\
    forallb digit_or_comma ds = true /\
    (point = [] \/ point = lit ".") /\
    forallb Py.isdigit frac = true /\ length frac <= 2.

(** A non-empty text without a line feed. *)
Definition body_text (b : str) : Prop :=
  b <> [] /\ forallb Re.dot b = true.

(** The end of the subject, or the line feed that ends it. *)
Definition line_end (e : str) : Prop := e = [] \/ e = ["010"%char].

(** What follows the body: whitespace, the amount, the end of the line. *)
Definition row_tail (t amt : str) : Prop :=
  exists ws e, t = ws ++ amt ++ e /\ spaces ws /\ amount_token amt /\ line_end e.

(** [line] reads as the dates [td] and [pd], the body [body] and then
    [tail], which holds the amount [amt]. *)
Definition row_parts (line td pd body tail amt : str) : Prop :=
  exists ws1 ws2,
    line = td ++ ws1 ++ pd ++ ws2 ++ body ++ tail /\
    date_token td /\ spaces ws1 /\ date_token pd /\ spaces ws2 /\
    body_text body /\ row_tail tail amt.

Definition row_shape (line : str) : Prop :=
  exists td pd body tail amt, row_parts line td pd body tail amt.

(** What follows the body in the pattern: [\s+(?P<amount>AMOUNT)$] *)
Definition ROW_TAIL_RE : Re.regex :=
  Re.Seq (Re.plus Py.isspace) (Re.Seq (Re.Grp "amount" AMOUNT_RE) Re.Eol).

(** What precedes the body in the pattern:
    [^(?P<tdate>DATE)\s+(?P<pdate>DATE)\s+] *)
Definition ROW_HEAD_RE : Re.regex :=
  Re.Seq Re.Bol (Re.Seq (Re.Grp "tdate" DATE_RE) (Re.Seq (Re.plus Py.isspace)
    (Re.Seq (Re.Grp "pdate" DATE_RE) (Re.plus Py.isspace)))).

Definition ROW_BODY_RE : Re.regex := Re.Grp "body" (Re.lazy_plus Re.dot).

(** The groups of a match, as the matcher records them. *)
Definition row_caps (td pd body amt : str) : Re.caps :=
  [("amount"%string, amt); ("body"%string, body);
   ("pdate"%string, pd); ("tdate"%string, td)].

(** No shorter body would do: after a proper, non-empty prefix of [body]
    the rest of the line is not whitespace, an amount and the line end. *)
Definition shortest_body (body tail : str) : Prop :=
  forall b1 b2 amt, body = b1 ++ b2 -> b1 <> [] -> b2 <> [] ->
    ~ row_tail (b2 ++ tail) amt.

End RowSpec.

(** The shape of the triple a location takes: with a city, the location is
    the city, a space and the province; without one it is empty. *)
Definition location_shape (loc city prov : str) : Prop :=
  (city <> [] -> loc = city ++ " " ++ prov) /\ (city = [] -> loc = []).

Definition txn_location_shape (t : TransactionRow.t) : Prop :=
  location_shape (TransactionRow.location t) (TransactionRow.city t)
                 (TransactionRow.province t).

(** The first letters of the month names. *)
Definition month_initials : str := "JFMASOND".

(** A line that opens a section. *)
Definition is_header (raw_line : str) : bool :=
  Py.startswith (Py.squeeze raw_line) PAYMENTS_START
  || Py.startswith (Py.squeeze raw_line) CHARGES_START.

(** A line the scan passes over in every section state: no header, no
    payments total, and not matched by the row grammar. *)
Definition inert (raw_line : str) : bool :=
  negb (is_header raw_line)
  && negb (Py.startswith (Py.squeeze raw_line) PAYMENTS_TOTAL_PREFIX)
  && negb (is_some (Re.rematch ROW_RE (Py.squeeze raw_line))).

(** The ways a turn of the loop ends. *)
Inductive line_effect (year : Z) (st : scan_state) (raw_line : str)
    : result scan_state -> Prop :=
| eff_payments :
    Py.startswith (Py.squeeze raw_line) PAYMENTS_START = true ->
    line_effect year st raw_line (Ok (set_section true false st))
| eff_charges :
    Py.startswith (Py.squeeze raw_line) PAYMENTS_START = false ->
    Py.startswith (Py.squeeze raw_line) CHARGES_START = true ->
    line_effect year st raw_line (Ok (set_section false true st))
| eff_total :
    in_payments st = true ->
    Py.startswith (Py.squeeze raw_line) PAYMENTS_TOTAL_PREFIX = true ->
    line_effect year st raw_line (Ok (set_section false (in_charges st) st))
| eff_skip :
    Py.startswith (Py.squeeze raw_line) PAYMENTS_START = false ->
    Py.startswith (Py.squeeze raw_line) CHARGES_START = false ->
    Re.rematch ROW_RE (Py.squeeze raw_line) = None ->
    line_effect year st raw_line (Ok st)
| eff_row m :
    Re.rematch ROW_RE (Py.squeeze raw_line) = Some m ->
    line_effect year st raw_line (scan_row year st m).

(** The order of a list sorted by [key=len, reverse=True]. *)
Definition longer_first (a b : str) : Prop := length b <= length a.

(** A text without whitespace. *)
Definition nospace (w : str) : Prop :=
  forallb (fun a => negb (Py.isspace a)) w = true.

(** The years the properties of the dates are stated for: four digits. *)
Definition four_digit (year : Z) : Prop := (1000 <= year <= 9999)%Z.

Definition year_token_ok (y : Z) : bool :=
  match Num.nat_literal (Num.to_str y) with
  | Some n => (n =? y)%Z
  | None => false
  end
  && forallb Py.isdigit (Num.to_str y) && (length (Num.to_str y) =? 4).

(** The gazetteer names tried before HALIFAX. *)
Definition ahead_of_halifax : list str := firstn 16 CITY_PATTERNS_SORTED.


(** ** Sample texts *)

Definition LF : str := ["010"%char].

Definition sample_page1 : str :=
  "Transactions from Jan 1 to Jan 31, 2025" ++ LF ++
  "Your payments" ++ LF ++
  "Jan 5 Jan 7 PAYMENT THANK YOU 1,234.56" ++ LF ++
  "Total payments $1,234.56".

Definition sample_page2 : str :=
  "Your new charges and credits" ++ LF ++
  "Jan 5 Jan 7 TIM HORTONS #123 OTTAWA ON Retail and Grocery 12.34" ++ LF ++
  "Page 2 of 3".

(** A first page of the three lines the end-to-end property asks for, with
    a payment row dated on day 0. *)
Definition day_zero_page1 : str :=
  "Your payments" ++ LF ++
  "Jan 0 Jan 7 PAYMENT THANK YOU 100.00" ++ LF ++
  "Total payments $100.00".

Definition sample_row : str :=
  "Jan 5 Jan 7 TIM HORTONS OTTAWA ON Retail and Grocery 12.34".

(** ** The merchant of a description ([rough_merchant] of [app.py]) *)

Definition prov_tokens : list str :=
  [ lit "ON"; lit "QC"; lit "BC"; lit "AB"; lit "MB"; lit "SK"; lit "NB";
    lit "NS"; lit "NL"; lit "PE"; lit "YT"; lit "NT"; lit "NU" ].

(** The loop over [enumerate(toks)]: [seen] is [toks[:i]], [toks] is what is
    left from index [i] on. *)
Fixpoint merchant_loop (seen toks : list str) : option str :=
  match toks with
  | [] => None
  | t :: rest =>
      if Py.mem (Py.upper t) prov_tokens
      then Some (Py.strip (Py.join " " seen))
      else merchant_loop (seen ++ [t]) rest
  end.

Definition rough_merchant (desc : str) : str :=
  match merchant_loop [] (Py.split desc) with
  | Some merchant => merchant
  | None => desc
  end.

(** ** Further statements *)

(** A page text that names the period of the statement: the marker, text
    without a line feed, a space and the four digits [ds]. *)
Definition year_header (t ds : str) : Prop :=
  exists a b c,
    t = a ++ "Transactions from " ++ b ++ " " ++ ds ++ c /\
    forallb Re.dot b = true /\
    forallb Py.isdigit ds = true /\ length ds = 4.

(** One digit or more. *)
Definition digits (w : str) : Prop :=
  w <> [] /\ forallb Py.isdigit w = true.

(** The lines [_is_noise] drops, after [strip]: the empty line, the card
    number and sub-total lines, the page counter, the bar code and the
    reference code. *)
Definition noise_shape (s : str) : Prop :=
  s = [] \/
  (exists t, s = CARD_NUMBER_PREFIX ++ t) \/
  (exists t, s = TOTAL_FOR_PREFIX ++ t) \/
  (exists a b, s = "Page " ++ a ++ " of " ++ b /\ digits a /\ digits b) \/
  (exists d, s = "*" ++ d ++ "*" /\
             forallb Py.isdigit d = true /\ 7 <= length d) \/
  (exists sign a b,
     s = sign ++ a ++ "-" ++ b /\ (sign = [] \/ sign = lit "-") /\
     forallb Py.isdigit a = true /\ length a = 3 /\
     forallb Py.isdigit b = true /\ 6 <= length b).

(** No two whitespace characters in a row. *)
Fixpoint no_wide (s : str) : bool :=
  match s with
  | a :: (b :: _) as t => negb (Py.isspace a && Py.isspace b) && no_wide t
  | _ => true
  end.

(** A text without whitespace at its ends and without two whitespace
    characters in a row. *)
Definition tidy (s : str) : Prop := Py.strip s = s /\ no_wide s = true.

(** The four modes of province detection. *)
Definition MODES : list str :=
  [ lit "space"; lit "hyphen"; lit "domain"; lit "gluedcity" ].

(** The province codes as strings. *)
Definition PROVINCES : list str := map lit PROVINCE_CODES.

(** A record of the payments table with tidy text. *)
Definition payment_tidy (p : PaymentRow.t) : Prop :=
  tidy (PaymentRow.description p).

Definition txn_tidy (t : TransactionRow.t) : Prop :=
  tidy (TransactionRow.description t).

(** The line [raw_line] reads as a row: the row grammar matches it with the
    groups of [m], its dates normalise to [d1] and [d2] and its amount
    converts to [q]. *)
Definition row_read (year : Z) (raw_line : str) (m : Re.mobj)
    (d1 d2 : datetime) (q : Q) : Prop :=
  Re.rematch ROW_RE (Py.squeeze raw_line) = Some m /\
  _normalize_date (Re.group "tdate" (Re.m_caps m)) year = Ok d1 /\
  _normalize_date (Re.group "pdate" (Re.m_caps m)) year = Ok d2 /\
  float_or_raise (Py.replace (Re.group "amount" (Re.m_caps m)) "," []) = Ok q.

(** The lines of a statement, page after page. *)
Definition statement_lines (pages_text : list str) : list str :=
  flat_map Py.splitlines pages_text.

(** A line the row grammar matches, after the normalisation of its
    whitespace. *)
Definition is_row (raw_line : str) : bool :=
  is_some (Re.rematch ROW_RE (Py.squeeze raw_line)).

(** The province of a description: none, or one of the codes, standing at
    the end of the upper-cased description. *)
Definition province_ok (desc prov : str) : Prop :=
  prov = [] \/
  (In prov PROVINCES /\ Py.endswith (Py.strip (Py.upper desc)) prov = true).

Definition txn_province_ok (t : TransactionRow.t) : Prop :=
  province_ok (TransactionRow.description t) (TransactionRow.province t).

(** A city as the parser writes it: not a stop word, whatever the case,
    and in the form [_normalize_city] gives. *)
Definition city_ok (city : str) : Prop :=
  city = [] \/
  (Py.mem (Py.upper city) STOP = false /\ _normalize_city city = city).

(** The category of a transaction: none, or a known label. *)
Definition category_ok (cat : str) : Prop :=
  cat = [] \/ In cat KNOWN_CATEGORIES.

(** A date of the year [year], on a day its month has. *)
Definition date_in_year (year : Z) (d : datetime) : Prop :=
  dt_year d = year /\ (1 <= dt_month d <= 12)%Z /\
  (1 <= dt_day d <= Calendar.monthrange year (dt_month d))%Z.

Definition payment_dated (year : Z) (p : PaymentRow.t) : Prop :=
  date_in_year year (PaymentRow.trans_date p) /\
  date_in_year year (PaymentRow.post_date p).

Definition txn_dated (year : Z) (t : TransactionRow.t) : Prop :=
  date_in_year year (TransactionRow.trans_date t) /\
  date_in_year year (TransactionRow.post_date t).

(** The fields of a transaction that the parser derives from the text. *)
Definition txn_fields_ok (t : TransactionRow.t) : Prop :=
  category_ok (TransactionRow.category t) /\
  TransactionRow.source t = lit "CIBC" /\
  txn_province_ok t /\ city_ok (TransactionRow.city t).

(** A record that was read from one of the lines. *)
Definition payment_from (year : Z) (lines : list str) (p : PaymentRow.t)
    : Prop :=
  exists raw_line m d1 d2 q,
    In raw_line lines /\ row_read year raw_line m d1 d2 q /\
    p = payment_row d1 d2 (Re.group "body" (Re.m_caps m)) q.

Definition txn_from (year : Z) (lines : list str) (t : TransactionRow.t)
    : Prop :=
  exists raw_line m d1 d2 q,
    In raw_line lines /\ row_read year raw_line m d1 d2 q /\
    t = transaction_row d1 d2 (Re.group "body" (Re.m_caps m)) q.

(** Whether the last character of a text is of the class [c]. *)
Definition last_is (c : ascii -> bool) (s : str) : bool :=
  match rev s with
  | a :: _ => c a
  | [] => false
  end.

(** The start of a word: the beginning of the text, or the place after a
    whitespace character. *)
Definition word_start (pre : str) : Prop :=
  pre = [] \/ last_is Py.isspace pre = true.

(** The texts the de-gluing pattern of [_extract_location] matches, before
    a capital letter. *)
Definition GLUE_TEXTS : list str :=
  [ lit "HTTPSWWW"; lit "HTTPS"; lit "HTTP"; lit "WWW";
    lit "G.CO/HELPPAY"; lit "GCO/HELPPAY"; lit "ONLINE" ].

(** The texts made of letters that the de-gluing of [_extract_location]
    looks for: the prefixes of the pattern, and the text of the first
    replacement. *)
Definition GLUE_WORDS : list str :=
  [ lit "HTTP"; lit "WWW"; lit "ONLINE"; lit "UBERCOM" ].

(** A word of three capital letters or more that is no stop word, not the
    second word of a two-word name, and holds none of the glued texts. *)
Definition plain_word (w : str) : bool :=
  forallb Py.isupper w && (3 <=? length w) &&
  negb (Py.mem w STOP) && negb (Py.mem w JOINERS) &&
  negb (existsb (Py.contains w) GLUE_WORDS).

(** The city the token heuristics read from a last token: the first
    gazetteer name it ends with or contains, or the token itself. *)
Definition city_of_token (last_tok : str) : str :=
  match city_in_token last_tok
          (combine CITY_PATTERNS_SORTED CITY_PATTERNS_NOSPACE) with
  | Some pat => pat
  | None => last_tok
  end.

(** * Properties *)

(** ** Strings *)

Module PyFacts.
Import Py PySpec.

Lemma ascii_eqb_eq (a b : ascii) : Ascii.eqb a b = true <-> a = b.
Proof. apply Ascii.eqb_eq. Qed.

Lemma str_eqb_eq (s t : str) : str_eqb s t = true <-> s = t.
Proof.
  revert t; induction s as [|a s IH]; intros [|b t]; simpl; split;
    try congruence; try reflexivity.
  - intros H. apply andb_true_iff in H as [Hab Hst].
    apply Ascii.eqb_eq in Hab. apply IH in Hst. congruence.
  - intros H. injection H as -> ->. rewrite Ascii.eqb_refl. simpl.
    now apply IH.
Qed.

Lemma str_eqb_refl (s : str) : str_eqb s s = true.
Proof. now apply str_eqb_eq. Qed.

Lemma mem_In (x : str) (L : list str) : mem x L = true <-> In x L.
Proof.
  unfold mem. rewrite existsb_exists. split.
  - intros (y & Hy & E). apply str_eqb_eq in E. now subst.
  - intros H. exists x. split; [assumption | apply str_eqb_refl].
Qed.

Lemma startswith_app (p t : str) : startswith (p ++ t) p = true.
Proof.
  induction p as [|b p IH]; simpl; [reflexivity|].
  now rewrite Ascii.eqb_refl.
Qed.

Lemma startswith_inv (s p : str) :
  startswith s p = true -> s = p ++ skipn (length p) s.
Proof.
  revert s; induction p as [|b p IH]; intros s H; simpl in *.
  - reflexivity.
  - destruct s as [|a s]; [discriminate|].
    apply andb_true_iff in H as [Hab H]. apply Ascii.eqb_eq in Hab. subst a.
    simpl. f_equal. now apply IH.
Qed.

Lemma startswith_iff (s p : str) :
  startswith s p = true <-> exists t, s = p ++ t.
Proof.
  split.
  - intros H. eexists. now apply startswith_inv.
  - intros [t ->]. apply startswith_app.
Qed.

Lemma endswith_iff (s p : str) :
  endswith s p = true <-> exists t, s = t ++ p.
Proof.
  unfold endswith. rewrite startswith_iff. split.
  - intros [t H]. exists (rev t).
    rewrite <- (rev_involutive s), H, rev_app_distr, rev_involutive.
    reflexivity.
  - intros [t ->]. exists (rev t). apply rev_app_distr.
Qed.

Lemma endswith_drop_last (s p : str) :
  endswith s p = true -> s = drop_last (length p) s ++ p.
Proof.
  intros H. apply endswith_iff in H as [t ->]. unfold drop_last.
  rewrite length_app, Nat.add_sub, firstn_app, Nat.sub_diag, firstn_all.
  simpl. now rewrite app_nil_r.
Qed.

Lemma contains_iff (s p : str) :
  contains s p = true <-> exists u t, s = u ++ p ++ t.
Proof.
  induction s as [|a s IH].
  - simpl. rewrite orb_false_r, startswith_iff. split.
    + intros [t H]. now exists [], t.
    + intros (u & t & H). destruct u; simpl in H.
      * now exists t.
      * discriminate.
  - simpl contains. rewrite orb_true_iff, startswith_iff, IH. split.
    + intros [[t H] | (u & t & H)].
      * now exists [], t.
      * exists (a :: u), t. simpl. now rewrite H.
    + intros (u & t & H). destruct u as [|b u]; simpl in H.
      * left. now exists t.
      * right. injection H as _ H. now exists u, t.
Qed.

Lemma forallb_rev {A} (f : A -> bool) (l : list A) :
  forallb f (rev l) = forallb f l.
Proof.
  induction l as [|a l IH]; simpl; [reflexivity|].
  rewrite forallb_app, IH. simpl. rewrite andb_true_r. apply andb_comm.
Qed.

(** Tokens *)

Lemma word_has_word (w : str) : word w -> has_word w = true.
Proof.
  intros [Hne Hall]. destruct w as [|a w]; [congruence|].
  simpl in *. apply andb_true_iff in Hall as [-> _]. reflexivity.
Qed.

Lemma split_from_words (cur s : str) :
  forallb (fun a => negb (isspace a)) cur = true ->
  Forall word (split_from cur s).
Proof.
  revert cur; induction s as [|a s IH]; intros cur Hcur; simpl.
  - destruct cur as [|c cur]; constructor; [|constructor].
    split.
    + intros E. apply (f_equal (@length _)) in E.
      rewrite length_rev in E. discriminate.
    + rewrite forallb_rev. exact Hcur.
  - destruct (isspace a) eqn:Ha.
    + destruct cur as [|c cur].
      * now apply IH.
      * constructor; [|now apply IH].
        split.
        -- intros E. apply (f_equal (@length _)) in E.
           rewrite length_rev in E. discriminate.
        -- rewrite forallb_rev. exact Hcur.
    + apply IH. simpl. now rewrite Ha.
Qed.

Lemma split_words (s : str) : Forall word (split s).
Proof. now apply split_from_words. Qed.

Lemma split_from_nonempty (cur s : str) :
  cur <> [] \/ has_word s = true -> split_from cur s <> [].
Proof.
  revert cur; induction s as [|a s IH]; intros cur H; simpl.
  - destruct H as [H|H]; [|discriminate].
    destruct cur; [congruence|discriminate].
  - destruct (isspace a) eqn:Ha.
    + destruct cur as [|c cur]; [|discriminate].
      apply IH. destruct H as [H|H]; [congruence|].
      right. simpl in H. now rewrite Ha in H.
    + apply IH. left. discriminate.
Qed.

Lemma split_nonempty (s : str) : has_word s = true -> split s <> [].
Proof. intros H. apply split_from_nonempty. now right. Qed.

Lemma has_word_app_l (s t : str) : has_word s = true -> has_word (s ++ t) = true.
Proof. unfold has_word. rewrite existsb_app. now intros ->. Qed.

Lemma has_word_app_r (s t : str) : has_word t = true -> has_word (s ++ t) = true.
Proof. unfold has_word. rewrite existsb_app. intros ->. apply orb_true_r. Qed.

Lemma join_head (sep w : str) (ws : list str) :
  exists t, join sep (w :: ws) = w ++ t.
Proof.
  destruct ws as [|w' ws]; simpl.
  - exists []. now rewrite app_nil_r.
  - eexists. reflexivity.
Qed.

Lemma join_words_has_word (sep : str) (ws : list str) :
  ws <> [] -> Forall word ws -> has_word (join sep ws) = true.
Proof.
  intros Hne Hall. destruct ws as [|w ws]; [congruence|].
  destruct (join_head sep w ws) as [t ->].
  apply has_word_app_l, word_has_word. now inversion Hall.
Qed.

Lemma squeeze_has_word (s : str) :
  has_word s = true -> has_word (squeeze s) = true.
Proof.
  intros H. unfold squeeze. apply join_words_has_word.
  - now apply split_nonempty.
  - apply split_words.
Qed.

Lemma has_word_nonempty (s : str) : has_word s = true -> s <> [].
Proof. destruct s; [discriminate|congruence]. Qed.

End PyFacts.

(** ** The city heuristics *)

Module CityFacts.
Import Py PySpec PyFacts.

Lemma city_in_token_In (tok : str) (pats : list (str * str)) (pat : str) :
  city_in_token tok pats = Some pat -> In pat (map fst pats).
Proof.
  induction pats as [|[p pn] pats IH]; simpl; [discriminate|].
  destruct (endswith tok pn || contains tok p).
  - intros [= ->]. now left.
  - intros H. right. now apply IH.
Qed.

Lemma scan_city_Some (tail_alpha : str) (pats : list str) (pat : str) :
  scan_city tail_alpha pats = Some pat ->
  In pat pats /\ contains tail_alpha pat = true.
Proof.
  induction pats as [|p pats IH]; simpl; [discriminate|].
  destruct (contains tail_alpha p) eqn:E.
  - intros [= <-]. split; [now left | assumption].
  - intros H. destruct (IH H). split; [now right | assumption].
Qed.

Lemma scan_city_None (tail_alpha : str) (pats : list str) :
  scan_city tail_alpha pats = None <->
  forall pat, In pat pats -> contains tail_alpha pat = false.
Proof.
  induction pats as [|p pats IH]; simpl.
  - split; [intros _ pat [] | reflexivity].
  - destruct (contains tail_alpha p) eqn:E.
    + split; [discriminate|]. intros H. rewrite (H p) in E; [discriminate|now left].
    + rewrite IH. split.
      * intros H pat [<- | Hin]; [assumption | now apply H].
      * intros H pat Hin. apply H. now right.
Qed.

Lemma cities_have_word (pat : str) :
  In pat CITY_PATTERNS_SORTED -> has_word pat = true.
Proof.
  assert (H : forallb has_word CITY_PATTERNS_SORTED = true) by (vm_compute; reflexivity).
  rewrite forallb_forall in H. apply H.
Qed.

Lemma cities_not_stopped (pat : str) :
  In pat CITY_PATTERNS_SORTED -> mem pat STOP = false.
Proof.
  assert (H : forallb (fun p => negb (mem p STOP)) CITY_PATTERNS_SORTED = true)
    by (vm_compute; reflexivity).
  rewrite forallb_forall in H. intros Hin. apply H in Hin.
  now apply negb_true_iff in Hin.
Qed.

Lemma combine_fst_In {A B} (x : A) (l : list A) (l' : list B) :
  In x (map fst (combine l l')) -> In x l.
Proof.
  revert l'; induction l as [|a l IH]; intros [|b l']; simpl; try tauto.
  intros [-> | H]; [now left | right; eauto].
Qed.

Lemma pick_city_has_word (toks : list str) :
  Forall word toks ->
  truthy (pick_city_from_tokens toks) = true ->
  has_word (pick_city_from_tokens toks) = true.
Proof.
  intros Hw. unfold pick_city_from_tokens.
  assert (Hrev : Forall word (rev toks)) by now apply Forall_rev.
  destruct (rev toks) as [|last_tok rest]; [discriminate|].
  inversion Hrev as [|? ? Hlast Hrest]; subst.
  assert (Hcase : forall c,
    (if negb (mem last_tok STOP) && is_some (Re.rematch UPPER_WORD_RE last_tok)
     then if length last_tok <? 3 then []
          else match city_in_token last_tok
                       (combine CITY_PATTERNS_SORTED CITY_PATTERNS_NOSPACE) with
               | Some pat => pat
               | None => last_tok
               end
     else []) = c -> truthy c = true -> has_word c = true).
  { intros c <-.
    destruct (negb (mem last_tok STOP) && is_some (Re.rematch UPPER_WORD_RE last_tok));
      [|discriminate].
    destruct (length last_tok <? 3); [discriminate|].
    destruct (city_in_token _ _) as [pat|] eqn:E.
    - intros _. apply cities_have_word.
      apply city_in_token_In in E. now apply combine_fst_In in E.
    - intros _. now apply word_has_word. }
  destruct rest as [|before rest'].
  - now apply Hcase.
  - destruct (mem last_tok JOINERS && is_some (Re.rematch UPPER_WORD_RE before)).
    + intros _. apply has_word_app_r, has_word_app_r. now apply word_has_word.
    + now apply Hcase.
Qed.

Lemma candidate_city_has_word (tail_alpha prov mode : str) :
  truthy (candidate_city tail_alpha prov mode) = true ->
  has_word (candidate_city tail_alpha prov mode) = true.
Proof.
  unfold candidate_city.
  set (c0 := token_city tail_alpha mode).
  assert (H0 : truthy c0 = true -> has_word c0 = true).
  { unfold c0, token_city. destruct (str_eqb mode "domain"); [discriminate|].
    apply pick_city_has_word, split_words. }
  set (c1 := if unusable c0
             then match scan_city tail_alpha CITY_PATTERNS_SORTED with
                  | Some pat => pat
                  | None => c0
                  end
             else c0).
  assert (H1 : truthy c1 = true -> has_word c1 = true).
  { unfold c1. destruct (unusable c0); [|exact H0].
    destruct (scan_city _ _) as [pat|] eqn:E; [|exact H0].
    intros _. apply cities_have_word. now apply scan_city_Some in E. }
  destruct (negb (truthy c1) && str_eqb prov "NS" && contains tail_alpha "HALIFAX").
  - reflexivity.
  - exact H1.
Qed.

Lemma capitalize_nonempty (w : str) : w <> [] -> capitalize w <> [].
Proof. destruct w; [congruence|discriminate]. Qed.

Lemma normalize_city_nonempty (c : str) :
  has_word c = true -> _normalize_city c <> [].
Proof.
  intros H. unfold _normalize_city.
  pose proof (split_nonempty _ (squeeze_has_word _ H)) as Hne.
  pose proof (split_words (squeeze c)) as Hw.
  destruct (split (squeeze c)) as [|w ws]; [congruence|].
  simpl map. destruct (join_head " " (capitalize w) (map capitalize ws)) as [t ->].
  inversion Hw as [|? ? [Hwne _] _]; subst.
  apply capitalize_nonempty in Hwne.
  destruct (capitalize w); [congruence|discriminate].
Qed.

(** The three ways [_extract_location] returns. *)
Lemma extract_location_cases (desc : str) :
  let U := strip (upper desc) in
  match _detect_province_suffix U with
  | (None, _, _) => _extract_location desc = ([], [], [])
  | (Some m, prov, mode) =>
      let c := candidate_city (tail_alpha_of U m) prov mode in
      (truthy c = true /\ mem c STOP = false /\
       _extract_location desc =
         (_normalize_city c ++ " " ++ prov, _normalize_city c, prov))
      \/ ((truthy c = false \/ mem c STOP = true) /\
          _extract_location desc = ([], [], prov))
  end.
Proof.
  intros U. unfold _extract_location. fold U.
  destruct (_detect_province_suffix U) as [[[m|] prov] mode]; [|reflexivity].
  set (c := candidate_city (tail_alpha_of U m) prov mode).
  destruct (truthy c) eqn:Ht; destruct (mem c STOP) eqn:Hs; cbn [andb negb].
  - right. split; [now right | reflexivity].
  - left. repeat split.
  - right. split; [now left | reflexivity].
  - right. split; [now left | reflexivity].
Qed.

Lemma extract_location_shape (desc : str) :
  let '(loc, city, prov) := _extract_location desc in
  location_shape loc city prov.
Proof.
  pose proof (extract_location_cases desc) as H. cbv zeta in H.
  destruct (_detect_province_suffix (strip (upper desc))) as [[[m|] prov] mode].
  - destruct H as [(Ht & _ & ->) | (_ & ->)].
    + split; [reflexivity|].
      intros E. exfalso.
      apply (normalize_city_nonempty _ (candidate_city_has_word _ _ _ Ht)), E.
    + split; [congruence | reflexivity].
  - rewrite H. split; [congruence | reflexivity].
Qed.

End CityFacts.

(** ** The matcher against what a pattern matches *)

Module ReFacts.
Import Re ReSpec.

Section Rep.
Variable R : Type.
Variables (g : bool) (c : ascii -> bool) (k : nat -> str -> option R).

Lemma rep_eq (lo : nat) (hi : option nat) (i : nat) (s : str) :
  rep g c lo hi i s k =
  let stop := match lo with O => k i s | S _ => None end in
  let more :=
    match s with
    | a :: s' =>
        if c a && room hi
        then rep g c (pred lo) (option_map pred hi) (S i) s' k
        else None
    | [] => None
    end in
  if g then match more with Some x => Some x | None => stop end
  else match stop with Some x => Some x | None => more end.
Proof. destruct s; reflexivity. Qed.

Lemma within_step (hi : option nat) (n : nat) :
  room hi = true -> within (option_map pred hi) n -> within hi (S n).
Proof. destruct hi as [[|h]|]; simpl; intros; try discriminate; lia. Qed.

Lemma within_back (hi : option nat) (n : nat) :
  within hi (S n) -> room hi = true /\ within (option_map pred hi) n.
Proof. destruct hi as [[|h]|]; simpl; intros; split; trivial; lia. Qed.

Lemma within_zero (hi : option nat) : within hi 0.
Proof. destruct hi; simpl; lia. Qed.

(** A repetition that succeeds took some run of the class, of an allowed
    length, and the rest of the pattern succeeded after it. *)
Lemma rep_sound (s : str) : forall lo hi i x,
  rep g c lo hi i s k = Some x ->
  exists w s', s = w ++ s' /\ forallb c w = true /\ lo <= length w /\
               within hi (length w) /\ k (i + length w) s' = Some x.
Proof.
  induction s as [|a s IH]; intros lo hi i x; rewrite rep_eq; cbv zeta.
  - assert (H : match lo with O => k i [] | S _ => None end = Some x ->
      exists w s', [] = w ++ s' /\ forallb c w = true /\ lo <= length w /\
                   within hi (length w) /\ k (i + length w) s' = Some x).
    { destruct lo; [|discriminate]. intros H. exists [], []. simpl.
      rewrite Nat.add_0_r. repeat split; auto using within_zero. }
    destruct g; [exact H|].
    destruct (match lo with O => k i [] | S _ => None end); [exact H|discriminate].
  - assert (Hstop : match lo with O => k i (a :: s) | S _ => None end = Some x ->
      exists w s', a :: s = w ++ s' /\ forallb c w = true /\ lo <= length w /\
                   within hi (length w) /\ k (i + length w) s' = Some x).
    { destruct lo; [|discriminate]. intros H. exists [], (a :: s). simpl.
      rewrite Nat.add_0_r. repeat split; auto using within_zero. }
    assert (Hmore :
      (if c a && room hi then rep g c (pred lo) (option_map pred hi) (S i) s k
       else None) = Some x ->
      exists w s', a :: s = w ++ s' /\ forallb c w = true /\ lo <= length w /\
                   within hi (length w) /\ k (i + length w) s' = Some x).
    { destruct (c a && room hi) eqn:E; [|discriminate].
      apply andb_true_iff in E as [Ha Hroom]. intros H.
      apply IH in H as (w & s' & -> & Hw & Hlo & Hhi & Hk).
      exists (a :: w), s'. simpl. rewrite Ha, Hw.
      rewrite <- Nat.add_succ_comm. repeat split; auto using within_step.
      lia. }
    destruct g.
    + destruct (if c a && room hi then _ else None); [exact Hmore | exact Hstop].
    + destruct (match lo with O => _ | S _ => None end); [exact Hstop | exact Hmore].
Qed.

(** A run of the class of an allowed length after which the rest of the
    pattern succeeds makes the repetition succeed. *)
Lemma rep_complete (w : str) : forall s' lo hi i,
  forallb c w = true -> lo <= length w -> within hi (length w) ->
  k (i + length w) s' <> None ->
  rep g c lo hi i (w ++ s') k <> None.
Proof.
  induction w as [|a w IH]; intros s' lo hi i Hw Hlo Hhi Hk;
    cbn [app]; rewrite rep_eq; cbv zeta.
  - simpl in *. rewrite Nat.add_0_r in Hk.
    assert (lo = 0) by lia. subst lo.
    destruct g.
    + destruct (match s' with [] => None | _ => _ end); [discriminate|exact Hk].
    + destruct (k i s'); [discriminate|congruence].
  - simpl in Hw, Hlo, Hhi, Hk. apply andb_true_iff in Hw as [Ha Hw].
    apply within_back in Hhi as [Hroom Hhi].
    rewrite <- Nat.add_succ_comm in Hk.
    specialize (IH s' (pred lo) (option_map pred hi) (S i) Hw ltac:(lia) Hhi Hk).
    rewrite Ha, Hroom. cbn [andb].
    destruct g.
    + destruct (rep true c (pred lo) (option_map pred hi) (S i) (w ++ s') k);
        [discriminate|congruence].
    + destruct (match lo with O => _ | S _ => None end); [discriminate|exact IH].
Qed.

End Rep.

(** A lazy repetition stops at the first length at which the rest of the
    pattern succeeds. *)
Lemma rep_lazy_least R (c : ascii -> bool) (k : nat -> str -> option R)
    (s : str) : forall lo hi i x,
  rep false c lo hi i s k = Some x ->
  exists w s', s = w ++ s' /\ forallb c w = true /\ lo <= length w /\
               within hi (length w) /\ k (i + length w) s' = Some x /\
               forall w' s'', s = w' ++ s'' -> lo <= length w' ->
                 length w' < length w -> k (i + length w') s'' = None.
Proof.
  induction s as [|a s IH]; intros lo hi i x; rewrite rep_eq; cbv zeta.
  - destruct lo; [|discriminate].
    destruct (k i []) eqn:E; [|discriminate]. intros [= ->].
    exists [], []. simpl. rewrite Nat.add_0_r.
    repeat split; auto using within_zero. intros; lia.
  - destruct (match lo with O => k i (a :: s) | S _ => None end) eqn:Estop.
    + intros [= ->]. destruct lo; [|discriminate].
      exists [], (a :: s). simpl. rewrite Nat.add_0_r.
      repeat split; auto using within_zero. intros; lia.
    + destruct (c a && room hi) eqn:E; [|discriminate].
      apply andb_true_iff in E as [Ha Hroom]. intros H.
      apply IH in H as (w & s' & -> & Hw & Hlo & Hhi & Hk & Hleast).
      exists (a :: w), s'. simpl. rewrite Ha, Hw.
      rewrite <- Nat.add_succ_comm.
      repeat split; auto using within_step; [lia|].
      intros w' s'' Hsplit Hlo' Hlt.
      destruct w' as [|b w']; simpl in *.
      * subst s''. rewrite Nat.add_0_r.
        destruct lo; [exact Estop | lia].
      * injection Hsplit as -> Hsplit.
        rewrite <- Nat.add_succ_comm. apply Hleast; [assumption|lia|lia].
Qed.

(** What the matcher returns, it returns from the rest of the pattern run
    after a match of [r]. *)
Lemma rmatch_sound R (r : regex) : forall i s cs (k : nat -> str -> caps -> option R) x,
  rmatch r i s cs k = Some x ->
  exists i' s' cs', accepts r i s cs i' s' cs' /\ k i' s' cs' = Some x.
Proof.
  induction r as [l|c|r1 IH1 r2 IH2|r1 IH1 r2 IH2|g c lo hi|n r IH| | |c];
    intros i s cs k x; simpl.
  - destruct (Py.startswith s l) eqn:E; [|discriminate].
    apply PyFacts.startswith_inv in E. intros H.
    exists (i + length l), (skipn (length l) s), cs. split; [|exact H].
    rewrite E at 1. constructor.
  - destruct s as [|a s]; [discriminate|].
    destruct (c a) eqn:E; [|discriminate]. intros H.
    exists (S i), s, cs. split; [now constructor | exact H].
  - intros H. apply IH1 in H as (i1 & s1 & cs1 & A1 & H).
    apply IH2 in H as (i2 & s2 & cs2 & A2 & H).
    exists i2, s2, cs2. split; [econstructor; eassumption | exact H].
  - destruct (rmatch r1 i s cs k) eqn:E.
    + intros [= ->]. apply IH1 in E as (i' & s' & cs' & A & H).
      exists i', s', cs'. split; [now apply acc_alt_l | exact H].
    + intros H. apply IH2 in H as (i' & s' & cs' & A & H).
      exists i', s', cs'. split; [now apply acc_alt_r | exact H].
  - intros H. apply rep_sound in H as (w & s' & -> & Hw & Hlo & Hhi & H).
    exists (i + length w), s', cs. split; [now constructor | exact H].
  - intros H. apply IH in H as (i' & s' & cs' & A & H).
    eexists i', s', _. split; [constructor; eassumption | exact H].
  - destruct (i =? 0) eqn:E; [|discriminate]. apply Nat.eqb_eq in E. subst i.
    intros H. exists 0, s, cs. split; [constructor | exact H].
  - intros H. exists i, s, cs.
    destruct s as [|a [|b s]]; try discriminate.
    + split; [constructor; now left | exact H].
    + destruct (Py.code a =? 10) eqn:E; [|discriminate].
      apply Nat.eqb_eq in E. unfold Py.code in E.
      apply (f_equal ascii_of_nat) in E. rewrite ascii_nat_embedding in E.
      subst a. split; [constructor; now right | exact H].
  - destruct s as [|a s]; [discriminate|].
    destruct (c a) eqn:E; [|discriminate]. intros H.
    exists i, (a :: s), cs. split; [now constructor | exact H].
Qed.

(** A match of [r] after which the rest of the pattern succeeds makes the
    matcher succeed. *)
Lemma rmatch_complete R (r : regex) i s cs i' s' cs' :
  accepts r i s cs i' s' cs' ->
  forall k : nat -> str -> caps -> option R,
  k i' s' cs' <> None -> rmatch r i s cs k <> None.
Proof.
  induction 1 as [l i s cs|c a i s cs Ha|r1 r2 i s cs i1 s1 cs1 i2 s2 cs2 _ IH1 _ IH2
                 |r1 r2 i s cs i' s' cs' _ IH|r1 r2 i s cs i' s' cs' _ IH
                 |g c lo hi w i s cs Hw Hlo Hhi|n r i s cs i' s' cs' _ IH
                 |s cs|i s cs Hs|c a i s cs Ha]; intros k Hk; simpl.
  - rewrite PyFacts.startswith_app, skipn_app, Nat.sub_diag, skipn_all. exact Hk.
  - now rewrite Ha.
  - apply IH1. now apply IH2.
  - specialize (IH k Hk). destruct (rmatch r1 i s cs k); congruence.
  - destruct (rmatch r1 i s cs k); [discriminate | now apply IH].
  - now apply rep_complete.
  - now apply IH.
  - exact Hk.
  - destruct Hs as [-> | ->]; exact Hk.
  - now rewrite Ha.
Qed.

(** A match reads a prefix of the text and moves the position by its
    length. *)
Lemma accepts_consumes r i s cs i' s' cs' :
  accepts r i s cs i' s' cs' ->
  exists w, s = w ++ s' /\ i' = i + length w.
Proof.
  induction 1 as [l i s cs|c a i s cs Ha|r1 r2 i s cs i1 s1 cs1 i2 s2 cs2 _ IH1 _ IH2
                 |r1 r2 i s cs i' s' cs' _ IH|r1 r2 i s cs i' s' cs' _ IH
                 |g c lo hi w i s cs Hw Hlo Hhi|n r i s cs i' s' cs' _ IH
                 |s cs|i s cs Hs|c a i s cs Ha].
  - now exists l.
  - exists [a]. simpl. split; [reflexivity|lia].
  - destruct IH1 as (w1 & -> & ->), IH2 as (w2 & -> & ->).
    exists (w1 ++ w2). rewrite length_app, <- app_assoc. split; [reflexivity|lia].
  - exact IH.
  - exact IH.
  - now exists w.
  - exact IH.
  - now exists [].
  - exists []. simpl. split; [reflexivity|lia].
  - exists []. simpl. split; [reflexivity|lia].
Qed.

End ReFacts.

(** ** The row grammar *)

Module RowFacts.
Import Re ReSpec ReFacts RowSpec.

Ltac inv H := inversion H; subst; clear H.

Lemma accepts_alts_inv (ls : list string) i s cs i' s' cs' :
  accepts (alts ls) i s cs i' s' cs' -> ls <> [] ->
  exists l, In l ls /\ s = lit l ++ s' /\ i' = i + length (lit l) /\ cs' = cs.
Proof.
  induction ls as [|l ls IH]; intros H Hne; [congruence|].
  destruct ls as [|l' ls].
  - inv H. exists l. repeat split. now left.
  - simpl in H. inv H.
    + match goal with H : accepts (Lit _) _ _ _ _ _ _ |- _ => inv H end.
      exists l. repeat split. now left.
    + destruct IH as (l0 & Hin & ? & ? & ?); [assumption|discriminate|].
      exists l0. repeat split; trivial. now right.
Qed.

Lemma accepts_alts_intro (ls : list string) (l : string) i s cs :
  In l ls -> accepts (alts ls) i (lit l ++ s) cs (i + length (lit l)) s cs.
Proof.
  induction ls as [|l0 ls IH]; intros Hin; [destruct Hin|].
  destruct ls as [|l1 ls].
  - destruct Hin as [-> | []]. constructor.
  - simpl. destruct Hin as [-> | Hin].
    + apply acc_alt_l. constructor.
    + apply acc_alt_r. now apply IH.
Qed.

Lemma accepts_rep_inv g c lo hi i s cs i' s' cs' :
  accepts (Rep g c lo hi) i s cs i' s' cs' ->
  exists w, s = w ++ s' /\ forallb c w = true /\ lo <= length w /\
            within hi (length w) /\ i' = i + length w /\ cs' = cs.
Proof. intros H. inv H. eexists. repeat split; eassumption. Qed.

Lemma accepts_grp_inv n r i s cs i' s' cs' :
  accepts (Grp n r) i s cs i' s' cs' ->
  exists w cs0, accepts r i (w ++ s') cs i' s' cs0 /\ s = w ++ s' /\
                i' = i + length w /\ cs' = (n, w) :: cs0.
Proof.
  intros H. inv H.
  match goal with H : accepts _ _ _ _ _ _ _ |- _ =>
    pose proof H as Hc; apply accepts_consumes in Hc as (w & Hs & Hi); subst end.
  exists w. eexists. repeat split; [eassumption|].
  replace (i + length w - i) with (length w) by lia.
  rewrite firstn_app, Nat.sub_diag, firstn_all. simpl. now rewrite app_nil_r.
Qed.

Lemma accepts_grp_intro n r i w s' cs cs0 :
  accepts r i (w ++ s') cs (i + length w) s' cs0 ->
  accepts (Grp n r) i (w ++ s') cs (i + length w) s' ((n, w) :: cs0).
Proof.
  intros H. apply acc_grp with (n := n) in H.
  replace (i + length w - i) with (length w) in H by lia.
  rewrite firstn_app, Nat.sub_diag, firstn_all in H. simpl in H.
  now rewrite app_nil_r in H.
Qed.

Lemma spaces_iff (w : str) :
  spaces w <-> forallb Py.isspace w = true /\ 1 <= length w.
Proof.
  unfold spaces. destruct w; simpl; split; intros [? ?]; split; trivial;
    try congruence; lia.
Qed.

Lemma opt_word (a : ascii) (w : str) :
  forallb (any_of [a]) w = true -> length w <= 1 -> w = [] \/ w = [a].
Proof.
  intros Hw Hlen. destruct w as [|b [|? ?]]; simpl in *; try lia.
  - now left.
  - right. unfold any_of in Hw. simpl in Hw.
    rewrite !orb_false_r, andb_true_r in Hw. apply Ascii.eqb_eq in Hw.
    now subst.
Qed.

Lemma accepts_date_inv i s cs i' s' cs' :
  accepts DATE_RE i s cs i' s' cs' ->
  exists d, date_token d /\ s = d ++ s' /\ i' = i + length d /\ cs' = cs.
Proof.
  intros H. unfold DATE_RE in H. inv H.
  match goal with H : accepts (Seq _ _) _ _ _ _ _ _ |- _ => inv H end.
  match goal with H : accepts MONTH_3 _ _ _ _ _ _ |- _ =>
    apply accepts_alts_inv in H as (mon & Hmon & -> & -> & ->); [|discriminate] end.
  unfold plus, times in *.
  repeat match goal with H : accepts (Rep _ _ _ _) _ _ _ _ _ _ |- _ =>
    apply accepts_rep_inv in H as (? & ? & ? & ? & ? & ? & ?) end.
  subst. simpl within in *.
  match goal with
  | Hws : forallb Py.isspace ?ws = true, Hd : forallb Py.isdigit ?day = true |- _ =>
      exists (lit mon ++ ws ++ day); repeat split;
        [ exists mon, ws, day; repeat split; trivial;
          apply spaces_iff; now split
        | now rewrite <- !app_assoc
        | rewrite !length_app; lia ]
  end.
Qed.

Lemma accepts_date_intro d i s cs :
  date_token d -> accepts DATE_RE i (d ++ s) cs (i + length d) s cs.
Proof.
  intros (mon & ws & day & -> & Hmon & Hws & Hday & Hlen).
  apply spaces_iff in Hws as [Hws Hwl].
  rewrite <- !app_assoc, !length_app, !Nat.add_assoc.
  unfold DATE_RE. eapply acc_seq; [now apply accepts_alts_intro|].
  eapply acc_seq; constructor; simpl; trivial; lia.
Qed.

Lemma accepts_amount_inv i s cs i' s' cs' :
  accepts AMOUNT_RE i s cs i' s' cs' ->
  exists a, amount_token a /\ s = a ++ s' /\ i' = i + length a /\ cs' = cs.
Proof.
  intros H. unfold AMOUNT_RE in H.
  repeat match goal with H : accepts (Seq _ _) _ _ _ _ _ _ |- _ => inv H end.
  match goal with H : accepts (Cls _) _ _ _ _ _ _ |- _ => inv H end.
  unfold opt, star, times in *.
  repeat match goal with H : accepts (Rep _ _ _ _) _ _ _ _ _ _ |- _ =>
    apply accepts_rep_inv in H as (? & ? & ? & ? & ? & ? & ?) end.
  subst. simpl within in *.
  match goal with
  | |- exists a0, _ /\ ?sign ++ ?d :: ?ds ++ ?point ++ ?frac ++ _ = _ /\ _ =>
      exists (sign ++ [d] ++ ds ++ point ++ frac); repeat split;
        [ exists sign, d, ds, point, frac; repeat split; trivial;
          now apply opt_word
        | now rewrite <- !app_assoc
        | rewrite !length_app; simpl; lia ]
  end.
Qed.

Lemma accepts_amount_intro a i s cs :
  amount_token a -> accepts AMOUNT_RE i (a ++ s) cs (i + length a) s cs.
Proof.
  intros (sign & d & ds & point & frac & -> & Hs & Hd & Hds & Hp & Hf & Hfl).
  assert (Hsign : forallb (any_of "-") sign = true /\ length sign <= 1)
    by (destruct Hs as [-> | ->]; split; simpl; trivial; lia).
  assert (Hpoint : forallb (any_of ".") point = true /\ length point <= 1)
    by (destruct Hp as [-> | ->]; split; simpl; trivial; lia).
  destruct Hsign, Hpoint.
  rewrite <- !app_assoc, !length_app. simpl length. simpl app.
  match goal with |- accepts _ _ _ _ ?n _ _ =>
    replace n
      with (S (i + length sign) + length ds + length point + length frac)
      by (simpl; lia) end.
  unfold AMOUNT_RE.
  eapply acc_seq; [constructor; cbn [within]; trivial; lia|].
  eapply acc_seq; [now constructor|].
  eapply acc_seq; [constructor; cbn [within]; trivial; lia|].
  eapply acc_seq; constructor; cbn [within]; trivial; lia.
Qed.

Lemma accepts_tail_inv i s cs i' s' cs' :
  accepts ROW_TAIL_RE i s cs i' s' cs' ->
  exists amt, row_tail s amt /\ cs' = ("amount"%string, amt) :: cs.
Proof.
  intros H. unfold ROW_TAIL_RE in H.
  repeat match goal with H : accepts (Seq _ _) _ _ _ _ _ _ |- _ => inv H end.
  match goal with H : accepts Eol _ _ _ _ _ _ |- _ => inv H end.
  match goal with H : accepts (Grp _ _) _ _ _ _ _ _ |- _ =>
    apply accepts_grp_inv in H as (amt & cs0 & Ha & -> & -> & ->) end.
  apply accepts_amount_inv in Ha as (a & Hamt & E & _ & ->).
  apply app_inv_tail in E. subst a.
  match goal with H : accepts (plus _) _ _ _ _ _ _ |- _ =>
    apply accepts_rep_inv in H as (ws & -> & Hws & Hwl & _ & _ & ->) end.
  exists amt. split; [|reflexivity].
  exists ws, s'. repeat split; trivial.
  - intros ->. simpl in Hwl. lia.
Qed.

Lemma accepts_tail_intro ws amt e i cs :
  spaces ws -> amount_token amt -> line_end e ->
  accepts ROW_TAIL_RE i (ws ++ amt ++ e) cs (i + length ws + length amt) e
          (("amount"%string, amt) :: cs).
Proof.
  intros Hws Hamt He. apply spaces_iff in Hws as [Hws Hwl].
  unfold ROW_TAIL_RE.
  eapply acc_seq; [constructor; simpl; trivial|].
  eapply acc_seq; [|now constructor].
  apply accepts_grp_intro. now apply accepts_amount_intro.
Qed.


Lemma row_re_split R i s cs (k : nat -> str -> caps -> option R) :
  rmatch ROW_RE i s cs k =
  rmatch ROW_HEAD_RE i s cs (fun i1 s1 cs1 =>
    rmatch ROW_BODY_RE i1 s1 cs1 (fun i2 s2 cs2 =>
      rmatch ROW_TAIL_RE i2 s2 cs2 k)).
Proof. reflexivity. Qed.

Lemma accepts_head_inv s cs i' s' cs' :
  accepts ROW_HEAD_RE 0 s cs i' s' cs' ->
  exists td ws1 pd ws2,
    s = td ++ ws1 ++ pd ++ ws2 ++ s' /\
    date_token td /\ spaces ws1 /\ date_token pd /\ spaces ws2 /\
    cs' = ("pdate"%string, pd) :: ("tdate"%string, td) :: cs.
Proof.
  intros H. unfold ROW_HEAD_RE in H.
  repeat match goal with H : accepts (Seq _ _) _ _ _ _ _ _ |- _ => inv H end.
  match goal with H : accepts Bol _ _ _ _ _ _ |- _ => inv H end.
  repeat match goal with H : accepts (Grp _ _) _ _ _ _ _ _ |- _ =>
    let d := fresh "d" in let Hd := fresh "Hd" in
    apply accepts_grp_inv in H as (d & ? & Hd & ? & ? & ?);
    apply accepts_date_inv in Hd as (? & ? & Hd & _ & ?);
    apply app_inv_tail in Hd end.
  repeat match goal with H : accepts (plus _) _ _ _ _ _ _ |- _ =>
    apply accepts_rep_inv in H as (? & ? & ? & ? & _ & ? & ?) end.
  subst.
  match goal with
  | |- exists td ws1 pd ws2, ?a ++ ?b ++ ?c ++ ?d ++ _ = _ /\ _ =>
      exists a, b, c, d; repeat split; trivial; try congruence;
        try (apply spaces_iff; now split)
  end.
Qed.

Lemma accepts_head_intro td ws1 pd ws2 s' cs :
  date_token td -> spaces ws1 -> date_token pd -> spaces ws2 ->
  exists i', accepts ROW_HEAD_RE 0 (td ++ ws1 ++ pd ++ ws2 ++ s') cs i' s'
               (("pdate"%string, pd) :: ("tdate"%string, td) :: cs).
Proof.
  intros Htd Hws1 Hpd Hws2.
  apply spaces_iff in Hws1 as [Hws1 Hl1]. apply spaces_iff in Hws2 as [Hws2 Hl2].
  eexists. unfold ROW_HEAD_RE.
  eapply acc_seq; [constructor|].
  eapply acc_seq; [apply accepts_grp_intro; now apply accepts_date_intro|].
  eapply acc_seq; [constructor; cbn [within]; trivial|].
  eapply acc_seq; [apply accepts_grp_intro; now apply accepts_date_intro|].
  constructor; cbn [within]; trivial.
Qed.

(** A line the pattern matches reads as the row grammar says, the groups
    are its parts, and the body is the shortest that would do. *)
Lemma row_match_inv (line : str) (m : mobj) :
  rematch ROW_RE line = Some m ->
  exists td pd body tail amt,
    row_parts line td pd body tail amt /\
    m_caps m = row_caps td pd body amt /\
    shortest_body body tail.
Proof.
  unfold rematch, match_at. rewrite row_re_split. intros H.
  apply rmatch_sound in H as (i1 & s1 & cs1 & Hhead & H).
  apply accepts_head_inv in Hhead as (td & ws1 & pd & ws2 & -> & Htd & Hws1 & Hpd & Hws2 & ->).
  unfold ROW_BODY_RE, lazy_plus in H. cbn [rmatch] in H.
  apply rep_lazy_least in H as (body & tail & -> & Hbody & Hlen & _ & H & Hleast).
  replace (i1 + length body - i1) with (length body) in H by lia.
  rewrite firstn_app, Nat.sub_diag, firstn_all in H. simpl firstn in H.
  rewrite app_nil_r in H.
  apply rmatch_sound in H as (i3 & s3 & cs3 & Htail & H).
  apply accepts_tail_inv in Htail as (amt & Htail & ->).
  injection H as <-.
  exists td, pd, body, tail, amt. split; [|split].
  - assert (Hb : body_text body)
      by (split; [intros ->; simpl in Hlen; lia | assumption]).
    exists ws1, ws2.
    repeat match goal with |- _ /\ _ => split end; try assumption; reflexivity.
  - reflexivity.
  - intros b1 b2 amt' -> Hb1 Hb2 (ws & e & E & Hws & Hamt & He).
    specialize (Hleast b1 (b2 ++ tail)).
    rewrite <- app_assoc in Hleast. specialize (Hleast eq_refl).
    assert (Hl1 : 1 <= length b1) by (destruct b1; simpl; [congruence|lia]).
    assert (Hl2 : length b1 < length (b1 ++ b2))
      by (rewrite length_app; destruct b2; simpl; [congruence|lia]).
    specialize (Hleast Hl1 Hl2). revert Hleast. rewrite E.
    eapply rmatch_complete; [now apply accepts_tail_intro|discriminate].
Qed.

(** A line that reads as the row grammar says is matched. *)
Lemma row_shape_matches (line : str) :
  row_shape line -> rematch ROW_RE line <> None.
Proof.
  intros (td & pd & body & tail & amt & ws1 & ws2 & -> & Htd & Hws1 & Hpd & Hws2
          & [Hne Hbody] & ws3 & e & -> & Hws3 & Hamt & He).
  unfold rematch, match_at. rewrite row_re_split.
  destruct (accepts_head_intro td ws1 pd ws2 (body ++ ws3 ++ amt ++ e) []
              Htd Hws1 Hpd Hws2)
    as [i1 Hhead].
  eapply rmatch_complete; [exact Hhead|].
  eapply rmatch_complete.
  - unfold ROW_BODY_RE. apply accepts_grp_intro. constructor; cbn [within]; trivial.
    destruct body; simpl; [congruence|lia].
  - eapply rmatch_complete; [now apply accepts_tail_intro|discriminate].
Qed.

End RowFacts.

(** ** Amounts *)

Module AmountFacts.
Import Py Num RowSpec.

Lemma replace_char_from (c : ascii) (s : str) :
  replace_from 0 [c] [] s = filter (fun a => negb (Ascii.eqb a c)) s.
Proof.
  induction s as [|a s IH]; [reflexivity|].
  cbn [replace_from startswith length Nat.sub filter app].
  destruct (Ascii.eqb a c); cbn [andb negb]; now rewrite IH.
Qed.

(** Taking one character out of a string. *)
Lemma replace_char (c : ascii) (s : str) :
  replace s [c] [] = filter (fun a => negb (Ascii.eqb a c)) s.
Proof. apply replace_char_from. Qed.

Lemma digits_val_total (s : str) : forall acc,
  forallb isdigit s = true -> exists n, digits_val acc s = Some n.
Proof.
  induction s as [|a s IH]; intros acc H; simpl in *.
  - now exists acc.
  - apply andb_true_iff in H as [-> H]. now apply IH.
Qed.

Lemma isdigit_not (c : ascii) (a : ascii) :
  isdigit a = true -> isdigit c = false -> Ascii.eqb a c = false.
Proof.
  intros Ha Hc. destruct (Ascii.eqb a c) eqn:E; [|reflexivity].
  apply Ascii.eqb_eq in E. congruence.
Qed.

Lemma until_dot_digits (s : str) :
  forallb isdigit s = true -> until_dot s = (s, None).
Proof.
  induction s as [|a s IH]; simpl; intros H; [reflexivity|].
  apply andb_true_iff in H as [Ha H].
  rewrite (isdigit_not "."%char a Ha eq_refl), (IH H). reflexivity.
Qed.

Lemma until_dot_point (s t : str) :
  forallb isdigit s = true -> until_dot (s ++ "."%char :: t) = (s, Some t).
Proof.
  induction s as [|a s IH]; simpl; intros H; [reflexivity|].
  apply andb_true_iff in H as [Ha H].
  rewrite (isdigit_not "."%char a Ha eq_refl), (IH H). reflexivity.
Qed.

Lemma filter_digits (s : str) :
  forallb isdigit s = true ->
  filter (fun a => negb (Ascii.eqb a ","%char)) s = s.
Proof.
  induction s as [|a s IH]; simpl; intros H; [reflexivity|].
  apply andb_true_iff in H as [Ha H].
  rewrite (isdigit_not ","%char a Ha eq_refl). simpl. now rewrite IH.
Qed.

Lemma filter_digit_or_comma (s : str) :
  forallb digit_or_comma s = true ->
  forallb isdigit (filter (fun a => negb (Ascii.eqb a ","%char)) s) = true.
Proof.
  induction s as [|a s IH]; simpl; intros H; [reflexivity|].
  apply andb_true_iff in H as [Ha H]. unfold digit_or_comma in Ha.
  destruct (Ascii.eqb a ","%char) eqn:E; simpl; [now apply IH|].
  rewrite orb_false_r in Ha. rewrite Ha. now apply IH.
Qed.

Lemma float_digits_total (neg : bool) (d : ascii) (ds point frac : str) :
  isdigit d = true -> forallb isdigit ds = true ->
  point = [] \/ point = lit "." -> forallb isdigit frac = true ->
  exists q, float_digits neg (d :: ds ++ point ++ frac) = Some q.
Proof.
  intros Hd Hds Hp Hf.
  assert (Hall : forallb isdigit ((d :: ds) ++ frac) = true)
    by (rewrite forallb_app, Hf; simpl; now rewrite Hd, Hds).
  destruct (digits_val_total _ 0%Z Hall) as [n Hn].
  unfold float_digits. destruct Hp as [-> | ->].
  - change (d :: ds ++ [] ++ frac) with ((d :: ds) ++ frac).
    rewrite until_dot_digits by exact Hall. rewrite app_nil_r.
    cbn [app] in *. rewrite Hn. eexists. reflexivity.
  - change (d :: ds ++ lit "." ++ frac) with ((d :: ds) ++ "."%char :: frac).
    rewrite until_dot_point by (simpl; now rewrite Hd, Hds).
    cbn [app] in *. rewrite Hn. eexists. reflexivity.
Qed.

Lemma float_clean (sign : str) (d : ascii) (ds point frac : str) :
  sign = [] \/ sign = lit "-" -> isdigit d = true ->
  forallb isdigit ds = true -> point = [] \/ point = lit "." ->
  forallb isdigit frac = true ->
  exists q, float (sign ++ d :: ds ++ point ++ frac) = Some q.
Proof.
  intros Hs Hd Hds Hp Hf. unfold float. destruct Hs as [-> | ->].
  - cbn [app]. rewrite (isdigit_not "-"%char d Hd eq_refl).
    now apply float_digits_total.
  - cbn [app lit list_ascii_of_string]. rewrite Ascii.eqb_refl.
    now apply float_digits_total.
Qed.

(** The amount of a matched row always converts. *)
Lemma float_amount (amt : str) :
  amount_token amt ->
  exists q, float_or_raise (replace amt "," []) = Ok q.
Proof.
  intros (sign & d & ds & point & frac & -> & Hs & Hd & Hds & Hp & Hf & _).
  change (lit ",") with [","%char]. rewrite replace_char, !filter_app.
  cbn [filter]. rewrite (isdigit_not ","%char d Hd eq_refl). cbn [negb].
  rewrite (filter_digits frac Hf).
  assert (Es : filter (fun a => negb (Ascii.eqb a ","%char)) sign = sign)
    by (destruct Hs as [-> | ->]; reflexivity).
  assert (Ep : filter (fun a => negb (Ascii.eqb a ","%char)) point = point)
    by (destruct Hp as [-> | ->]; reflexivity).
  rewrite Es, Ep. cbn [app].
  destruct (float_clean sign d _ point frac Hs Hd
              (filter_digit_or_comma ds Hds) Hp Hf) as [q Hq].
  exists q. unfold float_or_raise. now rewrite Hq.
Qed.

End AmountFacts.

(** ** The section scanner *)

Module ScanFacts.
Import Py PySpec PyFacts Re RowSpec RowFacts.

Lemma lstrip_snoc (x : str) (a : ascii) :
  isspace a = false -> exists y, lstrip (x ++ [a]) = y ++ [a].
Proof.
  intros Ha. induction x as [|b x IH]; simpl.
  - rewrite Ha. now exists [].
  - destruct (isspace b); [exact IH|]. now exists (b :: x).
Qed.

Lemma strip_head (a : ascii) (s : str) :
  isspace a = false -> exists t, strip (a :: s) = a :: t.
Proof.
  intros Ha. unfold strip, rstrip. simpl lstrip. rewrite Ha. simpl rev.
  destruct (lstrip_snoc (rev s) a Ha) as [y ->].
  rewrite rev_app_distr. simpl. now exists (rev y).
Qed.

Lemma month_initial (mon : string) :
  In mon months ->
  exists a r, lit mon = a :: r /\ In a month_initials.
Proof.
  intros H. simpl in H.
  repeat (destruct H as [<- | H];
          [eexists; eexists; split; [reflexivity | simpl; tauto]|]).
  destruct H.
Qed.

(** A line that starts with a month name is no header, no total line and
    no noise. *)
Lemma month_line_plain (a : ascii) (t : str) :
  In a month_initials ->
  startswith (a :: t) PAYMENTS_START = false /\
  startswith (a :: t) CHARGES_START = false /\
  startswith (a :: t) PAYMENTS_TOTAL_PREFIX = false /\
  _is_noise (a :: t) = false.
Proof.
  intros H.
  assert (Hsp : isspace a = false)
    by (simpl in H; repeat (destruct H as [<- | H]; [reflexivity|]); destruct H).
  unfold _is_noise. destruct (strip_head a t Hsp) as [u ->].
  simpl in H.
  repeat (destruct H as [<- | H]; [repeat split; reflexivity|]).
  destruct H.
Qed.

Lemma row_line_month (line : str) (m : mobj) :
  rematch ROW_RE line = Some m ->
  exists a t, line = a :: t /\ In a month_initials.
Proof.
  intros H. apply row_match_inv in H
    as (td & pd & body & tail & amt & (ws1 & ws2 & -> & Htd & _) & _).
  destruct Htd as (mon & ws & day & -> & Hmon & _).
  destruct (month_initial mon Hmon) as (a & r & -> & Ha).
  exists a. eexists. split; [reflexivity | exact Ha].
Qed.

(** A line the row grammar matches goes to [scan_row] in every section
    state. *)
Lemma scan_line_row (year : Z) (st : scan_state) (raw_line : str) (m : mobj) :
  rematch ROW_RE (squeeze raw_line) = Some m ->
  scan_line year st raw_line = scan_row year st m.
Proof.
  intros H. unfold scan_line.
  destruct (row_line_month _ _ H) as (a & t & E & Ha).
  rewrite E in *.
  destruct (month_line_plain a t Ha) as (-> & -> & -> & ->).
  rewrite andb_false_r, H. reflexivity.
Qed.

Lemma scan_line_effect (year : Z) (st : scan_state) (raw_line : str) :
  line_effect year st raw_line (scan_line year st raw_line).
Proof.
  destruct (rematch ROW_RE (squeeze raw_line)) as [m|] eqn:Hm.
  - rewrite (scan_line_row year st raw_line m Hm). now apply eff_row.
  - unfold scan_line. rewrite Hm.
    destruct (startswith (squeeze raw_line) PAYMENTS_START) eqn:H1;
      [now apply eff_payments|].
    destruct (startswith (squeeze raw_line) CHARGES_START) eqn:H2;
      [now apply eff_charges|].
    destruct (in_payments st && startswith (squeeze raw_line) PAYMENTS_TOTAL_PREFIX)
      eqn:H3.
    + apply andb_true_iff in H3 as [? ?]. now apply eff_total.
    + destruct (_is_noise (squeeze raw_line)); now apply eff_skip.
Qed.

(** What [scan_row] does, by the parts of the matched line. *)
Lemma scan_row_parts (year : Z) (st : scan_state) (m : mobj)
    (td pd body amt : str) :
  m_caps m = row_caps td pd body amt -> amount_token amt ->
  exists amount,
    float_or_raise (replace amt "," []) = Ok amount /\
    scan_row year st m =
      (tdate <- _normalize_date td year ;;
       pdate <- _normalize_date pd year ;;
       if in_payments st then
         Ok (append_payment st (payment_row tdate pdate body amount))
       else if in_charges st then
         Ok (append_txn st (transaction_row tdate pdate body amount))
       else Ok st).
Proof.
  intros Hc Hamt. destruct (AmountFacts.float_amount amt Hamt) as [q Hq].
  exists q. split; [exact Hq|].
  unfold scan_row. rewrite Hc. cbn [row_caps group String.eqb Ascii.eqb Bool.eqb].
  simpl group.
  destruct (_normalize_date td year); [|reflexivity]. cbn [bind].
  destruct (_normalize_date pd year); [|reflexivity]. cbn [bind].
  rewrite Hq. reflexivity.
Qed.

End ScanFacts.

(** ** Sorting by length *)

Module SortFacts.
Import Py.

Lemma insert_by_len_perm (x : str) (L : list str) :
  Permutation (x :: L) (insert_by_len x L).
Proof.
  induction L as [|y L IH]; simpl; [reflexivity|].
  destruct (length y <=? length x); [reflexivity|].
  rewrite perm_swap. now constructor.
Qed.

Lemma sorted_by_len_desc_perm (L : list str) :
  Permutation L (sorted_by_len_desc L).
Proof.
  induction L as [|x L IH]; simpl; [constructor|].
  rewrite <- insert_by_len_perm. now constructor.
Qed.

Lemma insert_by_len_sorted (x : str) (L : list str) :
  StronglySorted longer_first L ->
  StronglySorted longer_first (insert_by_len x L).
Proof.
  induction 1 as [|y L HL IH Hy]; simpl.
  - repeat constructor.
  - destruct (length y <=? length x) eqn:E.
    + apply Nat.leb_le in E. constructor; [now constructor|].
      constructor; [exact E|].
      rewrite Forall_forall in *. intros z Hz. specialize (Hy z Hz).
      unfold longer_first in *. lia.
    + apply Nat.leb_gt in E. constructor; [exact IH|].
      rewrite Forall_forall in *. intros z Hz.
      apply (Permutation_in _ (Permutation_sym (insert_by_len_perm x L))) in Hz.
      destruct Hz as [<- | Hz]; [unfold longer_first; lia | now apply Hy].
Qed.

(** The labels come out longest first. *)
Lemma sorted_by_len_desc_sorted (L : list str) :
  StronglySorted longer_first (sorted_by_len_desc L).
Proof.
  induction L as [|x L IH]; simpl; [constructor|].
  now apply insert_by_len_sorted.
Qed.

End SortFacts.

(** ** The category of a charge *)

Module CategoryFacts.
Import Py PySpec PyFacts SortFacts.

Lemma first_suffix_Some (body_norm : str) (cats : list str) (cat : str) :
  first_suffix body_norm cats = Some cat ->
  In cat cats /\ endswith body_norm cat = true.
Proof.
  induction cats as [|c cats IH]; simpl; [discriminate|].
  destruct (endswith body_norm c) eqn:E.
  - intros [= <-]. split; [now left | exact E].
  - intros H. destruct (IH H). split; [now right | assumption].
Qed.

Lemma first_suffix_None (body_norm : str) (cats : list str) :
  first_suffix body_norm cats = None <->
  forall cat, In cat cats -> endswith body_norm cat = false.
Proof.
  induction cats as [|c cats IH]; simpl.
  - split; [intros _ cat [] | reflexivity].
  - destruct (endswith body_norm c) eqn:E.
    + split; [discriminate|]. intros H.
      rewrite (H c) in E; [discriminate | now left].
    + rewrite IH. split.
      * intros H cat [<- | Hin]; [exact E | now apply H].
      * intros H cat Hin. apply H. now right.
Qed.

Lemma known_sorted_In (cat : str) :
  In cat KNOWN_CATEGORIES_SORTED <-> In cat KNOWN_CATEGORIES.
Proof.
  unfold KNOWN_CATEGORIES_SORTED. split; apply Permutation_in.
  - apply Permutation_sym, sorted_by_len_desc_perm.
  - apply sorted_by_len_desc_perm.
Qed.

Lemma prefix_of_prefix (p : str) : forall s q,
  startswith s p = true -> startswith s q = true -> length p <= length q ->
  startswith q p = true.
Proof.
  induction p as [|b p IH]; intros s q Hp Hq Hlen; [reflexivity|].
  destruct q as [|c q]; [simpl in Hlen; lia|].
  destruct s as [|a s]; [discriminate|]. simpl in *.
  apply andb_true_iff in Hp as [Hab Hp]. apply andb_true_iff in Hq as [Hac Hq].
  apply Ascii.eqb_eq in Hab, Hac. subst. rewrite Ascii.eqb_refl. simpl.
  apply (IH s); trivial. lia.
Qed.

(** Of two suffixes of one string, the shorter is a suffix of the longer. *)
Lemma suffix_of_suffix (s p q : str) :
  endswith s p = true -> endswith s q = true -> length p <= length q ->
  endswith q p = true.
Proof.
  unfold endswith. intros Hp Hq Hlen.
  apply (prefix_of_prefix (rev p) (rev s)); trivial.
  now rewrite !length_rev.
Qed.

(** No label is a suffix of another. *)
Lemma labels_apart (p q : str) :
  In p KNOWN_CATEGORIES -> In q KNOWN_CATEGORIES -> endswith q p = true ->
  p = q.
Proof.
  assert (H : forallb (fun p => forallb (fun q =>
                implb (endswith q p) (str_eqb p q)) KNOWN_CATEGORIES)
              KNOWN_CATEGORIES = true) by (vm_compute; reflexivity).
  rewrite forallb_forall in H. intros Hp Hq E.
  specialize (H p Hp). rewrite forallb_forall in H. specialize (H q Hq).
  rewrite E in H. simpl in H. now apply str_eqb_eq.
Qed.

(** At most one label ends a string. *)
Lemma label_unique (s p q : str) :
  In p KNOWN_CATEGORIES -> In q KNOWN_CATEGORIES ->
  endswith s p = true -> endswith s q = true -> p = q.
Proof.
  intros Hp Hq Ep Eq. destruct (Nat.le_ge_cases (length p) (length q)).
  - apply labels_apart; trivial. now apply (suffix_of_suffix s).
  - symmetry. apply labels_apart; trivial. now apply (suffix_of_suffix s).
Qed.

(** A body whose normal form ends with a label gives that label and the
    rest, trimmed on the right. *)
Lemma find_category_label (body cat : str) :
  In cat KNOWN_CATEGORIES -> endswith (squeeze body) cat = true ->
  _find_category_and_desc body =
    (cat, rstrip (drop_last (length cat) (squeeze body))).
Proof.
  intros Hin Hend. unfold _find_category_and_desc.
  destruct (first_suffix (squeeze body) KNOWN_CATEGORIES_SORTED) as [c|] eqn:E.
  - apply first_suffix_Some in E as [Hc Ec]. apply known_sorted_In in Hc.
    now rewrite (label_unique (squeeze body) c cat Hc Hin Ec Hend).
  - rewrite first_suffix_None in E. rewrite E in Hend; [discriminate|].
    now apply known_sorted_In.
Qed.

(** A body whose normal form ends with no label gives no category and its
    normal form. *)
Lemma find_category_none (body : str) :
  (forall cat, In cat KNOWN_CATEGORIES -> endswith (squeeze body) cat = false) ->
  _find_category_and_desc body = ([], squeeze body).
Proof.
  intros H. unfold _find_category_and_desc.
  replace (first_suffix (squeeze body) KNOWN_CATEGORIES_SORTED) with (@None str);
    [reflexivity|].
  symmetry. apply first_suffix_None. intros cat Hc. apply H.
  now apply known_sorted_In.
Qed.

(** What [rstrip] cuts off is whitespace. *)
Lemma lstrip_split (s : str) :
  exists gap, s = gap ++ lstrip s /\ forallb isspace gap = true.
Proof.
  induction s as [|a s (gap & E & Hgap)]; simpl.
  - now exists [].
  - destruct (isspace a) eqn:Ha.
    + exists (a :: gap). simpl. rewrite Ha, Hgap. split; [now f_equal|reflexivity].
    + now exists [].
Qed.

Lemma rstrip_split (s : str) :
  exists gap, s = rstrip s ++ gap /\ forallb isspace gap = true.
Proof.
  unfold rstrip. destruct (lstrip_split (rev s)) as (gap & E & Hgap).
  exists (rev gap). split.
  - rewrite <- rev_app_distr, <- E. now rewrite rev_involutive.
  - now rewrite forallb_rev.
Qed.

(** The description and the category of a labelled body are apart: the
    normal form of the body is the description, whitespace, and the label. *)
Lemma find_category_apart (body cat desc : str) :
  _find_category_and_desc body = (cat, desc) -> cat <> [] ->
  In cat KNOWN_CATEGORIES /\
  exists gap, squeeze body = desc ++ gap ++ cat /\ forallb isspace gap = true.
Proof.
  unfold _find_category_and_desc.
  destruct (first_suffix (squeeze body) KNOWN_CATEGORIES_SORTED) as [c|] eqn:E.
  - intros [= <- <-] _. apply first_suffix_Some in E as [Hc Ec].
    split; [now apply known_sorted_In|].
    destruct (rstrip_split (drop_last (length c) (squeeze body))) as (gap & Eg & Hg).
    exists gap. split; [|exact Hg].
    rewrite app_assoc, <- Eg. now apply endswith_drop_last.
  - intros [= <- _]. congruence.
Qed.

End CategoryFacts.

(** ** Splitting a string of known tokens *)

Module SplitFacts.
Import Py PySpec PyFacts RowSpec.

Lemma split_from_word (w : str) : forall cur s,
  nospace w -> split_from cur (w ++ s) = split_from (rev w ++ cur) s.
Proof.
  induction w as [|a w IH]; intros cur s H; [reflexivity|].
  unfold nospace in H. simpl in H. apply andb_true_iff in H as [Ha H].
  apply negb_true_iff in Ha. simpl. rewrite Ha, IH by exact H.
  now rewrite <- app_assoc.
Qed.

Lemma split_from_gap (ws : str) : forall s,
  forallb isspace ws = true -> split_from [] (ws ++ s) = split_from [] s.
Proof.
  induction ws as [|a ws IH]; intros s H; [reflexivity|].
  simpl in H. apply andb_true_iff in H as [Ha H]. simpl. rewrite Ha.
  now apply IH.
Qed.

Lemma split_from_spaces (ws : str) (cur s : str) :
  spaces ws -> cur <> [] ->
  split_from cur (ws ++ s) = rev cur :: split_from [] s.
Proof.
  intros [Hne Hws] Hcur. destruct ws as [|a ws]; [congruence|].
  simpl in Hws. apply andb_true_iff in Hws as [Ha Hws]. simpl. rewrite Ha.
  destruct cur; [congruence|]. f_equal. now apply split_from_gap.
Qed.

Lemma split_from_end (w : str) :
  nospace w -> w <> [] -> split_from [] w = [w].
Proof.
  intros H Hne. rewrite <- (app_nil_r w) at 1.
  rewrite split_from_word by exact H. simpl. rewrite app_nil_r.
  destruct (rev w) eqn:E.
  - apply (f_equal (@rev _)) in E. rewrite rev_involutive in E. now subst.
  - rewrite <- E. now rewrite rev_involutive.
Qed.

(** A word, whitespace and more text: the word is the first token. *)
Lemma split_word_spaces (w ws s : str) :
  nospace w -> w <> [] -> spaces ws ->
  split (w ++ ws ++ s) = w :: split s.
Proof.
  intros Hw Hne Hws. unfold split.
  rewrite split_from_word by exact Hw. rewrite app_nil_r.
  rewrite split_from_spaces; trivial.
  - now rewrite rev_involutive.
  - intros E. apply (f_equal (@rev _)) in E. rewrite rev_involutive in E.
    now subst.
Qed.

Lemma digits_nospace (s : str) : forallb isdigit s = true -> nospace s.
Proof.
  unfold nospace. intros H. rewrite forallb_forall in *. intros a Ha.
  specialize (H a Ha).
  destruct a as [[] [] [] [] [] [] [] []]; try discriminate; reflexivity.
Qed.

Lemma month_nospace (mon : string) :
  In mon months -> nospace (lit mon) /\ lit mon <> [].
Proof.
  intros H. simpl in H.
  repeat (destruct H as [<- | H]; [split; [reflexivity|discriminate]|]).
  destruct H.
Qed.

Lemma nospace_app (s t : str) : nospace s -> nospace t -> nospace (s ++ t).
Proof. unfold nospace. intros Hs Ht. now rewrite forallb_app, Hs, Ht. Qed.

Lemma digit_or_comma_nospace (s : str) :
  forallb digit_or_comma s = true -> nospace s.
Proof.
  unfold nospace. intros H. rewrite forallb_forall in *. intros a Ha.
  specialize (H a Ha). unfold digit_or_comma in H.
  destruct a as [[] [] [] [] [] [] [] []]; try discriminate; reflexivity.
Qed.

(** An amount is one token: it holds no whitespace. *)
Lemma amount_nospace (amt : str) : amount_token amt -> nospace amt.
Proof.
  intros (sign & d & ds & point & frac & -> & Hs & Hd & Hds & Hp & Hf & _).
  repeat apply nospace_app.
  - destruct Hs as [-> | ->]; reflexivity.
  - apply digits_nospace. simpl. now rewrite Hd.
  - now apply digit_or_comma_nospace.
  - destruct Hp as [-> | ->]; reflexivity.
  - now apply digits_nospace.
Qed.

Lemma one_space : spaces (lit " ").
Proof. split; [discriminate|reflexivity]. Qed.

End SplitFacts.

(** ** Dates *)

Module DateFacts.
Import Py PySpec PyFacts RowSpec SplitFacts Calendar.

Lemma year_tokens_ok :
  forallb (fun n => year_token_ok (Z.of_nat n)) (seq 1000 (90 * 100)) = true.
Proof. vm_compute. reflexivity. Qed.

(** A four-digit year prints as four digits that read back as the year. *)
Lemma year_token (year : Z) :
  four_digit year ->
  Num.nat_literal (Num.to_str year) = Some year /\
  forallb isdigit (Num.to_str year) = true /\
  length (Num.to_str year) = 4.
Proof.
  intros [Hlo Hhi]. pose proof year_tokens_ok as H.
  rewrite forallb_forall in H. specialize (H (Z.to_nat year)).
  rewrite Z2Nat.id in H by lia.
  assert (Hin : In (Z.to_nat year) (seq 1000 (90 * 100))) by (apply in_seq; lia).
  specialize (H Hin). unfold year_token_ok in H.
  apply andb_true_iff in H as [H H3]. apply andb_true_iff in H as [H1 H2].
  apply Nat.eqb_eq in H3.
  destruct (Num.nat_literal (Num.to_str year)) as [n|]; [|discriminate].
  apply Z.eqb_eq in H1. subst n. repeat split; assumption.
Qed.

Lemma month_number (mon : string) :
  In mon months -> exists m, strptime_b (lit mon) = Some m /\ (1 <= m <= 12)%Z.
Proof.
  intros H. simpl in H.
  repeat (destruct H as [<- | H];
          [eexists; split; [vm_compute; reflexivity | lia]|]).
  destruct H.
Qed.

Lemma strptime_b_range (s : str) (m : Z) :
  strptime_b s = Some m -> (1 <= m <= 12)%Z.
Proof.
  unfold strptime_b, month_names. cbn [index_of].
  repeat (destruct (str_eqb (lower s) _); [intros [= <-]; lia|]).
  discriminate.
Qed.

(** The tokens of a date and a year. *)
Lemma split_date_year (mon : string) (ws day : str) (year : Z) :
  In mon months -> spaces ws -> forallb isdigit day = true -> day <> [] ->
  four_digit year ->
  split ((lit mon ++ ws ++ day) ++ " " ++ Num.to_str year)
    = [lit mon; day; Num.to_str year] /\
  split (lit mon ++ ws ++ day) = [lit mon; day].
Proof.
  intros Hmon Hws Hday Hne Hy.
  destruct (month_nospace mon Hmon) as [Hm Hmne].
  destruct (year_token year Hy) as (_ & Hyd & Hyl).
  assert (Hyne : Num.to_str year <> [])
    by (intros E; rewrite E in Hyl; discriminate).
  split.
  - rewrite <- !app_assoc.
    rewrite split_word_spaces by assumption.
    rewrite split_word_spaces
      by (try apply digits_nospace; try apply one_space; assumption).
    unfold split. rewrite split_from_end; trivial. now apply digits_nospace.
  - rewrite split_word_spaces by assumption.
    unfold split. rewrite split_from_end; trivial. now apply digits_nospace.
Qed.

Lemma int_digits (day : str) :
  forallb isdigit day = true -> Num.int day = Num.nat_literal day.
Proof.
  destruct day as [|a day]; [reflexivity|]. intros H. simpl in H.
  apply andb_true_iff in H as [Ha _]. unfold Num.int.
  rewrite (AmountFacts.isdigit_not "-"%char a Ha eq_refl).
  now rewrite (AmountFacts.isdigit_not "+"%char a Ha eq_refl).
Qed.

Lemma mk_datetime_ok (y m d : Z) :
  four_digit y -> (1 <= m <= 12)%Z -> (1 <= d <= monthrange y m)%Z ->
  mk_datetime y m d = Ok {| dt_year := y; dt_month := m; dt_day := d |}.
Proof.
  intros [? ?] [? ?] [? ?]. unfold mk_datetime.
  replace ((1 <=? y)%Z && (y <=? 9999)%Z) with true
    by (symmetry; apply andb_true_iff; split; apply Z.leb_le; lia).
  replace ((1 <=? m)%Z && (m <=? 12)%Z) with true
    by (symmetry; apply andb_true_iff; split; apply Z.leb_le; lia).
  replace ((1 <=? d)%Z && (d <=? monthrange y m)%Z) with true
    by (symmetry; apply andb_true_iff; split; apply Z.leb_le; lia).
  reflexivity.
Qed.

Lemma mk_datetime_bad_day (y m d : Z) :
  four_digit y -> (1 <= m <= 12)%Z -> ~ (1 <= d <= monthrange y m)%Z ->
  mk_datetime y m d = Raise (ValueError DAY_OUT_OF_RANGE).
Proof.
  intros [? ?] [? ?] Hd. unfold mk_datetime.
  replace ((1 <=? y)%Z && (y <=? 9999)%Z) with true
    by (symmetry; apply andb_true_iff; split; apply Z.leb_le; lia).
  replace ((1 <=? m)%Z && (m <=? 12)%Z) with true
    by (symmetry; apply andb_true_iff; split; apply Z.leb_le; lia).
  replace ((1 <=? d)%Z && (d <=? monthrange y m)%Z) with false; [reflexivity|].
  symmetry. apply andb_false_iff.
  destruct (Z.leb_spec 1 d); [right | now left].
  apply Z.leb_gt. lia.
Qed.

Lemma monthrange_pos (y m : Z) : (28 <= monthrange y m <= 31)%Z.
Proof.
  unfold monthrange.
  destruct (m =? 2)%Z; [destruct (isleap y); lia|].
  destruct ((m =? 4)%Z || (m =? 6)%Z || (m =? 9)%Z || (m =? 11)%Z); lia.
Qed.

(** What dateutil makes of a date token and a four-digit year. *)
Lemma parse_date_year (mon : string) (ws day : str) (m d year : Z) :
  In mon months -> spaces ws -> forallb isdigit day = true ->
  length day <= 2 ->
  strptime_b (lit mon) = Some m -> Num.nat_literal day = Some d ->
  four_digit year ->
  Dateutil.parse ((lit mon ++ ws ++ day) ++ " " ++ Num.to_str year) =
    match mk_datetime year m d with
    | Ok dt => Ok dt
    | Raise e =>
        Raise (ParserError (exn_str e)
                 ((lit mon ++ ws ++ day) ++ " " ++ Num.to_str year))
    end.
Proof.
  intros Hmon Hws Hday Hlen Hm Hd Hy.
  assert (Hne : day <> []) by (intros ->; discriminate).
  unfold Dateutil.parse.
  destruct (split_date_year mon ws day year Hmon Hws Hday Hne Hy) as [-> _].
  destruct (year_token year Hy) as (-> & _ & ->).
  rewrite Hm, Hd. apply Nat.leb_le in Hlen. rewrite Hlen. reflexivity.
Qed.

(** A day the month has comes back as it is; a day past the end of the
    month comes back as the last day of the month. *)
Lemma normalize_date_spec (mon : string) (ws day : str) (m d year : Z) :
  In mon months -> spaces ws -> forallb isdigit day = true ->
  length day <= 2 ->
  strptime_b (lit mon) = Some m -> Num.nat_literal day = Some d ->
  four_digit year ->
  ((1 <= d <= monthrange year m)%Z ->
   _normalize_date (lit mon ++ ws ++ day) year =
     Ok {| dt_year := year; dt_month := m; dt_day := d |}) /\
  ((monthrange year m < d)%Z ->
   _normalize_date (lit mon ++ ws ++ day) year =
     Ok {| dt_year := year; dt_month := m; dt_day := monthrange year m |}).
Proof.
  intros Hmon Hws Hday Hlen Hm Hd Hy.
  assert (Hne : day <> []) by (intros ->; discriminate).
  pose proof (strptime_b_range _ _ Hm) as Hmr.
  pose proof (monthrange_pos year m) as Hdim.
  unfold _normalize_date.
  rewrite (parse_date_year mon ws day m d year) by assumption.
  split; intros Hrange.
  - now rewrite mk_datetime_ok.
  - rewrite mk_datetime_bad_day by (trivial; lia).
    cbn [exn_str].
    replace (contains (DAY_OUT_OF_RANGE ++ ": " ++ _) DAY_OUT_OF_RANGE) with true
      by (symmetry; apply contains_iff; exists []; eexists; reflexivity).
    destruct (split_date_year mon ws day year Hmon Hws Hday Hne Hy) as [_ ->].
    rewrite Hm, int_digits, Hd by assumption. cbv zeta.
    rewrite Z.min_r by lia. rewrite mk_datetime_ok; trivial. lia.
Qed.

(** A failure of dateutil that is not about the day of the month goes
    through [_normalize_date] as it is. *)
Lemma normalize_date_other_error (dstr : str) (year : Z) (e : exn) :
  Dateutil.parse (dstr ++ " " ++ Num.to_str year) = Raise e ->
  contains (exn_str e) DAY_OUT_OF_RANGE = false ->
  _normalize_date dstr year = Raise e.
Proof. intros H1 H2. unfold _normalize_date. now rewrite H1, H2. Qed.

(** Whatever [_normalize_date] raises is the error of dateutil, with the
    string it was given. *)
Lemma normalize_date_raises (dstr : str) (year : Z) (e : exn) :
  _normalize_date dstr year = Raise e ->
  Dateutil.parse (dstr ++ " " ++ Num.to_str year) = Raise e /\
  exists msg, e = ParserError msg (dstr ++ " " ++ Num.to_str year).
Proof.
  unfold _normalize_date.
  destruct (Dateutil.parse (dstr ++ " " ++ Num.to_str year)) as [dt|e0] eqn:E;
    [discriminate|].
  assert (He0 : exists msg, e0 = ParserError msg (dstr ++ " " ++ Num.to_str year)).
  { revert E. unfold Dateutil.parse.
    repeat match goal with
           | |- context [match ?x with _ => _ end] => destruct x
           end;
    intros [= <-]; eexists; reflexivity. }
  assert (H : @Raise datetime e0 = Raise e -> @Raise datetime e0 = Raise e /\
              exists msg, e = ParserError msg (dstr ++ " " ++ Num.to_str year))
    by (intros [= <-]; split; [reflexivity | exact He0]).
  destruct (contains (exn_str e0) DAY_OUT_OF_RANGE); [|exact H].
  repeat match goal with
         | |- context [match ?x with _ => _ end] => destruct x
         end; try exact H; discriminate.
Qed.

End DateFacts.

(** ** Provinces and cities *)

Module LocationFacts.
Import Py PySpec PyFacts CityFacts.

Lemma detect_glued_none (U : str) (provs : list string) :
  fst (fst (detect_glued U provs)) = None ->
  detect_glued U provs = (None, [], []).
Proof.
  induction provs as [|prov provs IH]; cbn [detect_glued]; [reflexivity|].
  cbv zeta. destruct (endswith U prov); [|exact IH].
  match goal with |- context [glued_city ?b ?c] => destruct (glued_city b c) end;
    [discriminate | exact IH].
Qed.

(** No strategy finds a province: the location is empty. *)
Lemma no_province_no_location (desc : str) :
  let U := strip (upper desc) in
  space_province U = None -> hyphen_province U = None ->
  domain_province U = None -> fst (fst (glued_province U)) = None ->
  _extract_location desc = ([], [], []).
Proof.
  intros U H1 H2 H3 H4. unfold _extract_location, _detect_province_suffix.
  fold U. rewrite H1, H2, H3. unfold glued_province in *.
  now rewrite (detect_glued_none _ _ H4).
Qed.

Lemma domain_mode (U : str) (m : Re.mobj) :
  space_province U = None -> hyphen_province U = None ->
  domain_province U = Some m ->
  _detect_province_suffix U = (Some m, Re.group "1" (Re.m_caps m), lit "domain").
Proof. intros H1 H2 H3. unfold _detect_province_suffix. now rewrite H1, H2, H3. Qed.

Lemma halifax_listed : In (lit "HALIFAX") CITY_PATTERNS_SORTED.
Proof. vm_compute. tauto. Qed.

Lemma truthy_has_word (c : str) : has_word c = true -> truthy c = true.
Proof. destruct c; [discriminate|reflexivity]. Qed.

(** In the domain mode the city is the first gazetteer name found in the
    text before the province, and there is no city when there is none. *)
Lemma domain_candidate (tail_alpha prov : str) :
  candidate_city tail_alpha prov "domain" =
    match scan_city tail_alpha CITY_PATTERNS_SORTED with
    | Some pat => pat
    | None => []
    end.
Proof.
  unfold candidate_city, token_city.
  change (str_eqb "domain" "domain") with true. cbv iota.
  change (unusable []) with true. cbv iota.
  destruct (scan_city tail_alpha CITY_PATTERNS_SORTED) as [pat|] eqn:E.
  - apply scan_city_Some in E as [Hin _].
    rewrite (truthy_has_word _ (cities_have_word _ Hin)). reflexivity.
  - rewrite scan_city_None in E. rewrite (E _ halifax_listed).
    now rewrite andb_false_r.
Qed.

Lemma domain_location (desc : str) (m : Re.mobj) :
  let U := strip (upper desc) in
  let prov := Re.group "1" (Re.m_caps m) in
  space_province U = None -> hyphen_province U = None ->
  domain_province U = Some m ->
  _extract_location desc =
    match scan_city (tail_alpha_of U m) CITY_PATTERNS_SORTED with
    | Some pat => (_normalize_city pat ++ " " ++ prov, _normalize_city pat, prov)
    | None => ([], [], prov)
    end.
Proof.
  intros U prov H1 H2 H3. unfold _extract_location. fold U.
  rewrite (domain_mode U m H1 H2 H3). fold prov.
  rewrite domain_candidate.
  destruct (scan_city (tail_alpha_of U m) CITY_PATTERNS_SORTED) as [pat|] eqn:E.
  - apply scan_city_Some in E as [Hin _].
    rewrite (truthy_has_word _ (cities_have_word _ Hin)).
    now rewrite (cities_not_stopped _ Hin).
  - reflexivity.
Qed.

Lemma cities_around_halifax :
  exists rest, CITY_PATTERNS_SORTED = ahead_of_halifax ++ lit "HALIFAX" :: rest.
Proof. eexists. vm_compute. reflexivity. Qed.

Lemma scan_city_app (tail_alpha : str) (l1 l2 : list str) :
  (forall pat, In pat l1 -> contains tail_alpha pat = false) ->
  scan_city tail_alpha (l1 ++ l2) = scan_city tail_alpha l2.
Proof.
  induction l1 as [|p l1 IH]; intros H; [reflexivity|].
  simpl. rewrite (H p) by now left. apply IH. intros pat Hin. apply H.
  now right.
Qed.

Lemma scan_city_halifax (tail_alpha : str) :
  contains tail_alpha "HALIFAX" = true ->
  (forall pat, In pat ahead_of_halifax -> contains tail_alpha pat = false) ->
  scan_city tail_alpha CITY_PATTERNS_SORTED = Some (lit "HALIFAX").
Proof.
  intros Hh Hahead. destruct cities_around_halifax as [rest ->].
  rewrite scan_city_app by exact Hahead. cbn [scan_city]. now rewrite Hh.
Qed.

Lemma unusable_false (c : str) :
  unusable c = false -> truthy c = true /\ mem c STOP = false.
Proof.
  unfold unusable. intros H. apply orb_false_iff in H as [H1 H2].
  apply negb_false_iff in H1. now split.
Qed.

(** With a usable city from the tokens, that city stands. *)
Lemma candidate_usable (tail_alpha prov mode : str) :
  unusable (token_city tail_alpha mode) = false ->
  candidate_city tail_alpha prov mode = token_city tail_alpha mode.
Proof.
  intros H. unfold candidate_city. rewrite H.
  apply unusable_false in H as [-> _]. reflexivity.
Qed.

(** Without one, the first gazetteer name in the text stands. *)
Lemma candidate_scanned (tail_alpha prov mode pat : str) :
  unusable (token_city tail_alpha mode) = true ->
  scan_city tail_alpha CITY_PATTERNS_SORTED = Some pat ->
  candidate_city tail_alpha prov mode = pat.
Proof.
  intros H E. unfold candidate_city. rewrite H, E.
  apply scan_city_Some in E as [Hin _].
  now rewrite (truthy_has_word _ (cities_have_word _ Hin)).
Qed.

Lemma located (desc : str) (m : Re.mobj) (prov mode : str) :
  let U := strip (upper desc) in
  let c := candidate_city (tail_alpha_of U m) prov mode in
  _detect_province_suffix U = (Some m, prov, mode) ->
  truthy c = true -> mem c STOP = false ->
  _extract_location desc = (_normalize_city c ++ " " ++ prov, _normalize_city c, prov).
Proof.
  intros U c Hd Ht Hs. unfold _extract_location. fold U. rewrite Hd. fold c.
  now rewrite Ht, Hs.
Qed.

(** Province NS with HALIFAX in the text before it. *)
Lemma halifax_location (desc : str) (m : Re.mobj) (mode : str) :
  let U := strip (upper desc) in
  let tail_alpha := tail_alpha_of U m in
  let c0 := token_city tail_alpha mode in
  _detect_province_suffix U = (Some m, lit "NS", mode) ->
  contains tail_alpha "HALIFAX" = true ->
  (unusable c0 = false ->
   _extract_location desc = (_normalize_city c0 ++ " NS", _normalize_city c0, lit "NS"))
  /\
  (unusable c0 = true ->
   (forall pat, In pat ahead_of_halifax -> contains tail_alpha pat = false) ->
   _extract_location desc = (lit "Halifax NS", lit "Halifax", lit "NS")).
Proof.
  intros U tail_alpha c0 Hd Hh. split.
  - intros Hu. pose proof (candidate_usable tail_alpha "NS" mode Hu) as Hc.
    apply unusable_false in Hu as [Ht Hs].
    rewrite (located desc m "NS" mode Hd); fold U; fold tail_alpha; rewrite Hc;
      trivial.
  - intros Hu Hahead.
    pose proof (candidate_scanned tail_alpha "NS" mode "HALIFAX" Hu
                  (scan_city_halifax tail_alpha Hh Hahead)) as Hc.
    rewrite (located desc m "NS" mode Hd); fold U; fold tail_alpha; rewrite Hc;
      reflexivity.
Qed.

End LocationFacts.

(** ** The scan of a statement *)

Module StatementFacts.
Import Py PySpec PyFacts Re RowSpec RowFacts ScanFacts.

Lemma total_not_header (line : str) :
  startswith line PAYMENTS_TOTAL_PREFIX = true ->
  startswith line PAYMENTS_START = false /\
  startswith line CHARGES_START = false.
Proof.
  intros H. apply startswith_inv in H. rewrite H. split; reflexivity.
Qed.

Lemma charges_not_payments (line : str) :
  startswith line CHARGES_START = true ->
  startswith line PAYMENTS_START = false.
Proof. intros H. apply startswith_inv in H. rewrite H. reflexivity. Qed.

Lemma scan_line_payments_header (year : Z) (st : scan_state) (raw_line : str) :
  startswith (squeeze raw_line) PAYMENTS_START = true ->
  scan_line year st raw_line = Ok (set_section true false st).
Proof. intros H. unfold scan_line. now rewrite H. Qed.

Lemma scan_line_charges_header (year : Z) (st : scan_state) (raw_line : str) :
  startswith (squeeze raw_line) CHARGES_START = true ->
  scan_line year st raw_line = Ok (set_section false true st).
Proof.
  intros H. unfold scan_line. now rewrite (charges_not_payments _ H), H.
Qed.

Lemma scan_line_total (year : Z) (st : scan_state) (raw_line : str) :
  in_payments st = true ->
  startswith (squeeze raw_line) PAYMENTS_TOTAL_PREFIX = true ->
  scan_line year st raw_line = Ok (set_section false (in_charges st) st).
Proof.
  intros Hp H. unfold scan_line.
  destruct (total_not_header _ H) as [-> ->]. now rewrite Hp, H.
Qed.

Lemma group_row_caps (td pd body amt : str) :
  group "tdate" (row_caps td pd body amt) = td /\
  group "pdate" (row_caps td pd body amt) = pd /\
  group "body" (row_caps td pd body amt) = body /\
  group "amount" (row_caps td pd body amt) = amt.
Proof. repeat split. Qed.

(** The rows of a matched line, when its dates normalise. *)
Lemma scan_row_ok (year : Z) (st : scan_state) (m : mobj) (d1 d2 : datetime)
    (line : str) :
  rematch ROW_RE line = Some m ->
  _normalize_date (group "tdate" (m_caps m)) year = Ok d1 ->
  _normalize_date (group "pdate" (m_caps m)) year = Ok d2 ->
  exists amount,
    scan_row year st m =
      if in_payments st then
        Ok (append_payment st
              (payment_row d1 d2 (group "body" (m_caps m)) amount))
      else if in_charges st then
        Ok (append_txn st
              (transaction_row d1 d2 (group "body" (m_caps m)) amount))
      else Ok st.
Proof.
  intros Hm H1 H2.
  apply row_match_inv in Hm
    as (td & pd & body & tail & amt & (ws1 & ws2 & _ & _ & _ & _ & _ & _ & Htail) & Hc & _).
  destruct Htail as (ws & e & _ & _ & Hamt & _).
  destruct (scan_row_parts year st m td pd body amt Hc Hamt) as (q & _ & ->).
  rewrite Hc in *. destruct (group_row_caps td pd body amt) as (Et & Ep & Eb & _).
  rewrite Et in H1. rewrite Ep in H2. rewrite Eb, H1, H2. now exists q.
Qed.

(** A row raises only what the normalisation of one of its dates raises. *)
Lemma scan_row_raise (year : Z) (st : scan_state) (m : mobj) (line : str) (e : exn) :
  rematch ROW_RE line = Some m ->
  scan_row year st m = Raise e ->
  _normalize_date (group "tdate" (m_caps m)) year = Raise e \/
  _normalize_date (group "pdate" (m_caps m)) year = Raise e.
Proof.
  intros Hm H.
  destruct (_normalize_date (group "tdate" (m_caps m)) year) as [d1|e1] eqn:E1.
  - destruct (_normalize_date (group "pdate" (m_caps m)) year) as [d2|e2] eqn:E2.
    + destruct (scan_row_ok year st m d1 d2 line Hm E1 E2) as [q Hq].
      rewrite Hq in H. destruct (in_payments st), (in_charges st); discriminate.
    + right. unfold scan_row in H. rewrite E1, E2 in H. simpl in H.
      now injection H as ->.
  - left. unfold scan_row in H. rewrite E1 in H. simpl in H.
    now injection H as ->.
Qed.

(** The error of a date of a matched row is the error of the row: nothing
    catches it on the way. *)
Lemma scan_row_date_error (year : Z) (st : scan_state) (m : mobj) (e : exn) :
  _normalize_date (group "tdate" (m_caps m)) year = Raise e \/
  (exists d, _normalize_date (group "tdate" (m_caps m)) year = Ok d) /\
  _normalize_date (group "pdate" (m_caps m)) year = Raise e ->
  scan_row year st m = Raise e.
Proof.
  unfold scan_row. intros [H | [[d Hd] H]].
  - now rewrite H.
  - now rewrite Hd, H.
Qed.

Lemma scan_line_raise (year : Z) (st : scan_state) (raw_line : str) (e : exn) :
  scan_line year st raw_line = Raise e ->
  exists m, rematch ROW_RE (squeeze raw_line) = Some m /\
            scan_row year st m = Raise e.
Proof.
  intros H. pose proof (scan_line_effect year st raw_line) as Heff.
  rewrite H in Heff. inversion Heff as [| | | |m Hm Hrow].
  exists m. now split.
Qed.

Lemma scan_lines_app (year : Z) (l1 l2 : list str) : forall st,
  scan_lines year st (l1 ++ l2) =
    (st' <- scan_lines year st l1 ;; scan_lines year st' l2).
Proof.
  induction l1 as [|l l1 IH]; intros st; simpl; [reflexivity|].
  destruct (scan_line year st l); simpl; [apply IH | reflexivity].
Qed.

Lemma scan_lines_raise (year : Z) (lines : list str) (e : exn) : forall st,
  scan_lines year st lines = Raise e ->
  exists raw_line st' m,
    In raw_line lines /\ rematch ROW_RE (squeeze raw_line) = Some m /\
    scan_row year st' m = Raise e.
Proof.
  induction lines as [|l lines IH]; intros st H; simpl in H; [discriminate|].
  destruct (scan_line year st l) as [st1|e1] eqn:E; simpl in H.
  - apply IH in H as (r & st' & m & Hin & Hm & Hr).
    exists r, st', m. repeat split; trivial. now right.
  - injection H as ->. apply scan_line_raise in E as (m & Hm & Hr).
    exists l, st, m. repeat split; trivial. now left.
Qed.

Lemma scan_pages_raise (year : Z) (pages : list str) (e : exn) : forall st,
  scan_pages year st pages = Raise e ->
  exists page raw_line st' m,
    In page pages /\ In raw_line (splitlines page) /\
    rematch ROW_RE (squeeze raw_line) = Some m /\
    scan_row year st' m = Raise e.
Proof.
  induction pages as [|p pages IH]; intros st H; simpl in H; [discriminate|].
  destruct (scan_lines year st (splitlines p)) as [st1|e1] eqn:E; simpl in H.
  - apply IH in H as (pg & r & st' & m & Hin & Hr & Hm & Hrow).
    exists pg, r, st', m. repeat split; trivial. now right.
  - injection H as ->. apply scan_lines_raise in E as (r & st' & m & Hr & Hm & Hrow).
    exists p, r, st', m. repeat split; trivial. now left.
Qed.

(** A statement fails only on a date of a line the row grammar matched. *)
Lemma parse_pages_raise (now_year : Z) (pages : list str) (e : exn) :
  _parse_pages_text now_year pages = Raise e ->
  exists page raw_line m,
    In page pages /\ In raw_line (splitlines page) /\
    rematch ROW_RE (squeeze raw_line) = Some m /\
    let year := _extract_year now_year pages in
    (_normalize_date (group "tdate" (m_caps m)) year = Raise e \/
     _normalize_date (group "pdate" (m_caps m)) year = Raise e).
Proof.
  unfold _parse_pages_text. intros H.
  destruct (scan_pages (_extract_year now_year pages) initial_state pages)
    as [st|e0] eqn:E; simpl in H; [discriminate|].
  injection H as ->.
  apply scan_pages_raise in E as (pg & r & st' & m & Hin & Hr & Hm & Hrow).
  exists pg, r, m. repeat split; trivial.
  now apply (scan_row_raise _ st' m (squeeze r)).
Qed.

(** The first line that raises ends the scan with its error. *)
Lemma scan_lines_first_error (year : Z) (st st1 : scan_state)
    (before after : list str) (raw_line : str) (e : exn) :
  scan_lines year st before = Ok st1 ->
  scan_line year st1 raw_line = Raise e ->
  scan_lines year st (before ++ raw_line :: after) = Raise e.
Proof.
  intros H1 H2. rewrite scan_lines_app, H1. simpl. now rewrite H2.
Qed.

Lemma scan_pages_first_error (year : Z) (page : str) (e : exn) : forall st rest,
  scan_lines year st (splitlines page) = Raise e ->
  scan_pages year st (page :: rest) = Raise e.
Proof. intros st rest H. simpl. now rewrite H. Qed.

(** Outside the sections a line that opens none leaves the state alone, or
    a date of a matched row raises. *)
Lemma scan_line_quiet (year : Z) (st : scan_state) (raw_line : str) :
  in_payments st = false -> in_charges st = false ->
  is_header raw_line = false ->
  scan_line year st raw_line = Ok st \/
  exists m e, rematch ROW_RE (squeeze raw_line) = Some m /\
              scan_row year st m = Raise e /\
              scan_line year st raw_line = Raise e.
Proof.
  intros Hp Hc Hh. apply orb_false_iff in Hh as [Hh1 Hh2].
  pose proof (scan_line_effect year st raw_line) as Heff.
  inversion Heff as [H1 E|H1 H2 E|H1 H2 E|H1 H2 H3 E|m Hm E]; try congruence.
  - now left.
  - destruct (scan_row year st m) as [st'|e] eqn:Er.
    + left. f_equal.
      destruct (_normalize_date (group "tdate" (m_caps m)) year) as [d1|e1] eqn:E1;
        [|unfold scan_row in Er; rewrite E1 in Er; discriminate].
      destruct (_normalize_date (group "pdate" (m_caps m)) year) as [d2|e2] eqn:E2;
        [|unfold scan_row in Er; rewrite E1, E2 in Er; discriminate].
      destruct (scan_row_ok year st m d1 d2 _ Hm E1 E2) as [q Hq].
      rewrite Hq, Hp, Hc in Er. congruence.
    + right. exists m, e. repeat split; trivial.
Qed.

Lemma scan_lines_quiet (year : Z) (st : scan_state) (lines : list str) :
  in_payments st = false -> in_charges st = false ->
  (forall l, In l lines -> is_header l = false) ->
  match scan_lines year st lines with
  | Ok st' => st' = st
  | Raise e =>
      exists l m, In l lines /\ rematch ROW_RE (squeeze l) = Some m /\
                  scan_row year st m = Raise e
  end.
Proof.
  intros Hp Hc. induction lines as [|l lines IH]; intros Hh; simpl;
    [reflexivity|].
  destruct (scan_line_quiet year st l Hp Hc (Hh l (or_introl eq_refl)))
    as [-> | (m & e & Hm & Hr & ->)]; simpl.
  - assert (Hh' : forall l0, In l0 lines -> is_header l0 = false)
      by (intros l0 H0; apply Hh; now right).
    specialize (IH Hh'). destruct (scan_lines year st lines); [exact IH|].
    destruct IH as (l0 & m0 & Hin & Hm0 & Hr0).
    exists l0, m0. repeat split; trivial. now right.
  - exists l, m. repeat split; trivial. now left.
Qed.

(** The rows a scan adds have the shape [P] when every row has it. *)
Lemma scan_line_txns (P : TransactionRow.t -> Prop) (year : Z)
    (st st' : scan_state) (raw_line : str) :
  (forall d1 d2 body q, P (transaction_row d1 d2 body q)) ->
  Forall P (txns st) -> scan_line year st raw_line = Ok st' ->
  Forall P (txns st').
Proof.
  intros HP Hst H. pose proof (scan_line_effect year st raw_line) as Heff.
  rewrite H in Heff.
  inversion Heff as [H1 E|H1 H2 E|H1 H2 E|H1 H2 H3 E|m Hm E]; subst; trivial.
  symmetry in E. unfold scan_row in E.
  destruct (_normalize_date (group "tdate" (m_caps m)) year); [|discriminate].
  destruct (_normalize_date (group "pdate" (m_caps m)) year); [|discriminate].
  simpl in E. destruct (float_or_raise _); [|discriminate]. simpl in E.
  destruct (in_payments st); [injection E as E; rewrite E; exact Hst|].
  destruct (in_charges st); injection E as E; rewrite E; trivial.
  cbn [txns append_txn]. apply Forall_app.
  split; [exact Hst|]. constructor; [apply HP|constructor].
Qed.

Lemma scan_lines_txns (P : TransactionRow.t -> Prop) (year : Z)
    (lines : list str) : forall st st',
  (forall d1 d2 body q, P (transaction_row d1 d2 body q)) ->
  Forall P (txns st) -> scan_lines year st lines = Ok st' ->
  Forall P (txns st').
Proof.
  induction lines as [|l lines IH]; intros st st' HP Hst H; simpl in H.
  - now injection H as <-.
  - destruct (scan_line year st l) as [st1|] eqn:E; [|discriminate].
    simpl in H. apply (IH st1 st' HP); trivial.
    now apply (scan_line_txns P year st st1 l).
Qed.

Lemma scan_pages_txns (P : TransactionRow.t -> Prop) (year : Z)
    (pages : list str) : forall st st',
  (forall d1 d2 body q, P (transaction_row d1 d2 body q)) ->
  Forall P (txns st) -> scan_pages year st pages = Ok st' ->
  Forall P (txns st').
Proof.
  induction pages as [|p pages IH]; intros st st' HP Hst H; simpl in H.
  - now injection H as <-.
  - destruct (scan_lines year st (splitlines p)) as [st1|] eqn:E; [|discriminate].
    simpl in H. apply (IH st1 st' HP); trivial.
    now apply (scan_lines_txns P year (splitlines p) st st1).
Qed.

Lemma transaction_row_shape (d1 d2 : datetime) (body : str) (q : Q) :
  txn_location_shape (clean_txn (transaction_row d1 d2 body q)).
Proof.
  unfold transaction_row.
  destruct (_find_category_and_desc body) as [cat desc].
  pose proof (CityFacts.extract_location_shape desc) as H.
  destruct (_extract_location desc) as [[loc city] prov]. exact H.
Qed.

(** Every transaction of a statement has a location of the right shape. *)
Lemma parse_pages_location_shape (now_year : Z) (pages : list str)
    (pays : list PaymentRow.t) (txs : list TransactionRow.t) :
  _parse_pages_text now_year pages = Ok (pays, txs) ->
  Forall txn_location_shape txs.
Proof.
  unfold _parse_pages_text.
  destruct (scan_pages (_extract_year now_year pages) initial_state pages)
    as [st|] eqn:E; [|discriminate].
  simpl. intros [= _ <-]. apply Forall_map.
  apply (scan_pages_txns (fun t => txn_location_shape (clean_txn t))
           (_extract_year now_year pages) pages initial_state st);
    try assumption; try (intros; apply transaction_row_shape); constructor.
Qed.

End StatementFacts.

(** ** A statement of two pages *)

Module TwoPageFacts.
Import Py PySpec PyFacts Re RowSpec RowFacts ScanFacts StatementFacts.

(** The pages are scanned as one sequence of lines: the section state at
    the end of a page is the one the next page starts in. *)
Lemma scan_pages_lines (year : Z) (pages : list str) : forall st,
  scan_pages year st pages = scan_lines year st (flat_map splitlines pages).
Proof.
  induction pages as [|p pages IH]; intros st; simpl; [reflexivity|].
  rewrite scan_lines_app.
  destruct (scan_lines year st (splitlines p)); simpl; [apply IH | reflexivity].
Qed.

Lemma transaction_row_fields (d1 d2 : datetime) (body : str) (q : Q)
    (cat desc loc city prov : str) :
  _find_category_and_desc body = (cat, desc) ->
  _extract_location desc = (loc, city, prov) ->
  clean_txn (transaction_row d1 d2 body q) =
    {| TransactionRow.trans_date := d1;
       TransactionRow.post_date := d2;
       TransactionRow.description := clean_text desc;
       TransactionRow.category := cat;
       TransactionRow.amount := q;
       TransactionRow.location := loc;
       TransactionRow.city := city;
       TransactionRow.province := prov;
       TransactionRow.source := "CIBC" |}.
Proof. intros H1 H2. unfold transaction_row. now rewrite H1, H2. Qed.

Lemma scan_line_inert (year : Z) (st : scan_state) (raw_line : str) :
  inert raw_line = true -> scan_line year st raw_line = Ok st.
Proof.
  unfold inert, is_header. intros H.
  apply andb_true_iff in H as [H H3]. apply andb_true_iff in H as [H1 H2].
  apply negb_true_iff in H1, H2, H3. apply orb_false_iff in H1 as [H1 H1'].
  unfold scan_line. rewrite H1, H1', H2, andb_false_r.
  destruct (rematch ROW_RE (squeeze raw_line)); [discriminate|].
  now destruct (_is_noise (squeeze raw_line)).
Qed.

Lemma scan_lines_inert (year : Z) (st : scan_state) (lines : list str) :
  forallb inert lines = true -> scan_lines year st lines = Ok st.
Proof.
  induction lines as [|l lines IH]; intros H; [reflexivity|].
  simpl in H. apply andb_true_iff in H as [Hl H]. simpl.
  rewrite (scan_line_inert year st l Hl). simpl. now apply IH.
Qed.

Lemma scan_lines_inert_app (year : Z) (st : scan_state) (l1 l2 : list str) :
  forallb inert l1 = true ->
  scan_lines year st (l1 ++ l2) = scan_lines year st l2.
Proof.
  intros H. now rewrite scan_lines_app, (scan_lines_inert year st l1 H).
Qed.

Lemma scan_lines_cons (year : Z) (st : scan_state) (l : str) (rest : list str) :
  scan_lines year st (l :: rest) =
    (st' <- scan_line year st l ;; scan_lines year st' rest).
Proof. reflexivity. Qed.

Section TwoPages.

Variables (now_year : Z) (page1 page2 : str).
Variables (pre1 mid1 mid2 post1 pre2 mid3 post2 : list str).
Variables (header row1 total charges_header row2 : str).
Variables (m1 m2 : mobj) (d1 d2 d3 d4 : datetime).

Let year := _extract_year now_year [page1; page2].

Hypothesis Hpage1 :
  splitlines page1 = pre1 ++ header :: mid1 ++ row1 :: mid2 ++ total :: post1.
Hypothesis Hpage2 :
  splitlines page2 = pre2 ++ charges_header :: mid3 ++ row2 :: post2.
Hypothesis Hinert :
  forallb inert (pre1 ++ mid1 ++ mid2 ++ post1 ++ pre2 ++ mid3 ++ post2) = true.
Hypothesis Hheader : startswith (squeeze header) PAYMENTS_START = true.
Hypothesis Hrow1 : rematch ROW_RE (squeeze row1) = Some m1.
Hypothesis Htotal : startswith (squeeze total) PAYMENTS_TOTAL_PREFIX = true.
Hypothesis Hcharges : startswith (squeeze charges_header) CHARGES_START = true.
Hypothesis Hrow2 : rematch ROW_RE (squeeze row2) = Some m2.
Hypothesis Hd1 : _normalize_date (group "tdate" (m_caps m1)) year = Ok d1.
Hypothesis Hd2 : _normalize_date (group "pdate" (m_caps m1)) year = Ok d2.
Hypothesis Hd3 : _normalize_date (group "tdate" (m_caps m2)) year = Ok d3.
Hypothesis Hd4 : _normalize_date (group "pdate" (m_caps m2)) year = Ok d4.

Lemma two_pages_scan :
  exists a1 a2,
    scan_pages year initial_state [page1; page2] =
      Ok {| in_payments := false; in_charges := true;
            payments := [payment_row d1 d2 (group "body" (m_caps m1)) a1];
            txns := [transaction_row d3 d4 (group "body" (m_caps m2)) a2] |}.
Proof.
  destruct (scan_row_ok year (set_section true false initial_state) m1 d1 d2 _
              Hrow1 Hd1 Hd2) as [a1 Ha1].
  exists a1.
  set (st2 := append_payment (set_section true false initial_state)
                (payment_row d1 d2 (group "body" (m_caps m1)) a1)).
  destruct (scan_row_ok year (set_section false true (set_section false false st2))
              m2 d3 d4 _ Hrow2 Hd3 Hd4) as [a2 Ha2].
  exists a2.
  rewrite !forallb_app in Hinert.
  repeat match type of Hinert with
         | _ && _ = true =>
             let H := fresh "Hi" in apply andb_true_iff in Hinert as [H Hinert]
         end.
  rewrite scan_pages_lines. cbn [flat_map]. rewrite Hpage1, Hpage2.
  repeat rewrite <- ?app_assoc, <- ?app_comm_cons.
  rewrite (scan_lines_inert_app year _ pre1) by assumption.
  rewrite scan_lines_cons,
    (scan_line_payments_header year initial_state header Hheader).
  cbn [bind].
  rewrite (scan_lines_inert_app year _ mid1) by assumption.
  rewrite scan_lines_cons, (scan_line_row year _ row1 m1 Hrow1), Ha1.
  cbn [bind in_payments set_section]. fold st2.
  rewrite (scan_lines_inert_app year _ mid2) by assumption.
  rewrite scan_lines_cons, (scan_line_total year st2 total eq_refl Htotal).
  cbn [bind].
  rewrite (scan_lines_inert_app year _ post1) by assumption.
  rewrite (scan_lines_inert_app year _ pre2) by assumption.
  rewrite scan_lines_cons,
    (scan_line_charges_header year _ charges_header Hcharges).
  cbn [bind].
  rewrite (scan_lines_inert_app year _ mid3) by assumption.
  rewrite scan_lines_cons, (scan_line_row year _ row2 m2 Hrow2).
  change (in_charges st2) with false.
  rewrite Ha2. cbn [bind in_payments in_charges set_section].
  rewrite (scan_lines_inert_app year _ post2) by assumption.
  reflexivity.
Qed.

End TwoPages.

End TwoPageFacts.

(** * The properties of the specification *)

(** C2: a line that starts with the payments-total marker, read in the
    payments section, moves the scanner out of every section; from there on
    the lines up to the next section header add no record, whether the row
    grammar matches them or not.  The scan of such lines ends in that same
    state with the records it had, unless a date of a matched row fails to
    normalise, which ends the scan with that error. *)
Theorem payments_total_closes_section
    (year : Z) (st : scan_state) (total : str) (rest : list str) :
  in_payments st = true -> in_charges st = false ->
  Py.startswith (Py.squeeze total) PAYMENTS_TOTAL_PREFIX = true ->
  (forall l, In l rest -> is_header l = false) ->
  scan_line year st total = Ok (set_section false false st) /\
  payments (set_section false false st) = payments st /\
  txns (set_section false false st) = txns st /\
  match scan_lines year st (total :: rest) with
  | Ok st' => st' = set_section false false st
  | Raise e =>
      exists l m,
        In l rest /\ Re.rematch ROW_RE (Py.squeeze l) = Some m /\
        (_normalize_date (Re.group "tdate" (Re.m_caps m)) year = Raise e \/
         _normalize_date (Re.group "pdate" (Re.m_caps m)) year = Raise e)
  end.
Proof.
  intros Hp Hc Ht Hrest.
  pose proof (StatementFacts.scan_line_total year st total Hp Ht) as Hline.
  rewrite Hc in Hline. repeat split; trivial.
  cbn [scan_lines]. rewrite Hline. cbn [bind].
  pose proof (StatementFacts.scan_lines_quiet year (set_section false false st)
                rest eq_refl eq_refl Hrest) as Hq.
  destruct (scan_lines year (set_section false false st) rest) as [st'|e];
    [exact Hq|].
  destruct Hq as (l & m & Hin & Hm & Hrow).
  exists l, m. repeat split; trivial.
  exact (StatementFacts.scan_row_raise year _ m _ e Hm Hrow).
Qed.

Lemma payments_total_closes_section_witness :
  let st := set_section true false initial_state in
  let total := lit "Total payments $100.00" in
  let rest := [lit "Jan 5 Jan 7 LATE PAYMENT 10.00"; lit "Thank you"] in
  scan_line 2025 st total = Ok (set_section false false st) /\
  payments (set_section false false st) = payments st /\
  txns (set_section false false st) = txns st /\
  match scan_lines 2025 st (total :: rest) with
  | Ok st' => st' = set_section false false st
  | Raise e =>
      exists l m,
        In l rest /\ Re.rematch ROW_RE (Py.squeeze l) = Some m /\
        (_normalize_date (Re.group "tdate" (Re.m_caps m)) 2025 = Raise e \/
         _normalize_date (Re.group "pdate" (Re.m_caps m)) 2025 = Raise e)
  end.
Proof.
  intros st total rest. apply payments_total_closes_section.
  - reflexivity.
  - reflexivity.
  - reflexivity.
  - intros l [<- | [<- | []]]; reflexivity.
Defined.

(** C3: the row pattern matches exactly the lines that read as two dates
    (an abbreviated month, whitespace, one or two digits), a body and an
    amount (an optional minus sign, a digit, digits and commas, an optional
    point, at most two digits), with whitespace between them, up to the end
    of the line.  The groups of a match are those parts.  The body is
    matched lazily: it is the shortest that would do, and the amount, which
    holds no whitespace, is the whole last token of the line, so no part of
    it goes into the body.  The sample row splits into "Jan 5", "Jan 7",
    its body up to and with the category label, and "12.34". *)
Theorem row_grammar :
  (forall line, Re.rematch ROW_RE line <> None <-> RowSpec.row_shape line) /\
  (forall line m,
     Re.rematch ROW_RE line = Some m ->
     exists tail,
       RowSpec.row_parts line
         (Re.group "tdate" (Re.m_caps m)) (Re.group "pdate" (Re.m_caps m))
         (Re.group "body" (Re.m_caps m)) tail
         (Re.group "amount" (Re.m_caps m)) /\
       RowSpec.shortest_body (Re.group "body" (Re.m_caps m)) tail /\
       nospace (Re.group "amount" (Re.m_caps m))) /\
  (exists m,
     Re.rematch ROW_RE sample_row = Some m /\
     Re.group "tdate" (Re.m_caps m) = lit "Jan 5" /\
     Re.group "pdate" (Re.m_caps m) = lit "Jan 7" /\
     Re.group "body" (Re.m_caps m) = lit "TIM HORTONS OTTAWA ON Retail and Grocery" /\
     Re.group "amount" (Re.m_caps m) = lit "12.34").
Proof.
  split; [|split].
  - intros line. split.
    + intros H. destruct (Re.rematch ROW_RE line) as [m|] eqn:E; [|congruence].
      apply RowFacts.row_match_inv in E
        as (td & pd & body & tail & amt & Hparts & _).
      now exists td, pd, body, tail, amt.
    + apply RowFacts.row_shape_matches.
  - intros line m H.
    apply RowFacts.row_match_inv in H
      as (td & pd & body & tail & amt & Hparts & Hc & Hshort).
    exists tail. rewrite Hc.
    destruct (StatementFacts.group_row_caps td pd body amt) as (-> & -> & -> & ->).
    repeat split; trivial.
    destruct Hparts as (ws1 & ws2 & _ & _ & _ & _ & _ & _ & ws & e & _ & _ & Hamt & _).
    now apply SplitFacts.amount_nospace.
  - eexists. split; [vm_compute; reflexivity|]. repeat split.
Qed.



(** "Feb 29" in 2025, which is no leap year, becomes February 28, and in
    2024 it stays February 29. *)
Lemma feb_29_clamped :
  _normalize_date "Feb 29" 2025 = Ok {| dt_year := 2025; dt_month := 2; dt_day := 28 |} /\
  _normalize_date "Feb 29" 2024 = Ok {| dt_year := 2024; dt_month := 2; dt_day := 29 |}.
Proof. split; vm_compute; reflexivity. Qed.

(** C5, as the code has it: the labels are tried longest first; a body
    whose whitespace-normalised form ends with a known label gives that
    label and the normalised body without it, trimmed on the right; a body
    whose normalised form ends with no label gives the empty category and
    the whitespace-normalised body, which is the body itself when the body
    is already normalised. *)
Theorem category_extraction (body : str) :
  (StronglySorted longer_first KNOWN_CATEGORIES_SORTED /\
   Permutation KNOWN_CATEGORIES KNOWN_CATEGORIES_SORTED /\
   _find_category_and_desc body =
     match first_suffix (Py.squeeze body) KNOWN_CATEGORIES_SORTED with
     | Some cat => (cat, Py.rstrip (Py.drop_last (length cat) (Py.squeeze body)))
     | None => ([], Py.squeeze body)
     end) /\
  (forall cat,
     In cat KNOWN_CATEGORIES -> Py.endswith (Py.squeeze body) cat = true ->
     _find_category_and_desc body =
       (cat, Py.rstrip (Py.drop_last (length cat) (Py.squeeze body)))) /\
  ((forall cat, In cat KNOWN_CATEGORIES ->
                Py.endswith (Py.squeeze body) cat = false) ->
   _find_category_and_desc body = ([], Py.squeeze body) /\
   (Py.squeeze body = body -> _find_category_and_desc body = ([], body))).
Proof.
  split; [split; [|split]|split].
  - apply SortFacts.sorted_by_len_desc_sorted.
  - apply SortFacts.sorted_by_len_desc_perm.
  - reflexivity.
  - apply CategoryFacts.find_category_label.
  - intros H. pose proof (CategoryFacts.find_category_none body H) as E.
    split; [exact E|]. intros Hb. now rewrite Hb in E.
Qed.

(** C5, as the specification states it, fails: the body "a  b", with two
    spaces, ends with no label, and the description that comes back is
    "a b", not the body. *)
Lemma category_untouched_counterexample :
  let body := lit "a  b" in
  (forall cat, In cat KNOWN_CATEGORIES ->
               Py.endswith (Py.squeeze body) cat = false) /\
  _find_category_and_desc body = ([], lit "a b") /\
  _find_category_and_desc body <> ([], body).
Proof.
  intros body. split; [|split].
  - intros cat H. simpl in H.
    repeat (destruct H as [<- | H]; [reflexivity|]). destruct H.
  - reflexivity.
  - discriminate.
Qed.

(** C6: when none of the four strategies finds a province at the end of
    the description, the location, the city and the province are all
    empty. *)
Theorem no_province_empty_location (desc : str) :
  let U := Py.strip (Py.upper desc) in
  space_province U = None -> hyphen_province U = None ->
  domain_province U = None -> fst (fst (glued_province U)) = None ->
  _extract_location desc = ([], [], []).
Proof. apply LocationFacts.no_province_no_location. Qed.

Lemma no_province_empty_location_witness :
  _extract_location "WWW.AMAZON.CA" = ([], [], []).
Proof.
  apply no_province_empty_location; vm_compute; reflexivity.
Defined.

(** C7, as the code has it: when the space-delimited and hyphen-glued
    strategies find nothing and the description has a domain or brand hint
    and ends with a province code, the province is accepted and the token
    heuristic for the city is skipped; the gazetteer is still searched in
    the text before the province.  The result is the province alone, with
    empty city and location, when no gazetteer name occurs there, and else
    the first gazetteer name found, longest first, as the city. *)
Theorem domain_tail_location (desc : str) (m : Re.mobj) :
  let U := Py.strip (Py.upper desc) in
  let prov := Re.group "1" (Re.m_caps m) in
  space_province U = None -> hyphen_province U = None ->
  domain_province U = Some m ->
  _extract_location desc =
    match scan_city (tail_alpha_of U m) CITY_PATTERNS_SORTED with
    | Some pat => (_normalize_city pat ++ " " ++ prov, _normalize_city pat, prov)
    | None => ([], [], prov)
    end.
Proof. apply LocationFacts.domain_location. Qed.

Lemma domain_tail_location_witness :
  _extract_location "AMAZON.CAON" = ([], [], lit "ON").
Proof.
  apply (domain_tail_location "AMAZON.CAON"
           {| Re.m_start := 9; Re.m_end := 11;
              Re.m_caps := [("1"%string, lit "ON")] |});
    vm_compute; reflexivity.
Defined.

(** C7, as the specification states it, fails: "UBER.COM TORONTOON" has a
    brand hint and ends with a province code, the first two strategies find
    nothing, and yet the city is Toronto. *)
Lemma domain_tail_counterexample :
  let U := Py.strip (Py.upper "UBER.COM TORONTOON") in
  space_province U = None /\ hyphen_province U = None /\
  existsb (Py.contains U) DOMAIN_HINTS = true /\
  Py.endswith U "ON" = true /\
  snd (_detect_province_suffix U) = lit "domain" /\
  _extract_location "UBER.COM TORONTOON"
    = (lit "Toronto ON", lit "Toronto", lit "ON").
Proof. vm_compute. repeat split. Qed.

(** C8: the code does not keep what its comment and its documentation
    promise.  The Halifax rule is tried only when no city was found, and by
    then the search of the gazetteer, which lists HALIFAX, has looked at
    the same text: the rule never applies, and the candidate city is what
    the token heuristic and the gazetteer search give, whatever the
    province and wherever HALIFAX stands. *)
Theorem halifax_rule_never_applies (tail_alpha prov mode : str) :
  candidate_city tail_alpha prov mode =
    (let cand_city := token_city tail_alpha mode in
     if unusable cand_city
     then match scan_city tail_alpha CITY_PATTERNS_SORTED with
          | Some pat => pat
          | None => cand_city
          end
     else cand_city).
Proof.
  unfold candidate_city. cbv zeta.
  set (c0 := token_city tail_alpha mode).
  set (c1 := if unusable c0
             then match scan_city tail_alpha CITY_PATTERNS_SORTED with
                  | Some pat => pat
                  | None => c0
                  end
             else c0).
  destruct (truthy c1) eqn:Et; [reflexivity|]. cbn [negb andb].
  destruct (Py.str_eqb prov "NS"); [|reflexivity].
  destruct (Py.contains tail_alpha "HALIFAX") eqn:Eh; [|reflexivity].
  exfalso. unfold c1 in Et. destruct (unusable c0) eqn:Eu.
  - destruct (scan_city tail_alpha CITY_PATTERNS_SORTED) as [pat|] eqn:Es.
    + apply CityFacts.scan_city_Some in Es as [Hin _].
      apply CityFacts.cities_have_word, LocationFacts.truthy_has_word in Hin.
      congruence.
    + rewrite CityFacts.scan_city_None in Es.
      rewrite (Es _ LocationFacts.halifax_listed) in Eh. discriminate.
  - apply LocationFacts.unusable_false in Eu as [Hc _]. congruence.
Qed.

(** C8 fails on the code.  In "HALIFAX FOO NS" the province is NS and
    HALIFAX stands before it, and the city is Foo, from the last token.
    In "IC* INSTACART MID-HNS", which the comments of the code name as a
    case of the hyphen strategy, no strategy finds a province (the hyphen
    is not next to the province code), so the location is empty, and so it
    is with HALIFAX written before MID. *)
Lemma halifax_counterexample :
  (exists m,
     _detect_province_suffix (Py.strip (Py.upper "HALIFAX FOO NS"))
       = (Some m, lit "NS", lit "space") /\
     Py.contains (tail_alpha_of (Py.strip (Py.upper "HALIFAX FOO NS")) m)
       "HALIFAX" = true) /\
  _extract_location "HALIFAX FOO NS" = (lit "Foo NS", lit "Foo", lit "NS") /\
  _extract_location "IC* INSTACART MID-HNS" = ([], [], []) /\
  _extract_location "IC* INSTACART HALIFAX MID-HNS" = ([], [], []).
Proof.
  split; [|split; [|split]].
  - eexists. split; vm_compute; reflexivity.
  - vm_compute. reflexivity.
  - vm_compute. reflexivity.
  - vm_compute. reflexivity.
Qed.


(** A month that is none fails for another reason than the day, and the
    error comes out; a day 0 in a matched row ends a whole statement. *)
Lemma date_errors_seen :
  _normalize_date "Foo 1" 2025
    = Raise (ParserError "Unknown string format" "Foo 1 2025") /\
  _parse_pages_text 2025 [day_zero_page1; sample_page2]
    = Raise (ParserError DAY_OUT_OF_RANGE "Jan 0 2025").
Proof. split; vm_compute; reflexivity. Qed.

(** C10: the triple of a location has one of two shapes: with a city, the
    location is the city, one space and the province code; without a city,
    the location is empty, whether a province was found or not.  Every
    transaction of a statement has such a triple, and a province without a
    city does occur. *)
Theorem location_triple_shape :
  (forall desc,
     let '(loc, city, prov) := _extract_location desc in
     location_shape loc city prov) /\
  (forall now_year pages pays txs,
     _parse_pages_text now_year pages = Ok (pays, txs) ->
     Forall txn_location_shape txs) /\
  _extract_location "AMAZON.CAON" = ([], [], lit "ON").
Proof.
  split; [|split].
  - apply CityFacts.extract_location_shape.
  - apply StatementFacts.parse_pages_location_shape.
  - vm_compute. reflexivity.
Qed.




(** * Further facts about the code *)

(** ** Searching and substituting *)

Module SearchFacts.
Import Py PySpec PyFacts Re ReSpec ReFacts.

(** Where a search succeeds, the pattern matches, and at no position
    before. *)
Lemma search_from_sound (r : regex) (s : str) : forall i m,
  search_from r i s = Some m ->
  exists pre s', s = pre ++ s' /\ match_at r (i + length pre) s' = Some m /\
    forall p1 p2, pre = p1 ++ p2 -> p2 <> [] ->
      match_at r (i + length p1) (p2 ++ s') = None.
Proof.
  induction s as [|a s IH]; intros i m; simpl.
  - destruct (match_at r i []) eqn:E; [|discriminate]. intros [= ->].
    exists [], []. simpl. rewrite Nat.add_0_r. repeat split; trivial.
    intros p1 p2 H. symmetry in H. apply app_eq_nil in H as [_ ->]. congruence.
  - destruct (match_at r i (a :: s)) eqn:E.
    + intros [= ->]. exists [], (a :: s). simpl. rewrite Nat.add_0_r.
      repeat split; trivial.
      intros p1 p2 H. symmetry in H. apply app_eq_nil in H as [_ ->]. congruence.
    + intros H. apply IH in H as (pre & s' & -> & Hm & Hbefore).
      exists (a :: pre), s'. simpl. rewrite <- Nat.add_succ_comm.
      repeat split; trivial.
      intros p1 p2 Hp Hne. destruct p1 as [|b p1]; simpl in Hp.
      * subst p2. simpl. rewrite Nat.add_0_r. exact E.
      * injection Hp as <- Hp. simpl. rewrite <- Nat.add_succ_comm.
        now apply Hbefore.
Qed.

(** A match somewhere makes the search succeed. *)
Lemma search_from_complete (r : regex) (pre s' : str) : forall i,
  match_at r (i + length pre) s' <> None ->
  search_from r i (pre ++ s') <> None.
Proof.
  induction pre as [|a pre IH]; intros i H; simpl in *.
  - rewrite Nat.add_0_r in H.
    destruct s'; simpl; destruct (match_at r i _); congruence.
  - destruct (match_at r i (a :: pre ++ s')); [discriminate|].
    apply IH. now rewrite Nat.add_succ_comm.
Qed.

(** A match object marks where the match starts. *)
Lemma match_at_start (r : regex) (i : nat) (s : str) (m : mobj) :
  match_at r i s = Some m -> m_start m = i.
Proof.
  unfold match_at. intros H.
  apply rmatch_sound in H as (i' & s' & cs' & _ & H). now injection H as <-.
Qed.

(** What a match object says of the match it stands for. *)
Lemma match_at_accepts (r : regex) (i : nat) (s : str) (m : mobj) :
  match_at r i s = Some m ->
  exists s', accepts r i s [] (m_end m) s' (m_caps m) /\ m_start m = i.
Proof.
  unfold match_at. intros H.
  apply rmatch_sound in H as (i' & s' & cs' & A & H). injection H as <-.
  now exists s'.
Qed.

Lemma accepts_match_at (r : regex) (i : nat) (s : str) i' s' cs' :
  accepts r i s [] i' s' cs' -> match_at r i s <> None.
Proof.
  intros A. unfold match_at. eapply rmatch_complete; [exact A | discriminate].
Qed.

(** Substituting for a class of characters goes character by character. *)
Lemma sub_cls (c : ascii -> bool) (repl : str) (s : str) : forall i,
  sub_from (Cls c) repl 0 i s = flat_map (fun a => if c a then repl else [a]) s.
Proof.
  induction s as [|a s IH]; intros i; [reflexivity|].
  cbn [sub_from flat_map]. unfold match_at. cbn [rmatch].
  destruct (c a); cbn [m_end].
  - replace (S i <=? i) with false by (symmetry; apply Nat.leb_gt; lia).
    replace (S i - i - 1) with 0 by lia. now rewrite IH.
  - now rewrite IH.
Qed.

(** Where the pattern matches nowhere, substitution changes nothing. *)
Lemma sub_from_none (r : regex) (repl : str) (s : str) : forall i,
  (forall p t j, s = p ++ t -> match_at r j t = None) ->
  sub_from r repl 0 i s = s.
Proof.
  induction s as [|a s IH]; intros i H; [reflexivity|].
  cbn [sub_from]. rewrite (H [] (a :: s) i eq_refl). f_equal.
  apply IH. intros p t j ->. apply (H (a :: p) t j). reflexivity.
Qed.

End SearchFacts.

(** ** Letter case and whitespace *)

Module CaseFacts.
Import Py PySpec PyFacts SplitFacts.

Ltac by_char a :=
  destruct a as [[] [] [] [] [] [] [] []]; vm_compute; reflexivity.

Lemma upper_char_idem (a : ascii) : upper_char (upper_char a) = upper_char a.
Proof. by_char a. Qed.

Lemma lower_char_idem (a : ascii) : lower_char (lower_char a) = lower_char a.
Proof. by_char a. Qed.

Lemma upper_lower_char (a : ascii) : upper_char (lower_char a) = upper_char a.
Proof. by_char a. Qed.

Lemma lower_upper_char (a : ascii) : lower_char (upper_char a) = lower_char a.
Proof. by_char a. Qed.

Lemma isspace_upper_char (a : ascii) : isspace (upper_char a) = isspace a.
Proof. by_char a. Qed.

Lemma isspace_lower_char (a : ascii) : isspace (lower_char a) = isspace a.
Proof. by_char a. Qed.

Lemma isupper_nospace (a : ascii) : isupper a = true -> isspace a = false.
Proof. destruct a as [[] [] [] [] [] [] [] []]; vm_compute; congruence. Qed.

Lemma isupper_upper_char (a : ascii) : isupper a = true -> upper_char a = a.
Proof.
  destruct a as [[] [] [] [] [] [] [] []]; vm_compute; congruence.
Qed.

Lemma upper_idem (s : str) : upper (upper s) = upper s.
Proof.
  unfold upper. rewrite map_map. apply map_ext. apply upper_char_idem.
Qed.

Lemma lower_idem (s : str) : lower (lower s) = lower s.
Proof.
  unfold lower. rewrite map_map. apply map_ext. apply lower_char_idem.
Qed.

Lemma upper_lower (s : str) : upper (lower s) = upper s.
Proof.
  unfold upper, lower. rewrite map_map. apply map_ext. apply upper_lower_char.
Qed.

Lemma upper_app (s t : str) : upper (s ++ t) = upper s ++ upper t.
Proof. apply map_app. Qed.

Lemma upper_capitalize (w : str) : upper (capitalize w) = upper w.
Proof.
  destruct w as [|a w]; [reflexivity|]. simpl.
  now rewrite upper_char_idem, upper_lower.
Qed.

Lemma capitalize_idem (w : str) : capitalize (capitalize w) = capitalize w.
Proof.
  destruct w as [|a w]; [reflexivity|]. simpl.
  now rewrite upper_char_idem, lower_idem.
Qed.

Lemma forallb_map_ext {A B} (f : B -> bool) (g : A -> B) (h : A -> bool)
    (l : list A) :
  (forall a, f (g a) = h a) -> forallb f (map g l) = forallb h l.
Proof.
  intros H. induction l as [|a l IH]; simpl; [reflexivity|].
  now rewrite H, IH.
Qed.

Lemma word_upper (w : str) : word w -> word (upper w).
Proof.
  intros [Hne Hw]. split.
  - destruct w; [congruence|discriminate].
  - unfold upper. rewrite (forallb_map_ext _ _ (fun a => negb (isspace a))); trivial.
    intros a. now rewrite isspace_upper_char.
Qed.

Lemma word_capitalize (w : str) : word w -> word (capitalize w).
Proof.
  intros [Hne Hw]. destruct w as [|a w]; [congruence|]. split; [discriminate|].
  simpl in *. apply andb_true_iff in Hw as [Ha Hw].
  rewrite isspace_upper_char, Ha. simpl.
  unfold lower. rewrite (forallb_map_ext _ _ (fun a => negb (isspace a))); trivial.
  intros b. now rewrite isspace_lower_char.
Qed.

(** Upper-casing goes through the string operations. *)
Lemma upper_lstrip (s : str) : lstrip (upper s) = upper (lstrip s).
Proof.
  induction s as [|a s IH]; [reflexivity|]. simpl.
  rewrite isspace_upper_char. now destruct (isspace a).
Qed.

Lemma upper_rev (s : str) : upper (rev s) = rev (upper s).
Proof. apply map_rev. Qed.

Lemma upper_rstrip (s : str) : rstrip (upper s) = upper (rstrip s).
Proof.
  unfold rstrip. now rewrite <- upper_rev, upper_lstrip, upper_rev.
Qed.

Lemma upper_strip (s : str) : strip (upper s) = upper (strip s).
Proof. unfold strip. now rewrite upper_lstrip, upper_rstrip. Qed.

Lemma upper_split_from (s : str) : forall cur,
  split_from (upper cur) (upper s) = map upper (split_from cur s).
Proof.
  induction s as [|a s IH]; intros cur.
  - destruct cur as [|c cur]; [reflexivity|].
    change (split_from (upper (c :: cur)) (upper []))
      with [rev (upper (c :: cur))].
    change (split_from (c :: cur) []) with [rev (c :: cur)].
    cbn [map]. now rewrite upper_rev.
  - change (upper (a :: s)) with (upper_char a :: upper s).
    cbn [split_from]. rewrite isspace_upper_char. destruct (isspace a).
    + destruct cur as [|c cur].
      * apply (IH []).
      * change (upper (c :: cur)) with (upper_char c :: upper cur).
        cbv iota. change (upper_char c :: upper cur) with (upper (c :: cur)).
        cbn [map]. rewrite upper_rev. f_equal. apply (IH []).
    + apply (IH (a :: cur)).
Qed.

Lemma upper_split (s : str) : split (upper s) = map upper (split s).
Proof. apply (upper_split_from s []). Qed.

Lemma upper_join (sep : str) (ws : list str) :
  upper (join sep ws) = join (upper sep) (map upper ws).
Proof.
  induction ws as [|w ws IH]; [reflexivity|].
  destruct ws as [|w' ws]; [reflexivity|].
  change (join sep (w :: w' :: ws)) with (w ++ sep ++ join sep (w' :: ws)).
  rewrite !upper_app, IH. reflexivity.
Qed.

Lemma upper_squeeze (s : str) : squeeze (upper s) = upper (squeeze s).
Proof. unfold squeeze. now rewrite upper_split, upper_join. Qed.

End CaseFacts.

(** ** Tokens and the text they make *)

Module TidyFacts.
Import Py PySpec PyFacts SplitFacts RowSpec CaseFacts.

Lemma word_nospace (w : str) : word w -> nospace w /\ w <> [].
Proof. intros [Hne Hw]. now split. Qed.

(** The tokens of words joined by spaces are the words. *)
Lemma split_join (ws : list str) :
  Forall word ws -> split (join " " ws) = ws.
Proof.
  induction 1 as [|w ws Hw Hws IH]; [reflexivity|].
  destruct (word_nospace w Hw) as [Hn Hne].
  destruct ws as [|w' ws].
  - simpl. now apply split_from_end.
  - change (join " " (w :: w' :: ws)) with (w ++ " " ++ join " " (w' :: ws)).
    rewrite split_word_spaces; trivial; [|apply one_space]. now rewrite IH.
Qed.

Lemma split_squeeze (s : str) : split (squeeze s) = split s.
Proof. unfold squeeze. apply split_join, split_words. Qed.

Lemma squeeze_idem (s : str) : squeeze (squeeze s) = squeeze s.
Proof. unfold squeeze at 1. now rewrite split_squeeze. Qed.

Lemma squeeze_join (ws : list str) :
  Forall word ws -> squeeze (join " " ws) = join " " ws.
Proof. intros H. unfold squeeze. now rewrite split_join. Qed.

(** Whitespace around a text does not show in its tokens. *)
Lemma split_from_trail (s : str) : forall cur gap,
  forallb isspace gap = true ->
  split_from cur (s ++ gap) = split_from cur s.
Proof.
  induction s as [|a s IH]; intros cur gap Hgap; simpl.
  - induction gap as [|b gap IHg]; [reflexivity|].
    simpl in Hgap. apply andb_true_iff in Hgap as [Hb Hgap]. simpl. rewrite Hb.
    destruct cur as [|c cur].
    + now apply IHg.
    + f_equal. clear IHg.
      induction gap as [|b' gap IHg']; [reflexivity|].
      simpl in Hgap. apply andb_true_iff in Hgap as [Hb' Hgap]. simpl.
      rewrite Hb'. now apply IHg'.
  - destruct (isspace a); [destruct cur; [|f_equal]|]; now apply IH.
Qed.

Lemma split_lstrip (s : str) : split (lstrip s) = split s.
Proof.
  destruct (CategoryFacts.lstrip_split s) as (gap & E & Hgap).
  rewrite E at 2. unfold split. now rewrite split_from_gap.
Qed.

Lemma split_rstrip (s : str) : split (rstrip s) = split s.
Proof.
  destruct (CategoryFacts.rstrip_split s) as (gap & E & Hgap).
  rewrite E at 2. unfold split. now rewrite split_from_trail.
Qed.

Lemma split_strip (s : str) : split (strip s) = split s.
Proof. unfold strip. now rewrite split_rstrip, split_lstrip. Qed.

(** No two whitespace characters in a row. *)
Lemma no_wide_eq (a b : ascii) (s : str) :
  no_wide (a :: b :: s) = negb (isspace a && isspace b) && no_wide (b :: s).
Proof. reflexivity. Qed.

Lemma no_wide_cons (a : ascii) (s : str) :
  no_wide (a :: s) = true -> no_wide s = true.
Proof.
  destruct s as [|b s]; [reflexivity|]. rewrite no_wide_eq.
  intros H. now apply andb_true_iff in H as [_ H].
Qed.

Lemma no_wide_suffix (p t : str) : no_wide (p ++ t) = true -> no_wide t = true.
Proof.
  induction p as [|a p IH]; [trivial|]. intros H. apply IH.
  now apply (no_wide_cons a).
Qed.

Lemma no_wide_prefix (p t : str) : no_wide (p ++ t) = true -> no_wide p = true.
Proof.
  induction p as [|a p IH]; [reflexivity|].
  destruct p as [|b p]; [reflexivity|].
  change ((a :: b :: p) ++ t) with (a :: b :: p ++ t).
  rewrite !no_wide_eq.
  intros H. apply andb_true_iff in H as [H1 H2]. rewrite H1. simpl.
  apply IH. exact H2.
Qed.

Lemma no_wide_pair (x y : str) (a b : ascii) :
  no_wide (x ++ a :: b :: y) = true -> isspace a && isspace b = false.
Proof.
  intros H. apply no_wide_suffix in H. rewrite no_wide_eq in H.
  apply andb_true_iff in H as [H _]. now apply negb_true_iff in H.
Qed.

Lemma no_wide_word (w : str) (t : str) :
  nospace w -> no_wide t = true -> no_wide (w ++ t) = true.
Proof.
  induction w as [|a w IH]; intros Hw Ht; [exact Ht|].
  unfold nospace in Hw. simpl in Hw. apply andb_true_iff in Hw as [Ha Hw].
  apply negb_true_iff in Ha. specialize (IH Hw Ht).
  cbn [app]. destruct (w ++ t) as [|b u] eqn:E; [reflexivity|].
  now rewrite no_wide_eq, Ha, IH.
Qed.

Lemma no_wide_join (ws : list str) :
  Forall word ws -> no_wide (join " " ws) = true.
Proof.
  induction 1 as [|w ws Hw Hws IH]; [reflexivity|].
  destruct (word_nospace w Hw) as [Hn Hne].
  destruct ws as [|w' ws].
  - simpl. rewrite <- (app_nil_r w). now apply no_wide_word.
  - change (join " " (w :: w' :: ws)) with (w ++ " " ++ join " " (w' :: ws)).
    apply no_wide_word; trivial.
    inversion Hws as [|? ? Hw' _]; subst.
    destruct (join_head " " w' ws) as [t E]. rewrite E in *.
    destruct Hw' as [Hne' Hw']. destruct w' as [|c w']; [congruence|].
    simpl in Hw'. apply andb_true_iff in Hw' as [Hc _].
    apply negb_true_iff in Hc.
    change (lit " " ++ (c :: w') ++ t) with (" "%char :: c :: w' ++ t).
    rewrite no_wide_eq, Hc, andb_false_r. exact IH.
Qed.

(** Text that starts and ends with a character that is no whitespace is
    its own [strip]. *)
Lemma lstrip_head (a : ascii) (s : str) :
  isspace a = false -> lstrip (a :: s) = a :: s.
Proof. intros H. simpl. now rewrite H. Qed.

Lemma rstrip_last (s : str) (a : ascii) :
  isspace a = false -> rstrip (s ++ [a]) = s ++ [a].
Proof.
  intros H. unfold rstrip. rewrite rev_app_distr. simpl. rewrite H.
  simpl. now rewrite rev_involutive.
Qed.

Lemma lstrip_idem (s : str) : lstrip (lstrip s) = lstrip s.
Proof.
  induction s as [|a s IH]; [reflexivity|]. simpl.
  destruct (isspace a) eqn:E; [exact IH|]. simpl. now rewrite E.
Qed.

Lemma rstrip_idem (s : str) : rstrip (rstrip s) = rstrip s.
Proof. unfold rstrip. now rewrite rev_involutive, lstrip_idem. Qed.

Lemma rstrip_nil_or_last (s : str) :
  rstrip s = [] \/ exists x a, rstrip s = x ++ [a] /\ isspace a = false.
Proof.
  unfold rstrip. induction (rev s) as [|a r IH]; [now left|]. simpl.
  destruct (isspace a) eqn:E; [exact IH|].
  right. exists (rev r), a. simpl. now split.
Qed.

Lemma lstrip_nil_or_head (s : str) :
  lstrip s = [] \/ exists a x, lstrip s = a :: x /\ isspace a = false.
Proof.
  induction s as [|a s IH]; [now left|]. simpl.
  destruct (isspace a) eqn:E; [exact IH|].
  right. now exists a, s.
Qed.

(** The right trim of a text that starts with a word starts with it. *)
Lemma rstrip_head (a : ascii) (s : str) :
  isspace a = false -> exists t, rstrip (a :: s) = a :: t.
Proof.
  intros Ha. unfold rstrip. simpl rev.
  destruct (ScanFacts.lstrip_snoc (rev s) a Ha) as [y ->].
  rewrite rev_app_distr. simpl. now exists (rev y).
Qed.

Lemma strip_idem (s : str) : strip (strip s) = strip s.
Proof.
  unfold strip at 1 2.
  destruct (lstrip_nil_or_head s) as [E | (a & x & E & Ha)].
  - unfold strip. rewrite E. reflexivity.
  - unfold strip. rewrite E.
    destruct (rstrip_head a x Ha) as [t Et]. rewrite Et.
    rewrite lstrip_head by exact Ha. rewrite <- Et. apply rstrip_idem.
Qed.

Lemma join_first (ws : list str) :
  Forall word ws -> ws <> [] ->
  exists a t, join " " ws = a :: t /\ isspace a = false.
Proof.
  intros Hw Hne. destruct ws as [|w ws]; [congruence|].
  inversion Hw as [|? ? [Hwne Hw1] _]; subst.
  destruct (join_head " " w ws) as [t ->].
  destruct w as [|a w]; [congruence|]. simpl in Hw1.
  apply andb_true_iff in Hw1 as [Ha _]. apply negb_true_iff in Ha.
  now exists a, (w ++ t).
Qed.

Lemma join_last (ws : list str) :
  Forall word ws -> ws <> [] ->
  exists x b, join " " ws = x ++ [b] /\ isspace b = false.
Proof.
  induction 1 as [|w ws Hw Hws IH]; [congruence|]. intros _.
  destruct ws as [|w' ws].
  - simpl. destruct Hw as [Hne Hw].
    destruct (exists_last Hne) as (x & b & ->).
    exists x, b. split; [reflexivity|].
    rewrite forallb_app in Hw. apply andb_true_iff in Hw as [_ Hb].
    simpl in Hb. rewrite andb_true_r in Hb. now apply negb_true_iff in Hb.
  - destruct IH as (x & b & E & Hb); [discriminate|].
    exists (w ++ " " ++ x), b.
    change (join " " (w :: w' :: ws)) with (w ++ " " ++ join " " (w' :: ws)).
    rewrite E. now rewrite <- !app_assoc.
Qed.

Lemma strip_ends (s t x : str) (a b : ascii) :
  s = a :: t -> s = x ++ [b] -> isspace a = false -> isspace b = false ->
  strip s = s.
Proof.
  intros E1 E2 Ha Hb. unfold strip. rewrite E1 at 1.
  rewrite lstrip_head by exact Ha. rewrite <- E1, E2. now apply rstrip_last.
Qed.

Lemma tidy_join (ws : list str) : Forall word ws -> tidy (join " " ws).
Proof.
  intros Hw. split; [|now apply no_wide_join].
  destruct ws as [|w ws]; [reflexivity|].
  destruct (join_first (w :: ws) Hw) as (a & t & E1 & Ha); [discriminate|].
  destruct (join_last (w :: ws) Hw) as (x & b & E2 & Hb); [discriminate|].
  exact (strip_ends _ t x a b E1 E2 Ha Hb).
Qed.

Lemma tidy_squeeze (s : str) : tidy (squeeze s).
Proof. apply tidy_join, split_words. Qed.

(** The clean-up of the description column leaves a tidy text alone. *)
Lemma wide_space_none (j : nat) (t : str) :
  no_wide t = true -> Re.match_at WIDE_SPACE_RE j t = None.
Proof.
  intros H. destruct (Re.match_at WIDE_SPACE_RE j t) as [m|] eqn:E; [|reflexivity].
  exfalso. unfold Re.match_at, WIDE_SPACE_RE, Re.at_least in E. cbn [Re.rmatch] in E.
  apply ReFacts.rep_sound in E as (w & s' & -> & Hw & Hlen & _).
  destruct w as [|a [|b w]]; simpl in Hlen; try lia.
  simpl in Hw. apply andb_true_iff in Hw as [Ha Hw].
  apply andb_true_iff in Hw as [Hb _].
  change ((a :: b :: w) ++ s') with (a :: b :: w ++ s') in H.
  rewrite no_wide_eq, Ha, Hb in H. discriminate.
Qed.

Lemma clean_text_tidy (s : str) : tidy s -> clean_text s = s.
Proof.
  intros [Hs Hw]. unfold clean_text, Re.sub.
  rewrite SearchFacts.sub_from_none; [exact Hs|].
  intros p t j ->. apply wide_space_none. now apply no_wide_suffix in Hw.
Qed.

(** A prefix of a tidy text, trimmed on the right, is tidy. *)
Lemma tidy_rstrip_prefix (p t : str) : tidy (p ++ t) -> tidy (rstrip p).
Proof.
  intros [Hs Hw]. split.
  - destruct p as [|a p]; [reflexivity|].
    assert (Ha : isspace a = false).
    { destruct (isspace a) eqn:E; [|reflexivity]. exfalso.
      unfold strip in Hs. cbn [app lstrip] in Hs. rewrite E in Hs.
      apply (f_equal (@length _)) in Hs.
      destruct (CategoryFacts.rstrip_split (lstrip (p ++ t))) as (g1 & E1 & _).
      destruct (CategoryFacts.lstrip_split (p ++ t)) as (g2 & E2 & _).
      apply (f_equal (@length _)) in E1, E2.
      rewrite (length_app (rstrip _)) in E1. rewrite (length_app g2) in E2.
      cbn [length] in Hs. lia. }
    destruct (rstrip_head a p Ha) as [u Eu].
    unfold strip. rewrite Eu at 1. rewrite lstrip_head by exact Ha.
    rewrite <- Eu. apply rstrip_idem.
  - apply no_wide_prefix in Hw.
    destruct (CategoryFacts.rstrip_split p) as (g & E & _).
    rewrite E in Hw. now apply no_wide_prefix in Hw.
Qed.

(** A part of a tidy text between two whitespace characters is tidy when
    it starts and ends with a character that is no whitespace. *)
Lemma tidy_between (x ws1 b ws2 y : str) :
  no_wide (x ++ ws1 ++ b ++ ws2 ++ y) = true ->
  spaces ws1 -> spaces ws2 -> b <> [] -> tidy b.
Proof.
  intros Hw [Hne1 Hs1] [Hne2 Hs2] Hb.
  destruct (exists_last Hne1) as (w1 & c1 & ->).
  destruct ws2 as [|c2 w2]; [congruence|].
  rewrite forallb_app in Hs1. apply andb_true_iff in Hs1 as [_ Hc1].
  simpl in Hc1. rewrite andb_true_r in Hc1.
  simpl in Hs2. apply andb_true_iff in Hs2 as [Hc2 _].
  destruct b as [|a b]; [congruence|].
  assert (Ha : isspace a = false).
  { replace (x ++ (w1 ++ [c1]) ++ (a :: b) ++ (c2 :: w2) ++ y)
      with ((x ++ w1) ++ c1 :: a :: (b ++ (c2 :: w2) ++ y)) in Hw
      by (now rewrite <- !app_assoc).
    apply no_wide_pair in Hw. rewrite Hc1 in Hw. exact Hw. }
  destruct (exists_last Hb) as (b' & z & Eb).
  assert (Hz : isspace z = false).
  { rewrite Eb in Hw.
    replace (x ++ (w1 ++ [c1]) ++ (b' ++ [z]) ++ (c2 :: w2) ++ y)
      with ((x ++ (w1 ++ [c1]) ++ b') ++ z :: c2 :: (w2 ++ y)) in Hw
      by (now rewrite <- !app_assoc).
    apply no_wide_pair in Hw. rewrite Hc2, andb_true_r in Hw. exact Hw. }
  split.
  - exact (strip_ends _ b b' a z eq_refl Eb Ha Hz).
  - rewrite app_assoc in Hw. apply no_wide_suffix in Hw.
    now apply no_wide_prefix in Hw.
Qed.

End TidyFacts.

(** ** City names and letters *)

Module NameFacts.
Import Py PySpec PyFacts SplitFacts CaseFacts TidyFacts.

(** The first normalisation in [_normalize_city] is subsumed by the
    second. *)
Lemma normalize_city_eq (s : str) :
  _normalize_city s = join " " (map capitalize (split s)).
Proof. unfold _normalize_city. now rewrite split_squeeze. Qed.

Lemma words_capitalize (ws : list str) :
  Forall word ws -> Forall word (map capitalize ws).
Proof.
  induction 1; constructor; trivial. now apply word_capitalize.
Qed.

Lemma normalize_city_tidy (s : str) : tidy (_normalize_city s).
Proof.
  rewrite normalize_city_eq. apply tidy_join, words_capitalize, split_words.
Qed.

Lemma normalize_city_upper (s : str) :
  upper (_normalize_city s) = upper (squeeze s).
Proof.
  rewrite normalize_city_eq. unfold squeeze. rewrite !upper_join.
  f_equal. rewrite map_map. apply map_ext. apply upper_capitalize.
Qed.

Lemma normalize_city_idem (s : str) :
  _normalize_city (_normalize_city s) = _normalize_city s.
Proof.
  rewrite (normalize_city_eq (_normalize_city s)), (normalize_city_eq s).
  rewrite split_join by (apply words_capitalize, split_words).
  rewrite map_map. f_equal. apply map_ext. apply capitalize_idem.
Qed.

Lemma normalize_city_squeeze (s : str) :
  _normalize_city (squeeze s) = _normalize_city s.
Proof. now rewrite !normalize_city_eq, split_squeeze. Qed.

(** [_letters_only] keeps the letters of the upper-cased text. *)
Lemma letters_only_filter (s : str) :
  _letters_only s = filter isupper (upper s).
Proof.
  unfold _letters_only, Re.sub. rewrite SearchFacts.sub_cls.
  induction (upper s) as [|a u IH]; [reflexivity|]. simpl.
  unfold not_upper at 1. destruct (isupper a); simpl; now rewrite IH.
Qed.

Lemma filter_isupper_upper (s : str) :
  forallb isupper s = true -> upper s = s.
Proof.
  induction s as [|a s IH]; [reflexivity|]. simpl. intros H.
  apply andb_true_iff in H as [Ha H].
  now rewrite isupper_upper_char, IH.
Qed.

Lemma forallb_filter {A} (f : A -> bool) (l : list A) :
  forallb f (filter f l) = true.
Proof.
  induction l as [|a l IH]; [reflexivity|]. simpl.
  destruct (f a) eqn:E; simpl; [now rewrite E|exact IH].
Qed.

Lemma filter_idem {A} (f : A -> bool) (l : list A) :
  filter f (filter f l) = filter f l.
Proof.
  induction l as [|a l IH]; [reflexivity|]. simpl.
  destruct (f a) eqn:E; simpl; [rewrite E; now f_equal|exact IH].
Qed.

End NameFacts.

(** ** The rows of the scan *)

Module StepFacts.
Import Py PySpec PyFacts Re RowSpec RowFacts ScanFacts StatementFacts.

(** A matched line whose row is made gave the dates and the amount, and
    the row went to the table of the open section. *)
Lemma scan_row_ok_inv (year : Z) (st st' : scan_state) (m : mobj) :
  scan_row year st m = Ok st' ->
  exists d1 d2 q,
    _normalize_date (group "tdate" (m_caps m)) year = Ok d1 /\
    _normalize_date (group "pdate" (m_caps m)) year = Ok d2 /\
    float_or_raise (replace (group "amount" (m_caps m)) "," []) = Ok q /\
    st' = if in_payments st
          then append_payment st (payment_row d1 d2 (group "body" (m_caps m)) q)
          else if in_charges st
          then append_txn st (transaction_row d1 d2 (group "body" (m_caps m)) q)
          else st.
Proof.
  unfold scan_row.
  destruct (_normalize_date (group "tdate" (m_caps m)) year) as [d1|]; [|discriminate].
  destruct (_normalize_date (group "pdate" (m_caps m)) year) as [d2|]; [|discriminate].
  cbn [bind].
  destruct (float_or_raise _) as [q|]; [|discriminate]. cbn [bind].
  intros H. exists d1, d2, q. repeat split.
  destruct (in_payments st); [|destruct (in_charges st)]; now injection H as <-.
Qed.

(** What a turn of the loop does to the state: it sets the section flags,
    or it leaves the state alone, or it adds the row of the line to the
    table of the open section. *)
Lemma scan_line_step (year : Z) (st st' : scan_state) (raw_line : str) :
  scan_line year st raw_line = Ok st' ->
  (is_row raw_line = false /\
   payments st' = payments st /\ txns st' = txns st /\
   ((in_payments st' = true /\ in_charges st' = false /\
     startswith (squeeze raw_line) PAYMENTS_START = true) \/
    (in_payments st' = false /\ in_charges st' = true /\
     startswith (squeeze raw_line) PAYMENTS_START = false /\
     startswith (squeeze raw_line) CHARGES_START = true) \/
    (in_payments st' = false /\ in_charges st' = in_charges st /\
     in_payments st = true /\
     startswith (squeeze raw_line) PAYMENTS_TOTAL_PREFIX = true) \/
    (st' = st /\ startswith (squeeze raw_line) PAYMENTS_START = false /\
     startswith (squeeze raw_line) CHARGES_START = false)))
  \/
  (exists m d1 d2 q,
     row_read year raw_line m d1 d2 q /\
     st' = if in_payments st
           then append_payment st (payment_row d1 d2 (group "body" (m_caps m)) q)
           else if in_charges st
           then append_txn st (transaction_row d1 d2 (group "body" (m_caps m)) q)
           else st).
Proof.
  intros H. unfold is_row.
  destruct (rematch ROW_RE (squeeze raw_line)) as [m|] eqn:Hm.
  - right. rewrite (scan_line_row year st raw_line m Hm) in H.
    apply scan_row_ok_inv in H as (d1 & d2 & q & H1 & H2 & H3 & ->).
    exists m, d1, d2, q. split; [|reflexivity]. now repeat split.
  - left. split; [reflexivity|].
    pose proof (scan_line_effect year st raw_line) as Heff. rewrite H in Heff.
    inversion Heff as [H1 E|H1 H2 E|H1 H2 E|H1 H2 H3 E|m' Hm' E]; subst;
      try congruence; cbn [payments txns in_payments in_charges set_section];
      repeat split; auto 10.
Qed.

(** The rows of the two tables keep a property that every row read from a
    line has. *)
Lemma scan_line_rows (P : PaymentRow.t -> Prop) (T : TransactionRow.t -> Prop)
    (year : Z) (st st' : scan_state) (raw_line : str) :
  (forall m d1 d2 q, row_read year raw_line m d1 d2 q ->
     P (payment_row d1 d2 (group "body" (m_caps m)) q) /\
     T (transaction_row d1 d2 (group "body" (m_caps m)) q)) ->
  Forall P (payments st) -> Forall T (txns st) ->
  scan_line year st raw_line = Ok st' ->
  Forall P (payments st') /\ Forall T (txns st').
Proof.
  intros Hrow HP HT H.
  apply scan_line_step in H
    as [(_ & -> & -> & _) | (m & d1 & d2 & q & Hr & ->)]; [now split|].
  destruct (Hrow m d1 d2 q Hr) as [Hp Ht].
  destruct (in_payments st); [|destruct (in_charges st)];
    cbn [payments txns append_payment append_txn]; split; trivial;
    apply Forall_app; split; trivial; now constructor.
Qed.

Lemma scan_lines_rows (P : PaymentRow.t -> Prop) (T : TransactionRow.t -> Prop)
    (year : Z) (lines : list str) : forall st st',
  (forall raw_line m d1 d2 q,
     In raw_line lines -> row_read year raw_line m d1 d2 q ->
     P (payment_row d1 d2 (group "body" (m_caps m)) q) /\
     T (transaction_row d1 d2 (group "body" (m_caps m)) q)) ->
  Forall P (payments st) -> Forall T (txns st) ->
  scan_lines year st lines = Ok st' ->
  Forall P (payments st') /\ Forall T (txns st').
Proof.
  induction lines as [|l lines IH]; intros st st' Hrow HP HT H; simpl in H.
  - injection H as <-. now split.
  - destruct (scan_line year st l) as [st1|] eqn:E; [|discriminate].
    simpl in H.
    destruct (scan_line_rows P T year st st1 l) as [HP1 HT1]; trivial.
    + intros m d1 d2 q. apply Hrow. now left.
    + apply (IH st1 st'); trivial.
      intros r m d1 d2 q Hin. apply Hrow. now right.
Qed.

(** The same for a whole statement. *)
Lemma statement_rows (P : PaymentRow.t -> Prop) (T : TransactionRow.t -> Prop)
    (year : Z) (pages : list str) (st : scan_state) :
  (forall raw_line m d1 d2 q,
     In raw_line (statement_lines pages) -> row_read year raw_line m d1 d2 q ->
     P (payment_row d1 d2 (group "body" (m_caps m)) q) /\
     T (transaction_row d1 d2 (group "body" (m_caps m)) q)) ->
  scan_pages year initial_state pages = Ok st ->
  Forall P (payments st) /\ Forall T (txns st).
Proof.
  intros Hrow H. rewrite TwoPageFacts.scan_pages_lines in H.
  apply (scan_lines_rows P T year (statement_lines pages) initial_state st);
    trivial; constructor.
Qed.

End StepFacts.

(** ** Tidy descriptions *)

Module CleanFacts.
Import Py PySpec PyFacts Re RowSpec RowFacts ScanFacts StatementFacts.
Import TidyFacts StepFacts.

(** The body of a row of a line with normalised whitespace is tidy. *)
Lemma row_body_tidy (raw_line : str) (m : mobj) :
  rematch ROW_RE (squeeze raw_line) = Some m ->
  tidy (group "body" (m_caps m)).
Proof.
  intros H. apply row_match_inv in H
    as (td & pd & body & tail & amt & (ws1 & ws2 & E & _ & _ & _ & Hws2 & Hb & Htail)
        & -> & _).
  destruct Htail as (ws & e & -> & Hws & _ & _). destruct Hb as [Hb _].
  destruct (group_row_caps td pd body amt) as (_ & _ & -> & _).
  destruct (tidy_squeeze raw_line) as [_ Hw]. rewrite E in Hw.
  apply (tidy_between (td ++ ws1 ++ pd) ws2 body ws (amt ++ e)); trivial.
  now rewrite <- !app_assoc.
Qed.

Lemma drop_last_prefix (n : nat) (s : str) :
  exists t, s = drop_last n s ++ t.
Proof.
  exists (skipn (length s - n) s). unfold drop_last.
  symmetry. apply firstn_skipn.
Qed.

(** The description [_find_category_and_desc] gives is tidy. *)
Lemma find_category_tidy (body : str) :
  tidy (snd (_find_category_and_desc body)).
Proof.
  unfold _find_category_and_desc.
  destruct (first_suffix (squeeze body) KNOWN_CATEGORIES_SORTED) as [cat|];
    cbn [snd]; [|apply tidy_squeeze].
  destruct (drop_last_prefix (length cat) (squeeze body)) as [t E].
  apply (tidy_rstrip_prefix _ t). rewrite <- E. apply tidy_squeeze.
Qed.

Lemma transaction_row_description (d1 d2 : datetime) (body : str) (q : Q) :
  TransactionRow.description (transaction_row d1 d2 body q)
    = snd (_find_category_and_desc body).
Proof.
  unfold transaction_row. destruct (_find_category_and_desc body) as [cat desc].
  now destruct (_extract_location desc) as [[loc city] prov].
Qed.

Lemma transaction_row_category (d1 d2 : datetime) (body : str) (q : Q) :
  TransactionRow.category (transaction_row d1 d2 body q)
    = fst (_find_category_and_desc body).
Proof.
  unfold transaction_row. destruct (_find_category_and_desc body) as [cat desc].
  now destruct (_extract_location desc) as [[loc city] prov].
Qed.

Lemma transaction_row_source (d1 d2 : datetime) (body : str) (q : Q) :
  TransactionRow.source (transaction_row d1 d2 body q) = lit "CIBC".
Proof.
  unfold transaction_row. destruct (_find_category_and_desc body) as [cat desc].
  now destruct (_extract_location desc) as [[loc city] prov].
Qed.

Lemma transaction_row_dates (d1 d2 : datetime) (body : str) (q : Q) :
  TransactionRow.trans_date (transaction_row d1 d2 body q) = d1 /\
  TransactionRow.post_date (transaction_row d1 d2 body q) = d2 /\
  TransactionRow.amount (transaction_row d1 d2 body q) = q.
Proof.
  unfold transaction_row. destruct (_find_category_and_desc body) as [cat desc].
  now destruct (_extract_location desc) as [[loc city] prov].
Qed.

(** Every description the scan records is tidy. *)
Lemma statement_tidy (year : Z) (pages : list str) (st : scan_state) :
  scan_pages year initial_state pages = Ok st ->
  Forall payment_tidy (payments st) /\ Forall txn_tidy (txns st).
Proof.
  apply statement_rows. intros raw m d1 d2 q _ (Hm & _). split.
  - exact (row_body_tidy raw m Hm).
  - unfold txn_tidy. rewrite transaction_row_description.
    apply find_category_tidy.
Qed.

Lemma clean_payment_tidy (p : PaymentRow.t) :
  payment_tidy p -> clean_payment p = p.
Proof.
  intros H. destruct p. unfold clean_payment, payment_tidy in *. simpl in *.
  now rewrite clean_text_tidy.
Qed.

Lemma clean_txn_tidy (t : TransactionRow.t) :
  txn_tidy t -> clean_txn t = t.
Proof.
  intros H. destruct t. unfold clean_txn, txn_tidy in *. simpl in *.
  now rewrite clean_text_tidy.
Qed.

Lemma map_fix {A} (f : A -> A) (P : A -> Prop) (l : list A) :
  (forall a, P a -> f a = a) -> Forall P l -> map f l = l.
Proof.
  intros H. induction 1 as [|a l Ha _ IH]; [reflexivity|].
  simpl. now rewrite H, IH.
Qed.

End CleanFacts.

(** ** The section flags *)

Module FlagFacts.
Import Py PySpec PyFacts Re RowSpec RowFacts ScanFacts StatementFacts StepFacts.

Lemma row_step_flags (st : scan_state) (p : PaymentRow.t) (t : TransactionRow.t) :
  let st' := if in_payments st then append_payment st p
             else if in_charges st then append_txn st t else st in
  in_payments st' = in_payments st /\ in_charges st' = in_charges st.
Proof.
  destruct (in_payments st) eqn:E1; [|destruct (in_charges st) eqn:E2];
    cbv zeta; cbn [in_payments in_charges append_payment append_txn];
    split; congruence.
Qed.

(** The scanner is in one section at most. *)
Lemma scan_line_exclusive (year : Z) (st st' : scan_state) (raw_line : str) :
  in_payments st && in_charges st = false ->
  scan_line year st raw_line = Ok st' ->
  in_payments st' && in_charges st' = false.
Proof.
  intros Hx H. apply scan_line_step in H
    as [(_ & _ & _ & [(-> & -> & _) | [(-> & -> & _) | [(-> & _) | (-> & _)]]])
       | (m & d1 & d2 & q & _ & ->)]; trivial.
  match goal with |- context [if _ then append_payment _ ?p else if _ then append_txn _ ?t else _] =>
    destruct (row_step_flags st p t) as [-> ->] end.
  exact Hx.
Qed.

Lemma scan_lines_exclusive (year : Z) (lines : list str) : forall st st',
  in_payments st && in_charges st = false ->
  scan_lines year st lines = Ok st' ->
  in_payments st' && in_charges st' = false.
Proof.
  induction lines as [|l lines IH]; intros st st' Hx H; simpl in H.
  - now injection H as <-.
  - destruct (scan_line year st l) as [st1|] eqn:E; [|discriminate].
    simpl in H. apply (IH st1 st'); trivial.
    now apply (scan_line_exclusive year st st1 l).
Qed.

(** A line adds one record at most, and only a line the row grammar
    matches adds one. *)
Lemma scan_line_count (year : Z) (st st' : scan_state) (raw_line : str) :
  scan_line year st raw_line = Ok st' ->
  length (payments st') + length (txns st')
    <= length (payments st) + length (txns st)
       + (if is_row raw_line then 1 else 0).
Proof.
  intros H. apply scan_line_step in H
    as [(-> & -> & -> & _) | (m & d1 & d2 & q & (Hm & _) & ->)]; [lia|].
  unfold is_row. rewrite Hm. cbn [is_some].
  destruct (in_payments st); [|destruct (in_charges st)];
    cbn [payments txns append_payment append_txn]; rewrite ?length_app;
    simpl; lia.
Qed.

Lemma scan_lines_count (year : Z) (lines : list str) : forall st st',
  scan_lines year st lines = Ok st' ->
  length (payments st') + length (txns st')
    <= length (payments st) + length (txns st)
       + length (filter is_row lines).
Proof.
  induction lines as [|l lines IH]; intros st st' H; simpl in H.
  - injection H as <-. simpl. lia.
  - destruct (scan_line year st l) as [st1|] eqn:E; [|discriminate].
    simpl in H. apply IH in H. apply scan_line_count in E.
    simpl. destruct (is_row l); simpl; lia.
Qed.

(** Once the charges section is open, only a payments header closes it:
    every line the row grammar matches adds a transaction. *)
Lemma scan_line_charges_open (year : Z) (st st' : scan_state) (raw_line : str) :
  in_payments st = false -> in_charges st = true ->
  startswith (squeeze raw_line) PAYMENTS_START = false ->
  scan_line year st raw_line = Ok st' ->
  in_payments st' = false /\ in_charges st' = true /\
  payments st' = payments st /\
  length (txns st') = length (txns st) + (if is_row raw_line then 1 else 0).
Proof.
  intros Hp Hc Hh H. apply scan_line_step in H
    as [(Hr & -> & -> & [(_ & _ & Hh') | [(-> & -> & _) | [(_ & _ & Hp' & _) | (-> & _)]]])
       | (m & d1 & d2 & q & (Hm & _) & ->)]; try congruence;
    try (rewrite Hr; repeat split; trivial; lia).
  unfold is_row. rewrite Hm, Hp, Hc.
  cbn [is_some payments txns in_payments in_charges append_txn].
  repeat split; trivial. rewrite length_app. reflexivity.
Qed.

Lemma scan_lines_charges_open (year : Z) (lines : list str) : forall st st',
  in_payments st = false -> in_charges st = true ->
  (forall l, In l lines -> startswith (squeeze l) PAYMENTS_START = false) ->
  scan_lines year st lines = Ok st' ->
  in_payments st' = false /\ in_charges st' = true /\
  payments st' = payments st /\
  length (txns st') = length (txns st) + length (filter is_row lines).
Proof.
  induction lines as [|l lines IH]; intros st st' Hp Hc Hh H; simpl in H.
  - injection H as <-. simpl. repeat split; trivial; lia.
  - destruct (scan_line year st l) as [st1|] eqn:E; [|discriminate].
    simpl in H.
    destruct (scan_line_charges_open year st st1 l Hp Hc
                (Hh l (or_introl eq_refl)) E) as (Hp1 & Hc1 & Epay & Elen).
    destruct (IH st1 st' Hp1 Hc1) as (Hp2 & Hc2 & Epay2 & Elen2); trivial.
    + intros l0 H0. apply Hh. now right.
    + repeat split; trivial; [congruence|].
      rewrite Elen2, Elen. simpl. destruct (is_row l); simpl; lia.
Qed.

(** In the payments section, and as long as no charges header and no
    payments total comes, every line the row grammar matches adds a
    payment. *)
Lemma scan_line_payments_open (year : Z) (st st' : scan_state) (raw_line : str) :
  in_payments st = true ->
  startswith (squeeze raw_line) CHARGES_START = false ->
  startswith (squeeze raw_line) PAYMENTS_TOTAL_PREFIX = false ->
  scan_line year st raw_line = Ok st' ->
  in_payments st' = true /\ txns st' = txns st /\
  length (payments st')
    = length (payments st) + (if is_row raw_line then 1 else 0).
Proof.
  intros Hp Hc Ht H. apply scan_line_step in H
    as [(Hr & -> & -> & [(-> & _) | [(_ & _ & _ & Hc') | [(_ & _ & _ & Ht') | (-> & _)]]])
       | (m & d1 & d2 & q & (Hm & _) & ->)]; try congruence;
    try (rewrite Hr; repeat split; trivial; lia).
  unfold is_row. rewrite Hm, Hp.
  cbn [is_some payments txns in_payments append_payment].
  repeat split; trivial. rewrite length_app. reflexivity.
Qed.

Lemma scan_lines_payments_open (year : Z) (lines : list str) : forall st st',
  in_payments st = true ->
  (forall l, In l lines ->
     startswith (squeeze l) CHARGES_START = false /\
     startswith (squeeze l) PAYMENTS_TOTAL_PREFIX = false) ->
  scan_lines year st lines = Ok st' ->
  in_payments st' = true /\ txns st' = txns st /\
  length (payments st')
    = length (payments st) + length (filter is_row lines).
Proof.
  induction lines as [|l lines IH]; intros st st' Hp Hh H; simpl in H.
  - injection H as <-. simpl. repeat split; trivial; lia.
  - destruct (scan_line year st l) as [st1|] eqn:E; [|discriminate].
    simpl in H. destruct (Hh l (or_introl eq_refl)) as [Hc Ht].
    destruct (scan_line_payments_open year st st1 l Hp Hc Ht E)
      as (Hp1 & Etx & Elen).
    destruct (IH st1 st' Hp1) as (Hp2 & Etx2 & Elen2); trivial.
    + intros l0 H0. apply Hh. now right.
    + repeat split; trivial; [congruence|].
      rewrite Elen2, Elen. simpl. destruct (is_row l); simpl; lia.
Qed.

End FlagFacts.

(** ** Noise *)

Module NoiseFacts.
Import Py PySpec PyFacts Re ReSpec ReFacts RowSpec RowFacts ScanFacts TidyFacts.

Lemma is_noise_or (line : str) :
  _is_noise line =
    negb (truthy (strip line))
    || startswith (strip line) CARD_NUMBER_PREFIX
    || startswith (strip line) TOTAL_FOR_PREFIX
    || is_some (rematch PAGE_RE (strip line))
    || is_some (rematch BARCODE_RE (strip line))
    || is_some (rematch REFCODE_RE (strip line)).
Proof.
  unfold _is_noise.
  destruct (negb (truthy (strip line))); [reflexivity|].
  destruct (startswith (strip line) CARD_NUMBER_PREFIX); [reflexivity|].
  destruct (startswith (strip line) TOTAL_FOR_PREFIX); [reflexivity|].
  destruct (is_some (rematch PAGE_RE (strip line))); [reflexivity|].
  destruct (is_some (rematch BARCODE_RE (strip line))); [reflexivity|].
  now destruct (is_some (rematch REFCODE_RE (strip line))).
Qed.

(** A stripped text does not end with a line feed. *)
Lemma strip_line_end (line x e : str) :
  strip line = x ++ e -> line_end e -> e = [].
Proof.
  intros E [-> | ->]; [reflexivity|]. exfalso.
  unfold strip in E.
  destruct (rstrip_nil_or_last (lstrip line)) as [H | (y & a & H & Ha)];
    rewrite H in E.
  - destruct x; discriminate.
  - apply app_inj_tail in E as [_ ->]. discriminate.
Qed.

Lemma is_some_true {A} (o : option A) : is_some o = true <-> o <> None.
Proof. destruct o; simpl; split; congruence. Qed.

Lemma rematch_accepts (r : regex) (s : str) :
  is_some (rematch r s) = true ->
  exists i' s' cs', accepts r 0 s [] i' s' cs'.
Proof.
  unfold rematch. destruct (match_at r 0 s) as [m|] eqn:E; [|discriminate].
  intros _. apply SearchFacts.match_at_accepts in E as (s' & A & _).
  now exists (m_end m), s', (m_caps m).
Qed.

Lemma accepts_rematch (r : regex) (s : str) i' s' cs' :
  accepts r 0 s [] i' s' cs' -> is_some (rematch r s) = true.
Proof.
  intros A. apply is_some_true. unfold rematch.
  now apply (SearchFacts.accepts_match_at r 0 s i' s' cs').
Qed.

Ltac inv_seq :=
  repeat match goal with
         | H : accepts (Seq _ _) _ _ _ _ _ _ |- _ => inv H
         | H : accepts Bol _ _ _ _ _ _ |- _ => inv H
         | H : accepts Eol _ _ _ _ _ _ |- _ => inv H
         | H : accepts (Lit _) _ _ _ _ _ _ |- _ => inv H
         end.

Ltac inv_rep :=
  unfold plus, star, opt, times, at_least, lazy_star, lazy_plus in *;
  repeat match goal with
         | H : accepts (Rep _ _ _ _) _ _ _ _ _ _ |- _ =>
             apply accepts_rep_inv in H as (? & ? & ? & ? & ? & ? & ?)
         end.

(** The page counter *)
Lemma page_shape (s : str) :
  is_some (rematch PAGE_RE s) = true <->
  exists a b e, s = "Page " ++ a ++ " of " ++ b ++ e /\
                digits a /\ digits b /\ line_end e.
Proof.
  split.
  - intros H. apply rematch_accepts in H as (i' & s' & cs' & A).
    unfold PAGE_RE in A. inv_seq. inv_rep. subst. simpl within in *.
    do 3 eexists. split; [reflexivity|]. unfold digits.
    repeat split; trivial; intros ->; simpl in *; lia.
  - intros (a & b & e & -> & [Hane Ha] & [Hbne Hb] & He).
    eapply accepts_rematch. unfold PAGE_RE.
    eapply acc_seq; [apply acc_bol|].
    eapply acc_seq; [apply acc_lit|].
    eapply acc_seq; [apply acc_rep; [exact Ha| |exact I]|].
    { destruct a; simpl; [congruence|lia]. }
    eapply acc_seq; [apply acc_lit|].
    eapply acc_seq; [apply acc_rep; [exact Hb| |exact I]|].
    { destruct b; simpl; [congruence|lia]. }
    apply acc_eol. exact He.
Qed.

(** The bar code *)
Lemma barcode_shape (s : str) :
  is_some (rematch BARCODE_RE s) = true <->
  exists d e, s = "*" ++ d ++ "*" ++ e /\
              forallb isdigit d = true /\ 7 <= length d /\ line_end e.
Proof.
  split.
  - intros H. apply rematch_accepts in H as (i' & s' & cs' & A).
    unfold BARCODE_RE in A. inv_seq. inv_rep. subst.
    do 2 eexists. split; [reflexivity|]. repeat split; trivial.
  - intros (d & e & -> & Hd & Hlen & He).
    eapply accepts_rematch. unfold BARCODE_RE.
    eapply acc_seq; [apply acc_bol|].
    eapply acc_seq; [apply acc_lit|].
    eapply acc_seq; [apply acc_rep; [exact Hd|exact Hlen|exact I]|].
    eapply acc_seq; [apply acc_lit|].
    apply acc_eol. exact He.
Qed.

(** The reference code *)
Lemma refcode_shape (s : str) :
  is_some (rematch REFCODE_RE s) = true <->
  exists sign a b e,
    s = sign ++ a ++ "-" ++ b ++ e /\ (sign = [] \/ sign = lit "-") /\
    forallb isdigit a = true /\ length a = 3 /\
    forallb isdigit b = true /\ 6 <= length b /\ line_end e.
Proof.
  split.
  - intros H. apply rematch_accepts in H as (i' & s' & cs' & A).
    unfold REFCODE_RE in A. inv_seq. inv_rep. subst. simpl within in *.
    do 4 eexists. split; [reflexivity|].
    repeat split; trivial; [now apply opt_word | lia].
  - intros (sign & a & b & e & -> & Hs & Ha & Hla & Hb & Hlb & He).
    eapply accepts_rematch. unfold REFCODE_RE.
    eapply acc_seq; [apply acc_bol|].
    eapply acc_seq; [apply acc_rep|].
    { destruct Hs as [-> | ->]; reflexivity. }
    { lia. }
    { destruct Hs as [-> | ->]; simpl; lia. }
    eapply acc_seq; [apply acc_rep; [exact Ha| |simpl]; lia|].
    eapply acc_seq; [apply acc_lit|].
    eapply acc_seq; [apply acc_rep; [exact Hb|exact Hlb|exact I]|].
    apply acc_eol. exact He.
Qed.

(** The lines that are noise. *)
Lemma is_noise_shape (line : str) :
  _is_noise line = true <-> noise_shape (strip line).
Proof.
  rewrite is_noise_or. set (s := strip line).
  assert (Hend : forall x e, s = x ++ e -> line_end e -> e = [])
    by (intros x e; apply strip_line_end).
  rewrite !orb_true_iff, !startswith_iff, page_shape, barcode_shape, refcode_shape.
  unfold noise_shape. split.
  - intros [[[[[H | H] | H] | H] | H] | H].
    + left. destruct s; [reflexivity|discriminate].
    + right. now left.
    + right. right. now left.
    + right. right. right. left.
      destruct H as (a & b & e & E & Ha & Hb & He).
      assert (e = []) as ->
        by (apply (Hend ("Page " ++ a ++ " of " ++ b)); trivial;
            now rewrite <- !app_assoc).
      exists a, b. now rewrite app_nil_r in E.
    + right. right. right. right. left.
      destruct H as (d & e & E & Hd & Hl & He).
      assert (e = []) as ->
        by (apply (Hend ("*" ++ d ++ "*")); trivial;
            now rewrite <- !app_assoc).
      exists d. now rewrite app_nil_r in E.
    + right. right. right. right. right.
      destruct H as (sign & a & b & e & E & Hs & Ha & Hla & Hb & Hlb & He).
      assert (e = []) as ->
        by (apply (Hend (sign ++ a ++ "-" ++ b)); trivial;
            now rewrite <- !app_assoc).
      exists sign, a, b. now rewrite app_nil_r in E.
  - intros [H | [H | [H | [H | [H | H]]]]].
    + left. left. left. left. left. now rewrite H.
    + left. left. left. left. now right.
    + left. left. left. now right.
    + left. left. right.
      destruct H as (a & b & E & Ha & Hb).
      exists a, b, []. rewrite app_nil_r.
      split; [exact E|]. split; [exact Ha|]. split; [exact Hb|now left].
    + left. right.
      destruct H as (d & E & Hd & Hl).
      exists d, []. rewrite app_nil_r.
      split; [exact E|]. split; [exact Hd|]. split; [exact Hl|now left].
    + right.
      destruct H as (sign & a & b & E & Hs & Ha & Hla & Hb & Hlb).
      exists sign, a, b, []. rewrite app_nil_r.
      repeat (split; [assumption|]). now left.
Qed.

(** A line the row grammar matches is no noise. *)
Lemma row_not_noise (line : str) (m : mobj) :
  rematch ROW_RE line = Some m -> _is_noise line = false.
Proof.
  intros H. destruct (row_line_month line m H) as (a & t & -> & Ha).
  now destruct (month_line_plain a t Ha) as (_ & _ & _ & ->).
Qed.

End NoiseFacts.

(** ** The year of a statement *)

Module YearFacts.
Import Py PySpec PyFacts Re ReSpec ReFacts RowSpec RowFacts NoiseFacts.

Lemma digit_val_range (a : ascii) :
  isdigit a = true -> (0 <= Num.digit_val a <= 9)%Z.
Proof.
  destruct a as [[] [] [] [] [] [] [] []]; try discriminate;
    intros _; vm_compute; split; discriminate.
Qed.

(** The value of a string of digits, by its length. *)
Lemma digits_val_bound (s : str) : forall acc,
  forallb isdigit s = true -> (0 <= acc)%Z ->
  exists n, Num.digits_val acc s = Some n /\
    (acc * 10 ^ Z.of_nat (length s) <= n
     < (acc + 1) * 10 ^ Z.of_nat (length s))%Z.
Proof.
  induction s as [|a s IH]; intros acc H Hacc.
  - exists acc. simpl. split; [reflexivity|lia].
  - simpl in H. apply andb_true_iff in H as [Ha H].
    pose proof (digit_val_range a Ha) as Hd.
    destruct (IH (10 * acc + Num.digit_val a)%Z H ltac:(lia)) as (n & E & Hn).
    exists n. cbn [Num.digits_val]. rewrite Ha. split; [exact E|].
    cbn [length]. rewrite Nat2Z.inj_succ, Z.pow_succ_r by lia.
    assert (0 < 10 ^ Z.of_nat (length s))%Z by (apply Z.pow_pos_nonneg; lia).
    nia.
Qed.

Lemma nat_literal_bound (s : str) :
  forallb isdigit s = true -> s <> [] ->
  exists n, Num.nat_literal s = Some n /\
            (0 <= n < 10 ^ Z.of_nat (length s))%Z.
Proof.
  intros H Hne. destruct (digits_val_bound s 0%Z H ltac:(lia)) as (n & E & Hn).
  exists n. split; [|lia]. destruct s; [congruence|exact E].
Qed.

(** What the pattern of the year finds is a header, and its group is the
    four digits. *)
Lemma search_year_sound (t : str) (m : mobj) :
  search TRANSACTIONS_FROM_RE t = Some m ->
  year_header t (group "1" (m_caps m)).
Proof.
  unfold search. intros H.
  apply SearchFacts.search_from_sound in H as (pre & s' & -> & Hm & _).
  apply SearchFacts.match_at_accepts in Hm as (s'' & A & _).
  unfold TRANSACTIONS_FROM_RE in A. inv_seq.
  match goal with H : accepts (Grp _ _) _ _ _ _ _ _ |- _ =>
    apply accepts_grp_inv in H as (ds & cs0 & Hd & E & _ & Ec) end.
  inv_rep. simpl within in *.
  repeat match goal with
         | H : ?x ++ ?r = ?y ++ ?r |- _ => apply app_inv_tail in H
         end.
  subst. rewrite Ec. cbn [group String.eqb Ascii.eqb Bool.eqb].
  match goal with
  | Hb : forallb dot ?b = true |- year_header (_ ++ _ ++ ?b ++ _ ++ ?d ++ ?c) _ =>
      exists pre, b, c; repeat split; trivial; lia
  end.
Qed.

(** A page with a header makes the search succeed. *)
Lemma search_year_complete (t ds : str) :
  year_header t ds -> search TRANSACTIONS_FROM_RE t <> None.
Proof.
  intros (a & b & c & -> & Hb & Hd & Hlen).
  unfold search. apply SearchFacts.search_from_complete.
  eapply SearchFacts.accepts_match_at. unfold TRANSACTIONS_FROM_RE.
  eapply acc_seq; [apply acc_lit|].
  eapply acc_seq; [apply acc_rep; [exact Hb|lia|exact I]|].
  eapply acc_seq; [apply acc_lit|].
  apply accepts_grp_intro. apply acc_rep; [exact Hd|lia|simpl; lia].
Qed.

Lemma search_year_none (t : str) :
  search TRANSACTIONS_FROM_RE t = None <-> forall ds, ~ year_header t ds.
Proof.
  split.
  - intros H ds Hh. now apply search_year_complete in Hh.
  - intros H. destruct (search TRANSACTIONS_FROM_RE t) as [m|] eqn:E;
      [|reflexivity].
    exfalso. exact (H _ (search_year_sound t m E)).
Qed.

(** The year of a header is a number of at most four digits. *)
Lemma header_year (t ds : str) :
  year_header t ds ->
  exists y, Num.nat_literal ds = Some y /\ (0 <= y <= 9999)%Z.
Proof.
  intros (_ & _ & _ & _ & _ & Hd & Hlen).
  destruct (nat_literal_bound ds Hd) as (y & E & Hy).
  - intros ->. discriminate.
  - exists y. split; [exact E|]. rewrite Hlen in Hy.
    change (10 ^ Z.of_nat 4)%Z with 10000%Z in Hy. lia.
Qed.

(** Without a header on any page the year is the one of the clock. *)
Lemma extract_year_clock (now_year : Z) (pages : list str) :
  (forall t, In t pages -> search TRANSACTIONS_FROM_RE t = None) ->
  _extract_year now_year pages = now_year.
Proof.
  induction pages as [|t pages IH]; intros H; [reflexivity|].
  simpl. rewrite (H t) by now left. apply IH. intros t' Hin. apply H. now right.
Qed.

(** The first page with a header decides the year. *)
Lemma extract_year_header (now_year : Z) (before after : list str)
    (t : str) (m : mobj) (y : Z) :
  (forall t', In t' before -> search TRANSACTIONS_FROM_RE t' = None) ->
  search TRANSACTIONS_FROM_RE t = Some m ->
  Num.nat_literal (group "1" (m_caps m)) = Some y ->
  _extract_year now_year (before ++ t :: after) = y.
Proof.
  intros Hb Hm Hy. induction before as [|t' before IH]; simpl.
  - now rewrite Hm, Hy.
  - rewrite (Hb t') by now left. apply IH. intros t0 H0. apply Hb. now right.
Qed.

(** The two ways [_extract_year] ends. *)
Lemma extract_year_cases (pages : list str) :
  (forall t, In t pages -> search TRANSACTIONS_FROM_RE t = None) \/
  exists before t after m y,
    pages = before ++ t :: after /\
    (forall t', In t' before -> search TRANSACTIONS_FROM_RE t' = None) /\
    search TRANSACTIONS_FROM_RE t = Some m /\
    Num.nat_literal (group "1" (m_caps m)) = Some y /\ (0 <= y <= 9999)%Z.
Proof.
  induction pages as [|t pages IH].
  - left. intros t [].
  - destruct (search TRANSACTIONS_FROM_RE t) as [m|] eqn:E.
    + right. destruct (header_year _ _ (search_year_sound t m E)) as (y & Ey & Hy).
      exists [], t, pages, m, y. repeat split; trivial; try lia.
      intros t' [].
    + destruct IH as [IH | (before & t0 & after & m & y & -> & Hb & Hm & Ey & Hy)].
      * left. intros t' [<- | Hin]; [exact E | now apply IH].
      * right. exists (t :: before), t0, after, m, y.
        repeat split; trivial; try lia.
        intros t' [<- | Hin]; [exact E | now apply Hb].
Qed.

End YearFacts.

(** ** The dates of the rows *)

Module DateMore.
Import Py PySpec PyFacts Re RowSpec RowFacts SplitFacts Calendar DateFacts YearFacts.

(** The parts of a date token: the month it names and the value of its
    day. *)
Lemma date_token_parts (td : str) :
  date_token td ->
  exists mon ws day m d,
    td = lit mon ++ ws ++ day /\ In mon months /\ spaces ws /\
    forallb isdigit day = true /\ 1 <= length day <= 2 /\
    strptime_b (lit mon) = Some m /\ (1 <= m <= 12)%Z /\
    Num.nat_literal day = Some d /\ (0 <= d <= 99)%Z.
Proof.
  intros (mon & ws & day & -> & Hmon & Hws & Hday & Hlen).
  destruct (month_number mon Hmon) as (m & Hm & Hmr).
  destruct (nat_literal_bound day Hday) as (d & Hd & Hdr).
  - intros ->. simpl in Hlen. lia.
  - exists mon, ws, day, m, d.
    repeat match goal with |- _ /\ _ => split end; trivial; try lia.
    assert (10 ^ Z.of_nat (length day) <= 100)%Z.
    { destruct day as [|? [|? [|? ?]]]; simpl in Hlen; try lia;
        vm_compute; discriminate. }
    lia.
Qed.

(** A day 0 fails with the error of dateutil about the day. *)
Lemma normalize_date_zero (mon : string) (ws day : str) (m year : Z) :
  In mon months -> spaces ws -> forallb isdigit day = true ->
  length day <= 2 ->
  strptime_b (lit mon) = Some m -> Num.nat_literal day = Some 0%Z ->
  four_digit year ->
  _normalize_date (lit mon ++ ws ++ day) year =
    Raise (ParserError DAY_OUT_OF_RANGE
             ((lit mon ++ ws ++ day) ++ " " ++ Num.to_str year)).
Proof.
  intros Hmon Hws Hday Hlen Hm Hd Hy.
  assert (Hne : day <> []) by (intros ->; discriminate).
  pose proof (strptime_b_range _ _ Hm) as Hmr.
  pose proof (monthrange_pos year m) as Hdim.
  unfold _normalize_date.
  rewrite (parse_date_year mon ws day m 0%Z year) by assumption.
  rewrite mk_datetime_bad_day by (trivial; lia).
  cbn [exn_str].
  replace (contains (DAY_OUT_OF_RANGE ++ ": " ++ _) DAY_OUT_OF_RANGE) with true
    by (symmetry; apply contains_iff; exists []; eexists; reflexivity).
  destruct (split_date_year mon ws day year Hmon Hws Hday Hne Hy) as [_ ->].
  rewrite Hm, int_digits, Hd by assumption. cbv zeta.
  rewrite Z.min_l by lia. now rewrite mk_datetime_bad_day by (trivial; lia).
Qed.

(** What normalisation makes of a date token of the row grammar. *)
Lemma normalize_date_token (td : str) (year : Z) :
  date_token td -> four_digit year ->
  exists mon ws day m d,
    td = lit mon ++ ws ++ day /\ In mon months /\
    strptime_b (lit mon) = Some m /\ (1 <= m <= 12)%Z /\
    Num.nat_literal day = Some d /\ (0 <= d <= 99)%Z /\
    _normalize_date td year =
      if (1 <=? d)%Z
      then Ok {| dt_year := year; dt_month := m;
                 dt_day := Z.min d (monthrange year m) |}
      else Raise (ParserError DAY_OUT_OF_RANGE (td ++ " " ++ Num.to_str year)).
Proof.
  intros Htd Hy.
  destruct (date_token_parts td Htd)
    as (mon & ws & day & m & d & -> & Hmon & Hws & Hday & Hlen & Hm & Hmr & Hd & Hdr).
  exists mon, ws, day, m, d.
  repeat match goal with |- _ /\ _ => split end; trivial; try lia.
  destruct (normalize_date_spec mon ws day m d year) as [Hin Hout]; trivial; try lia.
  destruct (Z.leb_spec 1 d).
  - destruct (Z.le_gt_cases d (monthrange year m)).
    + rewrite Z.min_l by lia. apply Hin. lia.
    + rewrite Z.min_r by lia. apply Hout. lia.
  - assert (d = 0%Z) by lia. subst d.
    apply (normalize_date_zero mon ws day m year); trivial; lia.
Qed.

(** A date that normalises lies in the year it was given and in the
    month the token names, on a day the month has. *)
Lemma normalize_date_in_year (td : str) (year : Z) (dt : datetime) :
  date_token td -> four_digit year -> _normalize_date td year = Ok dt ->
  dt_year dt = year /\ (1 <= dt_month dt <= 12)%Z /\
  (1 <= dt_day dt <= monthrange year (dt_month dt))%Z.
Proof.
  intros Htd Hy H.
  destruct (normalize_date_token td year Htd Hy)
    as (mon & ws & day & m & d & _ & _ & _ & Hmr & _ & Hdr & E).
  rewrite E in H. destruct (Z.leb_spec 1 d); [|discriminate].
  injection H as <-. cbn [dt_year dt_month dt_day].
  pose proof (monthrange_pos year m). repeat split; lia.
Qed.

(** The date groups of a matched line are date tokens. *)
Lemma row_dates (line : str) (m : mobj) :
  rematch ROW_RE line = Some m ->
  date_token (group "tdate" (m_caps m)) /\
  date_token (group "pdate" (m_caps m)).
Proof.
  intros H. apply row_match_inv in H
    as (td & pd & body & tail & amt & (ws1 & ws2 & _ & Htd & _ & Hpd & _) & -> & _).
  now split.
Qed.

End DateMore.

(** ** The province at the end of a description *)

Module ProvinceFacts.
Import Py PySpec PyFacts Re ReSpec ReFacts RowSpec RowFacts.
Import CaseFacts TidyFacts NoiseFacts CityFacts LocationFacts.

Lemma firstn_length_app {A} (p t : list A) : firstn (length p) (p ++ t) = p.
Proof.
  rewrite firstn_app, Nat.sub_diag, firstn_all. simpl. apply app_nil_r.
Qed.

Lemma line_end_space (e : str) : line_end e -> forallb isspace e = true.
Proof. intros [-> | ->]; reflexivity. Qed.

(** What the pattern of a province at the end matches. *)
Lemma accepts_tail_province_inv i s cs i' s' cs' :
  accepts TAIL_PROVINCE_RE i s cs i' s' cs' ->
  exists prov ws,
    In prov PROVINCE_CODES /\ s = lit prov ++ ws /\
    forallb isspace ws = true /\ cs' = ("1"%string, lit prov) :: cs.
Proof.
  intros H. unfold TAIL_PROVINCE_RE, PROVINCE_RE in H. inv_seq.
  match goal with H : accepts (Grp _ _) _ _ _ _ _ _ |- _ =>
    apply accepts_grp_inv in H as (w & cs0 & Hw & E & _ & Ec) end.
  apply (accepts_alts_inv PROVINCE_CODES) in Hw
    as (prov & Hin & Ew & _ & ->); [|discriminate].
  apply app_inv_tail in Ew. subst w.
  inv_rep. subst.
  match goal with
  | Hws : forallb isspace ?ws = true, He : ?e = [] \/ ?e = _ |- _ =>
      exists prov, (ws ++ e); repeat split; trivial;
        rewrite forallb_app, Hws; now apply line_end_space
  end.
Qed.

Lemma accepts_tail_province_intro (prov : string) (ws : str) i cs :
  In prov PROVINCE_CODES -> forallb isspace ws = true ->
  accepts TAIL_PROVINCE_RE i (lit prov ++ ws) cs
    (i + length (lit prov) + length ws) [] (("1"%string, lit prov) :: cs).
Proof.
  intros Hin Hws. unfold TAIL_PROVINCE_RE, PROVINCE_RE.
  eapply acc_seq; [apply accepts_grp_intro; now apply accepts_alts_intro|].
  rewrite <- (app_nil_r ws) at 1.
  eapply acc_seq; [apply acc_rep; [exact Hws|lia|exact I]|].
  apply acc_eol. now left.
Qed.

(** A province code is two capital letters. *)
Lemma province_code (prov : string) :
  In prov PROVINCE_CODES ->
  exists a b, lit prov = [a; b] /\ isspace a = false /\ isspace b = false /\
              isupper a = true /\ isupper b = true.
Proof.
  intros H. simpl in H.
  repeat (destruct H as [<- | H];
          [eexists; eexists; repeat split; reflexivity|]).
  destruct H.
Qed.

Lemma province_listed (prov : string) :
  In prov PROVINCE_CODES -> In (lit prov) PROVINCES.
Proof. intros H. unfold PROVINCES. now apply in_map. Qed.

(** What a successful search of one of the three patterns says of the
    text: [sep] is what the pattern wants before the province. *)
Lemma search_province (r : regex) (U : str) (m : mobj) :
  search (r ;; TAIL_PROVINCE_RE)%re U = Some m ->
  (forall i s cs i' s' cs', accepts r i s cs i' s' cs' -> cs' = cs) ->
  exists pre sep prov ws,
    U = pre ++ sep ++ lit prov ++ ws /\ m_start m = length pre /\
    (exists cs', accepts r (length pre) (sep ++ lit prov ++ ws) []
                      (length pre + length sep) (lit prov ++ ws) cs') /\
    In prov PROVINCE_CODES /\ forallb isspace ws = true /\
    group "1" (m_caps m) = lit prov.
Proof.
  unfold search. intros H Hcs.
  apply SearchFacts.search_from_sound in H as (pre & s' & -> & Hm & _).
  apply SearchFacts.match_at_accepts in Hm as (s'' & A & Hstart).
  inv A.
  match goal with H : accepts r _ _ _ _ _ _ |- _ =>
    pose proof (accepts_consumes _ _ _ _ _ _ _ H) as (sep & Es & Ei);
    pose proof (Hcs _ _ _ _ _ _ H) as Ecs end.
  subst.
  match goal with H : accepts TAIL_PROVINCE_RE _ _ _ _ _ _ |- _ =>
    apply accepts_tail_province_inv in H as (prov & ws & Hin & -> & Hws & Ec) end.
  exists pre, sep, prov, ws. repeat split; trivial.
  - eexists. eassumption.
  - rewrite Ec. reflexivity.
Qed.

Lemma cls_keeps_caps (c : ascii -> bool) i s cs i' s' cs' :
  accepts (Cls c) i s cs i' s' cs' -> cs' = cs.
Proof. intros H. now inv H. Qed.

Lemma lit_keeps_caps (l : str) i s cs i' s' cs' :
  accepts (Lit l) i s cs i' s' cs' -> cs' = cs.
Proof. intros H. now inv H. Qed.

(** The province a strategy finds stands at the end of the text, before
    whitespace at most, and the match starts where the separator does. *)
Lemma space_province_inv (U : str) (m : mobj) :
  space_province U = Some m ->
  exists pre c prov ws,
    U = pre ++ [c] ++ lit prov ++ ws /\ m_start m = length pre /\
    isspace c = true /\ In prov PROVINCE_CODES /\
    forallb isspace ws = true /\ group "1" (m_caps m) = lit prov.
Proof.
  unfold space_province. intros H.
  apply (search_province (Cls isspace)) in H
    as (pre & sep & prov & ws & -> & Hs & (cs' & A) & Hin & Hws & Hg);
    [|apply cls_keeps_caps].
  inv A.
  match goal with Hc : isspace ?a = true |- _ =>
    exists pre, a, prov, ws; repeat split; trivial end.
Qed.

Lemma hyphen_province_inv (U : str) (m : mobj) :
  hyphen_province U = Some m ->
  exists pre prov ws,
    U = pre ++ "-" ++ lit prov ++ ws /\ m_start m = length pre /\
    In prov PROVINCE_CODES /\
    forallb isspace ws = true /\ group "1" (m_caps m) = lit prov.
Proof.
  unfold hyphen_province. intros H.
  apply (search_province (Lit "-")) in H
    as (pre & sep & prov & ws & -> & Hs & (cs' & A) & Hin & Hws & Hg);
    [|apply lit_keeps_caps].
  inv A.
  match goal with H : _ = sep ++ ?r |- _ =>
    change (["-"%char] ++ r = sep ++ r) in H; apply app_inv_tail in H;
    subst sep end.
  exists pre, prov, ws. repeat split; trivial.
Qed.

Lemma domain_province_inv (U : str) (m : mobj) :
  domain_province U = Some m ->
  existsb (contains U) DOMAIN_HINTS = true /\
  exists pre prov ws,
    U = pre ++ lit prov ++ ws /\ m_start m = length pre /\
    In prov PROVINCE_CODES /\
    forallb isspace ws = true /\ group "1" (m_caps m) = lit prov.
Proof.
  unfold domain_province.
  destruct (existsb (contains U) DOMAIN_HINTS); [|discriminate].
  intros H. split; [reflexivity|]. unfold search in H.
  apply SearchFacts.search_from_sound in H as (pre & s' & -> & Hm & _).
  apply SearchFacts.match_at_accepts in Hm as (s'' & A & Hstart).
  apply accepts_tail_province_inv in A as (prov & ws & Hin & -> & Hws & Ec).
  exists pre, prov, ws. repeat split; trivial. now rewrite Ec.
Qed.

Lemma detect_glued_inv (U : str) (provs : list string) (m : mobj)
    (prov mode : str) :
  detect_glued U provs = (Some m, prov, mode) ->
  exists p before gap,
    In p provs /\ prov = lit p /\ mode = lit "gluedcity" /\
    U = before ++ gap ++ lit p /\ forallb isspace gap = true /\
    m_start m = length before /\ group "1" (m_caps m) = lit p /\
    glued_city (_letters_only before) CITY_PATTERNS_NOSPACE = true.
Proof.
  induction provs as [|p provs IH]; cbn [detect_glued]; [discriminate|].
  cbv zeta. destruct (endswith U p) eqn:E.
  - destruct (glued_city _ CITY_PATTERNS_NOSPACE) eqn:G.
    + intros [= <- <- <-].
      apply endswith_drop_last in E.
      destruct (CategoryFacts.rstrip_split (drop_last (length (lit p)) U))
        as (gap & Eg & Hg).
      exists p, (rstrip (drop_last (length (lit p)) U)), gap.
      repeat split; trivial; [now left|].
      rewrite app_assoc, <- Eg. exact E.
    + intros H. destruct (IH H) as (p0 & b & g & Hin & ?).
      exists p0, b, g. split; [now right|assumption].
  - intros H. destruct (IH H) as (p0 & b & g & Hin & ?).
    exists p0, b, g. split; [now right|assumption].
Qed.

(** Whatever the strategy, a province that is found is one of the codes,
    it stands at the end of the text before whitespace at most, and the
    match starts before it. *)
Lemma detect_province_inv (U : str) (m : mobj) (prov mode : str) :
  _detect_province_suffix U = (Some m, prov, mode) ->
  In prov PROVINCES /\ In mode MODES /\ group "1" (m_caps m) = prov /\
  exists sep ws,
    U = firstn (m_start m) U ++ sep ++ prov ++ ws /\
    forallb isspace ws = true /\
    (forallb isspace sep = true \/ sep = lit "-").
Proof.
  unfold _detect_province_suffix.
  destruct (space_province U) as [m1|] eqn:E1.
  { intros [= <- <- <-].
    apply space_province_inv in E1
      as (pre & c & p & ws & E & Hs & Hc & Hin & Hws & Hg).
    rewrite Hg, Hs. repeat split; [now apply province_listed|simpl; tauto|].
    exists [c], ws. rewrite E at 2. rewrite firstn_length_app.
    repeat split; trivial. left. simpl. now rewrite Hc. }
  destruct (hyphen_province U) as [m2|] eqn:E2.
  { intros [= <- <- <-].
    apply hyphen_province_inv in E2 as (pre & p & ws & E & Hs & Hin & Hws & Hg).
    rewrite Hg, Hs. repeat split; [now apply province_listed|simpl; tauto|].
    exists (lit "-"), ws. rewrite E at 2. rewrite firstn_length_app.
    repeat split; trivial. now right. }
  destruct (domain_province U) as [m3|] eqn:E3.
  { intros [= <- <- <-].
    apply domain_province_inv in E3
      as (_ & pre & p & ws & E & Hs & Hin & Hws & Hg).
    rewrite Hg, Hs. repeat split; [now apply province_listed|simpl; tauto|].
    exists [], ws. rewrite E at 2. rewrite firstn_length_app.
    repeat split; trivial. now left. }
  intros H. unfold glued_province in H.
  apply detect_glued_inv in H
    as (p & before & gap & Hin & -> & -> & E & Hgap & Hs & Hg & _).
  rewrite Hs. repeat split; trivial; [now apply province_listed|simpl; tauto|].
  exists gap, []. rewrite E at 2. rewrite firstn_length_app, app_nil_r.
  repeat split; trivial. now left.
Qed.

Lemma detect_province_none (U : str) (prov mode : str) :
  _detect_province_suffix U = (None, prov, mode) -> prov = [] /\ mode = [].
Proof.
  unfold _detect_province_suffix.
  destruct (space_province U); [discriminate|].
  destruct (hyphen_province U); [discriminate|].
  destruct (domain_province U); [discriminate|].
  intros H. unfold glued_province in H.
  pose proof (detect_glued_none U PROVINCE_CODES) as Hn. rewrite H in Hn.
  specialize (Hn eq_refl). now injection Hn as -> ->.
Qed.

End ProvinceFacts.

(** ** The whitespace strategy finds what is there *)

Module SpaceFacts.
Import Py PySpec PyFacts Re ReSpec ReFacts RowSpec RowFacts.
Import CaseFacts TidyFacts NoiseFacts CityFacts LocationFacts ProvinceFacts.

Lemma lstrip_app_space (g s : str) :
  forallb isspace g = true -> lstrip (g ++ s) = lstrip s.
Proof.
  induction g as [|a g IH]; [reflexivity|]. simpl. intros H.
  apply andb_true_iff in H as [-> H]. now apply IH.
Qed.

Lemma rstrip_app_space (s g : str) :
  forallb isspace g = true -> rstrip (s ++ g) = rstrip s.
Proof.
  intros H. unfold rstrip. rewrite rev_app_distr, lstrip_app_space; trivial.
  now rewrite forallb_rev.
Qed.

(** A stripped text has no whitespace at its end. *)
Lemma strip_trailing (line y ws : str) :
  strip line = y ++ ws -> forallb isspace ws = true -> ws = [].
Proof.
  intros E Hws. destruct ws as [|a ws] using rev_ind; [reflexivity|]. exfalso.
  rewrite forallb_app in Hws. apply andb_true_iff in Hws as [_ Ha].
  simpl in Ha. rewrite andb_true_r in Ha.
  unfold strip in E.
  destruct (rstrip_nil_or_last (lstrip line)) as [H | (z & b & H & Hb)];
    rewrite H in E.
  - destruct y; [destruct ws|]; discriminate.
  - rewrite app_assoc in E. apply app_inj_tail in E as [_ ->]. congruence.
Qed.

(** The text with a province after a whitespace character, cut at its
    last character that is no whitespace. *)
Lemma rstrip_province (pre : str) (c : ascii) (prov : string) (ws : str) :
  In prov PROVINCE_CODES -> forallb isspace ws = true ->
  rstrip (pre ++ [c] ++ lit prov ++ ws) = pre ++ [c] ++ lit prov.
Proof.
  intros Hin Hws.
  destruct (province_code prov Hin) as (a & b & E & _ & Hb & _).
  rewrite !app_assoc. rewrite rstrip_app_space by exact Hws.
  rewrite E. change [a; b] with ([a] ++ [b]). rewrite !app_assoc.
  now apply rstrip_last.
Qed.

Lemma space_province_found (pre : str) (c : ascii) (prov : string) (ws : str) :
  isspace c = true -> In prov PROVINCE_CODES -> forallb isspace ws = true ->
  exists m, space_province (pre ++ [c] ++ lit prov ++ ws) = Some m /\
            m_start m = length pre /\ group "1" (m_caps m) = lit prov.
Proof.
  intros Hc Hin Hws.
  destruct (space_province (pre ++ [c] ++ lit prov ++ ws)) as [m|] eqn:E.
  - exists m. split; [reflexivity|].
    apply space_province_inv in E
      as (pre' & c' & prov' & ws' & E & Hs & Hc' & Hin' & Hws' & Hg).
    apply (f_equal rstrip) in E.
    rewrite !rstrip_province in E by assumption.
    destruct (province_code prov Hin) as (a & b & Ep & _).
    destruct (province_code prov' Hin') as (a' & b' & Ep' & _).
    rewrite Ep, Ep' in E. rewrite Hs, Hg, Ep, Ep'.
    change (pre ++ [c] ++ [a; b]) with (pre ++ [c] ++ [a] ++ [b]) in E.
    change (pre' ++ [c'] ++ [a'; b']) with (pre' ++ [c'] ++ [a'] ++ [b']) in E.
    rewrite !app_assoc in E.
    apply app_inj_tail in E as [E ->]. apply app_inj_tail in E as [E ->].
    apply app_inj_tail in E as [-> _]. now split.
  - exfalso. revert E. unfold space_province, search.
    apply SearchFacts.search_from_complete.
    eapply SearchFacts.accepts_match_at. unfold SPACE_PROVINCE_RE.
    eapply acc_seq; [now apply acc_cls|].
    now apply accepts_tail_province_intro.
Qed.

End SpaceFacts.

(** ** The location of a description *)

Module PlaceFacts.
Import Py PySpec PyFacts Re ReSpec ReFacts RowSpec RowFacts.
Import CaseFacts TidyFacts NameFacts NoiseFacts CityFacts LocationFacts.
Import ProvinceFacts SpaceFacts.

(** Descriptions with one upper-cased and stripped form have one
    location. *)
Lemma extract_location_form (d1 d2 : str) :
  strip (upper d1) = strip (upper d2) ->
  _extract_location d1 = _extract_location d2.
Proof. intros H. unfold _extract_location. now rewrite H. Qed.

Lemma extract_location_upper (desc : str) :
  _extract_location (upper desc) = _extract_location desc.
Proof. apply extract_location_form. now rewrite upper_idem. Qed.

Lemma extract_location_lower (desc : str) :
  _extract_location (lower desc) = _extract_location desc.
Proof. apply extract_location_form. now rewrite upper_lower. Qed.

Lemma extract_location_strip (desc : str) :
  _extract_location (strip desc) = _extract_location desc.
Proof.
  apply extract_location_form. now rewrite <- upper_strip, strip_idem.
Qed.

Lemma extract_location_pad (g1 g2 desc : str) :
  forallb isspace g1 = true -> forallb isspace g2 = true ->
  _extract_location (g1 ++ desc ++ g2) = _extract_location desc.
Proof.
  intros H1 H2. apply extract_location_form.
  rewrite !upper_strip. f_equal. unfold strip.
  rewrite lstrip_app_space by exact H1.
  destruct (lstrip_nil_or_head desc) as [E | (a & x & E & Ha)].
  - destruct (CategoryFacts.lstrip_split desc) as (g & Eg & Hg).
    rewrite E, app_nil_r in Eg. subst desc.
    rewrite lstrip_app_space by exact Hg. rewrite E.
    destruct (CategoryFacts.lstrip_split g2) as (g' & Eg' & Hg').
    destruct (lstrip_nil_or_head g2) as [-> | (b & y & Eb & Hb)]; [reflexivity|].
    exfalso. rewrite Eb in Eg'. rewrite Eg' in H2.
    rewrite forallb_app in H2. apply andb_true_iff in H2 as [_ H2].
    simpl in H2. rewrite Hb in H2. discriminate.
  - destruct (CategoryFacts.lstrip_split desc) as (g & Eg & Hg).
    rewrite Eg at 1. rewrite <- app_assoc.
    rewrite lstrip_app_space by exact Hg.
    rewrite E. cbn [app]. rewrite lstrip_head by exact Ha.
    rewrite app_comm_cons. now apply rstrip_app_space.
Qed.

(** The province of a location. *)
Lemma extract_location_province (desc : str) :
  let '(loc, city, prov) := _extract_location desc in
  (prov = [] /\ loc = [] /\ city = []) \/
  (In prov PROVINCES /\ endswith (strip (upper desc)) prov = true).
Proof.
  pose proof (extract_location_cases desc) as H. cbv zeta in H.
  destruct (_detect_province_suffix (strip (upper desc)))
    as [[[m|] prov] mode] eqn:E.
  - apply detect_province_inv in E
      as (Hin & _ & _ & sep & ws & EU & Hws & _).
    assert (ws = []) as ->.
    { apply (strip_trailing (upper desc)
               (firstn (m_start m) (strip (upper desc)) ++ sep ++ prov)); trivial.
      now rewrite <- !app_assoc. }
    rewrite app_nil_r in EU.
    assert (Hend : endswith (strip (upper desc)) prov = true).
    { apply endswith_iff. eexists. rewrite app_assoc in EU. exact EU. }
    destruct H as [(_ & _ & ->) | (_ & ->)]; right; now split.
  - rewrite H. left. now repeat split.
Qed.

(** The words the token heuristics build cities from are capital
    letters. *)
Lemma upper_word_inv (tok : str) :
  word tok -> is_some (rematch UPPER_WORD_RE tok) = true ->
  forallb isupper tok = true.
Proof.
  intros [_ Hw] H. apply rematch_accepts in H as (i' & s' & cs' & A).
  unfold UPPER_WORD_RE in A. inv_seq. inv_rep. subst.
  match goal with
  | Hu : forallb isupper ?w = true, He : ?e = [] \/ ?e = _ |- _ =>
      destruct He as [-> | ->];
        [now rewrite app_nil_r
        |rewrite forallb_app in Hw; apply andb_true_iff in Hw as [_ Hw];
         discriminate]
  end.
Qed.

(** A candidate the way the final tidy leaves it alone: its own
    upper-cased normal form. *)
Lemma loud_word (w : str) :
  word w -> forallb isupper w = true -> upper (squeeze w) = w.
Proof.
  intros Hw Hu.
  replace (squeeze w) with w
    by (symmetry; apply (squeeze_join [w]);
        apply Forall_cons; [exact Hw|apply Forall_nil]).
  now apply filter_isupper_upper.
Qed.

Lemma loud_pair (w1 w2 : str) :
  word w1 -> forallb isupper w1 = true ->
  word w2 -> forallb isupper w2 = true ->
  upper (squeeze (w1 ++ " " ++ w2)) = w1 ++ " " ++ w2.
Proof.
  intros Hw1 Hu1 Hw2 Hu2.
  replace (squeeze (w1 ++ " " ++ w2)) with (w1 ++ " " ++ w2)
    by (symmetry; apply (squeeze_join [w1; w2]);
        apply Forall_cons; [exact Hw1|apply Forall_cons; [exact Hw2|apply Forall_nil]]).
  rewrite !upper_app.
  now rewrite (filter_isupper_upper w1 Hu1), (filter_isupper_upper w2 Hu2).
Qed.

Lemma loud_cities (pat : str) :
  In pat CITY_PATTERNS_SORTED -> upper (squeeze pat) = pat.
Proof.
  assert (H : forallb (fun p => str_eqb (upper (squeeze p)) p)
                CITY_PATTERNS_SORTED = true) by (vm_compute; reflexivity).
  rewrite forallb_forall in H. intros Hin. now apply str_eqb_eq, H.
Qed.

Lemma joiners_upper (w : str) :
  mem w JOINERS = true -> forallb isupper w = true.
Proof.
  intros H. apply mem_In in H. simpl in H.
  repeat (destruct H as [<- | H]; [reflexivity|]). destruct H.
Qed.

Lemma pick_city_loud (toks : list str) :
  Forall word toks ->
  upper (squeeze (pick_city_from_tokens toks)) = pick_city_from_tokens toks.
Proof.
  intros Hw. unfold pick_city_from_tokens.
  assert (Hrev : Forall word (rev toks)) by now apply Forall_rev.
  destruct (rev toks) as [|last_tok rest]; [reflexivity|].
  inversion Hrev as [|? ? Hlast Hrest]; subst.
  assert (Hcase : forall c,
    (if negb (mem last_tok STOP) && is_some (Re.rematch UPPER_WORD_RE last_tok)
     then if length last_tok <? 3 then []
          else match city_in_token last_tok
                       (combine CITY_PATTERNS_SORTED CITY_PATTERNS_NOSPACE) with
               | Some pat => pat
               | None => last_tok
               end
     else []) = c -> upper (squeeze c) = c).
  { intros c <-.
    destruct (negb (mem last_tok STOP)); [|reflexivity]. cbn [andb].
    destruct (is_some (Re.rematch UPPER_WORD_RE last_tok)) eqn:Eu; [|reflexivity].
    destruct (length last_tok <? 3); [reflexivity|].
    destruct (city_in_token _ _) as [pat|] eqn:E.
    - apply loud_cities. apply city_in_token_In in E.
      now apply combine_fst_In in E.
    - apply loud_word; trivial. now apply upper_word_inv. }
  destruct rest as [|before rest'].
  - now apply Hcase.
  - destruct (mem last_tok JOINERS) eqn:Ej; cbn [andb]; [|now apply Hcase].
    destruct (is_some (Re.rematch UPPER_WORD_RE before)) eqn:Eb;
      [|now apply Hcase].
    inversion Hrest as [|? ? Hbefore _]; subst.
    apply loud_pair; trivial.
    + now apply upper_word_inv.
    + now apply joiners_upper.
Qed.

Lemma candidate_city_loud (tail_alpha prov mode : str) :
  upper (squeeze (candidate_city tail_alpha prov mode))
    = candidate_city tail_alpha prov mode.
Proof.
  unfold candidate_city.
  set (c0 := token_city tail_alpha mode).
  assert (H0 : upper (squeeze c0) = c0).
  { unfold c0, token_city. destruct (str_eqb mode "domain"); [reflexivity|].
    apply pick_city_loud, split_words. }
  set (c1 := if unusable c0
             then match scan_city tail_alpha CITY_PATTERNS_SORTED with
                  | Some pat => pat
                  | None => c0
                  end
             else c0).
  assert (H1 : upper (squeeze c1) = c1).
  { unfold c1. destruct (unusable c0); [|exact H0].
    destruct (scan_city _ _) as [pat|] eqn:E; [|exact H0].
    apply loud_cities. now apply scan_city_Some in E. }
  destruct (negb (truthy c1) && str_eqb prov "NS" && contains tail_alpha "HALIFAX").
  - reflexivity.
  - exact H1.
Qed.

(** The city of a location is no stop word, and it is in normal form. *)
Lemma extract_location_city (desc : str) :
  let '(loc, city, prov) := _extract_location desc in city_ok city.
Proof.
  pose proof (extract_location_cases desc) as H. cbv zeta in H.
  destruct (_detect_province_suffix (strip (upper desc)))
    as [[[m|] prov] mode].
  - destruct H as [(_ & Hs & ->) | (_ & ->)]; [|now left].
    right. split.
    + now rewrite normalize_city_upper, candidate_city_loud.
    + apply normalize_city_idem.
  - rewrite H. now left.
Qed.

End PlaceFacts.

(** ** Which strategy finds the province *)

Module PriorityFacts.
Import Py PySpec PyFacts Re ReSpec ReFacts RowSpec RowFacts.
Import CaseFacts TidyFacts NoiseFacts CityFacts LocationFacts.
Import ProvinceFacts SpaceFacts.

Lemma last_is_snoc (c : ascii -> bool) (x : str) (a : ascii) :
  last_is c (x ++ [a]) = c a.
Proof. unfold last_is. now rewrite rev_unit. Qed.

Lemma rstrip_keeps (s : str) : last_is isspace s = false -> rstrip s = s.
Proof.
  unfold last_is, rstrip. intros H.
  destruct (rev s) as [|a r] eqn:E.
  - apply (f_equal (@rev _)) in E. rewrite rev_involutive in E. now subst.
  - simpl. rewrite H. rewrite <- E. apply rev_involutive.
Qed.

(** The text with a province at its end, cut at its last character that
    is no whitespace. *)
Lemma rstrip_code (x : str) (prov : string) (ws : str) :
  In prov PROVINCE_CODES -> forallb isspace ws = true ->
  rstrip (x ++ lit prov ++ ws) = x ++ lit prov.
Proof.
  intros Hin Hws.
  destruct (province_code prov Hin) as (a & b & E & _ & Hb & _).
  rewrite !app_assoc. rewrite rstrip_app_space by exact Hws.
  rewrite E. change [a; b] with ([a] ++ [b]). rewrite !app_assoc.
  now apply rstrip_last.
Qed.

(** Two readings of one text as something and a province are one. *)
Lemma code_unique (x x' : str) (prov prov' : string) :
  In prov PROVINCE_CODES -> In prov' PROVINCE_CODES ->
  x ++ lit prov = x' ++ lit prov' -> x = x' /\ lit prov = lit prov'.
Proof.
  intros Hin Hin' E.
  destruct (province_code prov Hin) as (a & b & Ep & _).
  destruct (province_code prov' Hin') as (a' & b' & Ep' & _).
  rewrite Ep, Ep' in *.
  change [a; b] with ([a] ++ [b]) in E.
  change [a'; b'] with ([a'] ++ [b']) in E.
  rewrite !app_assoc in E.
  apply app_inj_tail in E as [E ->]. apply app_inj_tail in E as [-> ->].
  now split.
Qed.

(** Without whitespace before the province the first strategy finds
    nothing. *)
Lemma space_province_none (pre : str) (prov : string) (ws : str) :
  In prov PROVINCE_CODES -> forallb isspace ws = true ->
  last_is isspace pre = false ->
  space_province (pre ++ lit prov ++ ws) = None.
Proof.
  intros Hin Hws Hlast.
  destruct (space_province (pre ++ lit prov ++ ws)) as [m|] eqn:E;
    [|reflexivity].
  exfalso. apply space_province_inv in E
    as (pre' & c & prov' & ws' & E & _ & Hc & Hin' & Hws' & _).
  apply (f_equal rstrip) in E.
  rewrite rstrip_code, rstrip_province in E by assumption.
  rewrite app_assoc in E. apply code_unique in E as [-> _]; trivial.
  rewrite last_is_snoc in Hlast. congruence.
Qed.

Lemma hyphen_province_found (x : str) (prov : string) (ws : str) :
  In prov PROVINCE_CODES -> forallb isspace ws = true ->
  exists m, hyphen_province (x ++ "-" ++ lit prov ++ ws) = Some m /\
            m_start m = length x /\ group "1" (m_caps m) = lit prov.
Proof.
  intros Hin Hws.
  destruct (hyphen_province (x ++ "-" ++ lit prov ++ ws)) as [m|] eqn:E.
  - exists m. split; [reflexivity|].
    apply hyphen_province_inv in E
      as (x' & prov' & ws' & E & Hs & Hin' & Hws' & Hg).
    apply (f_equal rstrip) in E.
    change (x ++ "-" ++ lit prov ++ ws)
      with (x ++ ["-"%char] ++ lit prov ++ ws) in E.
    change (x' ++ "-" ++ lit prov' ++ ws')
      with (x' ++ ["-"%char] ++ lit prov' ++ ws') in E.
    rewrite !rstrip_province in E by assumption.
    rewrite !app_assoc in E. apply code_unique in E as [E Ep]; trivial.
    apply app_inj_tail in E as [-> _]. rewrite Hs, Hg. now split.
  - exfalso. revert E. unfold hyphen_province, search.
    apply SearchFacts.search_from_complete.
    eapply SearchFacts.accepts_match_at. unfold HYPHEN_PROVINCE_RE.
    eapply acc_seq; [apply acc_lit|].
    now apply accepts_tail_province_intro.
Qed.

Lemma hyphen_province_none (pre : str) (prov : string) (ws : str) :
  In prov PROVINCE_CODES -> forallb isspace ws = true ->
  endswith pre "-" = false ->
  hyphen_province (pre ++ lit prov ++ ws) = None.
Proof.
  intros Hin Hws Hlast.
  destruct (hyphen_province (pre ++ lit prov ++ ws)) as [m|] eqn:E;
    [|reflexivity].
  exfalso. apply hyphen_province_inv in E
    as (pre' & prov' & ws' & E & _ & Hin' & Hws' & _).
  apply (f_equal rstrip) in E.
  change (pre' ++ "-" ++ lit prov' ++ ws')
    with (pre' ++ ["-"%char] ++ lit prov' ++ ws') in E.
  rewrite rstrip_code, rstrip_province in E by assumption.
  rewrite app_assoc in E. apply code_unique in E as [-> _]; trivial.
  assert (endswith (pre' ++ ["-"%char]) "-" = true)
    by (apply endswith_iff; now exists pre').
  congruence.
Qed.

Lemma tail_province_found (pre : str) (prov : string) (ws : str) :
  In prov PROVINCE_CODES -> forallb isspace ws = true ->
  exists m, search TAIL_PROVINCE_RE (pre ++ lit prov ++ ws) = Some m /\
            m_start m = length pre /\ group "1" (m_caps m) = lit prov.
Proof.
  intros Hin Hws.
  destruct (search TAIL_PROVINCE_RE (pre ++ lit prov ++ ws)) as [m|] eqn:E.
  - exists m. split; [reflexivity|]. unfold search in E.
    apply SearchFacts.search_from_sound in E as (pre' & s' & E & Hm & _).
    apply SearchFacts.match_at_accepts in Hm as (s'' & A & Hs).
    apply accepts_tail_province_inv in A as (prov' & ws' & Hin' & -> & Hws' & Ec).
    apply (f_equal rstrip) in E. rewrite !rstrip_code in E by assumption.
    apply code_unique in E as [-> Ep]; trivial.
    rewrite Hs, Ec. cbn [group String.eqb Ascii.eqb Bool.eqb]. now split.
  - exfalso. revert E. unfold search.
    apply SearchFacts.search_from_complete.
    eapply SearchFacts.accepts_match_at.
    now apply accepts_tail_province_intro.
Qed.

(** The loop of the fourth strategy on a text that ends with a
    province. *)
Lemma endswith_code (pre : str) (prov p : string) :
  In prov PROVINCE_CODES -> In p PROVINCE_CODES ->
  endswith (pre ++ lit prov) p = true -> lit p = lit prov.
Proof.
  intros Hin Hp H. apply endswith_iff in H as [t E].
  apply code_unique in E as [_ E]; trivial. now symmetry.
Qed.

Lemma drop_last_code (pre : str) (prov : string) :
  drop_last (length (lit prov)) (pre ++ lit prov) = pre.
Proof.
  unfold drop_last. rewrite length_app, Nat.add_sub. apply firstn_length_app.
Qed.

Lemma detect_glued_code (pre : str) (prov : string) (provs : list string) :
  In prov PROVINCE_CODES -> (forall p, In p provs -> In p PROVINCE_CODES) ->
  In prov provs ->
  detect_glued (pre ++ lit prov) provs =
    if glued_city (_letters_only (rstrip pre)) CITY_PATTERNS_NOSPACE
    then (Some (_FakeMatch (length (rstrip pre)) (length (pre ++ lit prov))
                  (lit prov)),
          lit prov, lit "gluedcity")
    else (None, [], []).
Proof.
  intros Hin Hsub. induction provs as [|p provs IH]; intros Hp; [destruct Hp|].
  cbn [detect_glued]. cbv zeta.
  destruct (endswith (pre ++ lit prov) p) eqn:E.
  - apply endswith_code in E; trivial; [|apply Hsub; now left].
    rewrite E, drop_last_code.
    destruct (glued_city (_letters_only (rstrip pre)) CITY_PATTERNS_NOSPACE) eqn:G;
      [reflexivity|].
    assert (Hrest : forall l, (forall q, In q l -> In q PROVINCE_CODES) ->
              detect_glued (pre ++ lit prov) l = (None, [], [])).
    { clear - Hin G. induction l as [|q l IHl]; intros Hl; [reflexivity|].
      cbn [detect_glued]. cbv zeta.
      destruct (endswith (pre ++ lit prov) q) eqn:Eq.
      - apply endswith_code in Eq; trivial; [|apply Hl; now left].
        rewrite Eq, drop_last_code, G. apply IHl. intros q' Hq'. apply Hl.
        now right.
      - apply IHl. intros q' Hq'. apply Hl. now right. }
    apply Hrest. intros q Hq. apply Hsub. now right.
  - destruct Hp as [-> | Hp].
    + rewrite (proj2 (endswith_iff (pre ++ lit prov) (lit prov))) in E;
        [discriminate|now exists pre].
    + apply IH; trivial. intros q Hq. apply Hsub. now right.
Qed.

Lemma detect_glued_spaced (U : str) (provs : list string) :
  last_is isspace U = true ->
  (forall p, In p provs -> In p PROVINCE_CODES) ->
  detect_glued U provs = (None, [], []).
Proof.
  intros Hlast. induction provs as [|p provs IH]; intros Hsub; [reflexivity|].
  cbn [detect_glued]. cbv zeta.
  destruct (endswith U p) eqn:E.
  - exfalso. apply endswith_iff in E as [t ->].
    destruct (province_code p (Hsub p (or_introl eq_refl)))
      as (a & b & Ep & _ & Hb & _).
    rewrite Ep in Hlast. change [a; b] with ([a] ++ [b]) in Hlast.
    rewrite app_assoc, last_is_snoc in Hlast. congruence.
  - apply IH. intros q Hq. apply Hsub. now right.
Qed.

End PriorityFacts.

(** ** The merchant of a description *)

Module MerchantFacts.
Import Py PySpec PyFacts SplitFacts CaseFacts TidyFacts.

Lemma merchant_loop_none (toks : list str) : forall seen,
  merchant_loop seen toks = None <->
  forall t, In t toks -> mem (upper t) prov_tokens = false.
Proof.
  induction toks as [|t toks IH]; intros seen; cbn [merchant_loop].
  - split; [intros _ t [] | reflexivity].
  - destruct (mem (upper t) prov_tokens) eqn:E.
    + split; [discriminate|]. intros H. rewrite (H t) in E by now left.
      discriminate.
    + rewrite IH. split.
      * intros H u [<- | Hin]; [exact E | now apply H].
      * intros H u Hin. apply H. now right.
Qed.

(** The loop stops at the first token that is a province code, whatever
    its case, with the tokens before it. *)
Lemma merchant_loop_cut (pre : list str) (t : str) (post : list str) :
  forall seen,
  (forall u, In u pre -> mem (upper u) prov_tokens = false) ->
  mem (upper t) prov_tokens = true ->
  merchant_loop seen (pre ++ t :: post) = Some (strip (join " " (seen ++ pre))).
Proof.
  induction pre as [|u pre IH]; intros seen Hpre Ht; cbn [app merchant_loop].
  - now rewrite Ht, app_nil_r.
  - rewrite (Hpre u) by now left.
    rewrite IH; trivial.
    + now rewrite <- app_assoc.
    + intros v Hv. apply Hpre. now right.
Qed.

Lemma merchant_loop_some (toks : list str) : forall seen r,
  merchant_loop seen toks = Some r ->
  exists pre t post,
    toks = pre ++ t :: post /\
    (forall u, In u pre -> mem (upper u) prov_tokens = false) /\
    mem (upper t) prov_tokens = true /\
    r = strip (join " " (seen ++ pre)).
Proof.
  induction toks as [|t toks IH]; intros seen r; cbn [merchant_loop];
    [discriminate|].
  destruct (mem (upper t) prov_tokens) eqn:E.
  - intros [= <-]. exists [], t, toks. rewrite app_nil_r.
    repeat split; trivial. intros u [].
  - intros H. apply IH in H as (pre & t0 & post & -> & Hpre & Ht & ->).
    exists (t :: pre), t0, post. rewrite <- app_assoc. repeat split; trivial.
    intros u [<- | Hin]; [exact E | now apply Hpre].
Qed.

Lemma Forall_app_l {A} (P : A -> Prop) (l1 l2 : list A) :
  Forall P (l1 ++ l2) -> Forall P l1.
Proof. intros H. now apply Forall_app in H as [H _]. Qed.

(** The merchant is the text of the tokens before the first province
    code. *)
Lemma rough_merchant_cut (desc : str) (pre : list str) (t : str)
    (post : list str) :
  split desc = pre ++ t :: post ->
  (forall u, In u pre -> mem (upper u) prov_tokens = false) ->
  mem (upper t) prov_tokens = true ->
  rough_merchant desc = join " " pre.
Proof.
  intros E Hpre Ht. unfold rough_merchant.
  rewrite E, (merchant_loop_cut pre t post [] Hpre Ht). cbn [app].
  apply tidy_join. apply (Forall_app_l _ pre (t :: post)).
  rewrite <- E. apply split_words.
Qed.

Lemma rough_merchant_whole (desc : str) :
  (forall u, In u (split desc) -> mem (upper u) prov_tokens = false) ->
  rough_merchant desc = desc.
Proof.
  intros H. unfold rough_merchant.
  now rewrite (proj2 (merchant_loop_none (split desc) [])).
Qed.

(** The two ways [rough_merchant] ends. *)
Lemma rough_merchant_cases (desc : str) :
  ((forall u, In u (split desc) -> mem (upper u) prov_tokens = false) /\
   rough_merchant desc = desc) \/
  (exists pre t post,
     split desc = pre ++ t :: post /\
     (forall u, In u pre -> mem (upper u) prov_tokens = false) /\
     mem (upper t) prov_tokens = true /\
     Forall word pre /\
     rough_merchant desc = join " " pre).
Proof.
  destruct (merchant_loop [] (split desc)) as [r|] eqn:E.
  - right. apply merchant_loop_some in E as (pre & t & post & E & Hpre & Ht & _).
    exists pre, t, post. repeat split; trivial.
    + apply (Forall_app_l _ pre (t :: post)). rewrite <- E. apply split_words.
    + now apply (rough_merchant_cut desc pre t post).
  - left. pose proof (proj1 (merchant_loop_none (split desc) []) E) as Hn.
    split; [exact Hn|]. now apply rough_merchant_whole.
Qed.

(** No token of the merchant is a province code. *)
Lemma rough_merchant_clear (desc : str) (u : str) :
  In u (split (rough_merchant desc)) -> mem (upper u) prov_tokens = false.
Proof.
  destruct (rough_merchant_cases desc)
    as [[H ->] | (pre & t & post & _ & Hpre & _ & Hw & ->)].
  - apply H.
  - rewrite split_join by exact Hw. apply Hpre.
Qed.

Lemma rough_merchant_idem (desc : str) :
  rough_merchant (rough_merchant desc) = rough_merchant desc.
Proof.
  apply rough_merchant_whole. intros u. apply rough_merchant_clear.
Qed.

End MerchantFacts.

(** ** The records of a statement *)

Module RecordFacts.
Import Py PySpec PyFacts Re RowSpec RowFacts ScanFacts StatementFacts.
Import TidyFacts StepFacts CleanFacts FlagFacts DateMore CategoryFacts PlaceFacts.

(** The clean-up at the end of [_parse_pages_text] changes no record. *)
Lemma parse_pages_scan (now_year : Z) (pages : list str) :
  _parse_pages_text now_year pages =
    (st <- scan_pages (_extract_year now_year pages) initial_state pages ;;
     Ok (payments st, txns st)).
Proof.
  unfold _parse_pages_text.
  destruct (scan_pages (_extract_year now_year pages) initial_state pages)
    as [st|e] eqn:E; [|reflexivity].
  cbn [bind]. destruct (statement_tidy _ _ _ E) as [Hp Ht].
  rewrite (map_fix clean_payment payment_tidy) by (trivial; apply clean_payment_tidy).
  now rewrite (map_fix clean_txn txn_tidy) by (trivial; apply clean_txn_tidy).
Qed.

Lemma parse_pages_ok (now_year : Z) (pages : list str)
    (pays : list PaymentRow.t) (txs : list TransactionRow.t) :
  _parse_pages_text now_year pages = Ok (pays, txs) ->
  exists st,
    scan_pages (_extract_year now_year pages) initial_state pages = Ok st /\
    pays = payments st /\ txs = txns st.
Proof.
  rewrite parse_pages_scan.
  destruct (scan_pages _ initial_state pages) as [st|]; [|discriminate].
  cbn [bind]. intros [= <- <-]. now exists st.
Qed.

(** A property every row read from a line of the statement has is a
    property of every record of the tables. *)
Lemma parse_pages_rows (P : PaymentRow.t -> Prop) (T : TransactionRow.t -> Prop)
    (now_year : Z) (pages : list str)
    (pays : list PaymentRow.t) (txs : list TransactionRow.t) :
  (forall raw_line m d1 d2 q,
     In raw_line (statement_lines pages) ->
     row_read (_extract_year now_year pages) raw_line m d1 d2 q ->
     P (payment_row d1 d2 (group "body" (m_caps m)) q) /\
     T (transaction_row d1 d2 (group "body" (m_caps m)) q)) ->
  _parse_pages_text now_year pages = Ok (pays, txs) ->
  Forall P pays /\ Forall T txs.
Proof.
  intros Hrow H. apply parse_pages_ok in H as (st & Hst & -> & ->).
  now apply (statement_rows P T (_extract_year now_year pages) pages).
Qed.

Lemma find_category_known (body : str) :
  category_ok (fst (_find_category_and_desc body)).
Proof.
  unfold _find_category_and_desc, category_ok.
  destruct (first_suffix (squeeze body) KNOWN_CATEGORIES_SORTED) as [cat|] eqn:E;
    cbn [fst]; [|now left].
  right. apply first_suffix_Some in E as [Hin _]. now apply known_sorted_In.
Qed.

(** Whitespace without two characters in a row is one character at most. *)
Lemma narrow_gap (g : str) :
  forallb isspace g = true -> no_wide g = true -> length g <= 1.
Proof.
  destruct g as [|a [|b g]]; [simpl; lia | simpl; lia |].
  intros H Hw. exfalso. simpl in H.
  apply andb_true_iff in H as [Ha H]. apply andb_true_iff in H as [Hb _].
  rewrite no_wide_eq, Ha, Hb in Hw. discriminate.
Qed.

(** Category extraction loses nothing of the body: the description, one
    space at most and the label make the normalised body. *)
Lemma find_category_split (body : str) :
  let '(cat, desc) := _find_category_and_desc body in
  category_ok cat /\ tidy desc /\
  exists gap,
    squeeze body = desc ++ gap ++ cat /\
    forallb isspace gap = true /\ length gap <= 1 /\
    (cat = [] -> gap = []).
Proof.
  pose proof (find_category_known body) as Hk.
  pose proof (find_category_tidy body) as Ht.
  unfold _find_category_and_desc in *.
  destruct (first_suffix (squeeze body) KNOWN_CATEGORIES_SORTED) as [cat|] eqn:E;
    cbn [fst snd] in *.
  - split; [exact Hk|]. split; [exact Ht|].
    apply first_suffix_Some in E as [Hin Hend].
    destruct (rstrip_split (drop_last (length cat) (squeeze body)))
      as (gap & Eg & Hg).
    assert (Es : squeeze body = rstrip (drop_last (length cat) (squeeze body))
                                ++ gap ++ cat)
      by (rewrite app_assoc, <- Eg; now apply endswith_drop_last).
    exists gap. repeat split; trivial.
    + apply narrow_gap; trivial.
      destruct (tidy_squeeze body) as [_ Hw]. rewrite Es in Hw.
      apply no_wide_suffix in Hw. now apply no_wide_prefix in Hw.
    + intros ->. apply known_sorted_In in Hin. simpl in Hin.
      repeat (destruct Hin as [Hin | Hin]; [discriminate|]). destruct Hin.
  - split; [exact Hk|]. split; [exact Ht|].
    exists []. rewrite !app_nil_r. repeat split; trivial; simpl; lia.
Qed.

Lemma transaction_row_place (d1 d2 : datetime) (body : str) (q : Q) :
  let t := transaction_row d1 d2 body q in
  (TransactionRow.location t, TransactionRow.city t, TransactionRow.province t)
    = _extract_location (TransactionRow.description t).
Proof.
  unfold transaction_row. destruct (_find_category_and_desc body) as [cat desc].
  destruct (_extract_location desc) as [[loc city] prov] eqn:E.
  cbv zeta. cbn [TransactionRow.location TransactionRow.city
                 TransactionRow.province TransactionRow.description].
  now rewrite E.
Qed.

Lemma transaction_row_fields_ok (d1 d2 : datetime) (body : str) (q : Q) :
  txn_fields_ok (transaction_row d1 d2 body q).
Proof.
  unfold txn_fields_ok, txn_province_ok.
  rewrite transaction_row_category, transaction_row_source.
  pose proof (transaction_row_place d1 d2 body q) as Hp. cbv zeta in Hp.
  set (t := transaction_row d1 d2 body q) in *.
  pose proof (extract_location_province (TransactionRow.description t)) as H1.
  pose proof (extract_location_city (TransactionRow.description t)) as H2.
  rewrite <- Hp in H1, H2.
  repeat split; trivial.
  - apply find_category_known.
  - unfold province_ok. destruct H1 as [(-> & _) | H1]; [now left | now right].
Qed.

Lemma row_dated (year : Z) (raw_line : str) (m : mobj) (d1 d2 : datetime) (q : Q) :
  four_digit year -> row_read year raw_line m d1 d2 q ->
  date_in_year year d1 /\ date_in_year year d2.
Proof.
  intros Hy (Hm & H1 & H2 & _).
  destruct (row_dates _ _ Hm) as [Ht Hp].
  split.
  - destruct (normalize_date_in_year _ year d1 Ht Hy H1) as (E & ? & ?).
    now repeat split.
  - destruct (normalize_date_in_year _ year d2 Hp Hy H2) as (E & ? & ?).
    now repeat split.
Qed.

End RecordFacts.

(** ** The order of the labels *)

Module LabelFacts.
Import Py PySpec PyFacts CategoryFacts.

(** Where one label at most can end a text, the order in which the labels
    are tried does not matter. *)
Lemma first_suffix_order (s : str) (c1 c2 : list str) :
  (forall x, In x c1 <-> In x c2) ->
  (forall p q, In p c1 -> In q c1 ->
     endswith s p = true -> endswith s q = true -> p = q) ->
  first_suffix s c1 = first_suffix s c2.
Proof.
  intros Hsame Huniq.
  destruct (first_suffix s c1) as [a|] eqn:E1;
    destruct (first_suffix s c2) as [b|] eqn:E2; trivial.
  - apply first_suffix_Some in E1 as [Ha Ea], E2 as [Hb Eb].
    f_equal. apply Huniq; trivial. now apply Hsame.
  - apply first_suffix_Some in E1 as [Ha Ea].
    rewrite first_suffix_None in E2. rewrite E2 in Ea; [discriminate|].
    now apply Hsame.
  - apply first_suffix_Some in E2 as [Hb Eb].
    rewrite first_suffix_None in E1. rewrite E1 in Eb; [discriminate|].
    now apply Hsame.
Qed.

End LabelFacts.

(** ** The last word before the province *)

Module WordFacts.
Import Py PySpec PyFacts Re ReSpec ReFacts RowSpec RowFacts SplitFacts.
Import CaseFacts TidyFacts NoiseFacts CityFacts LocationFacts.
Import SearchFacts ProvinceFacts SpaceFacts PriorityFacts.

(** A text without whitespace at the start of a text ends before the
    first whitespace character. *)
Lemma nospace_prefix (w : str) : forall (p t r : str) (sp : ascii),
  nospace w -> isspace sp = true -> p ++ sp :: t = w ++ r ->
  length w <= length p.
Proof.
  induction w as [|a w IH]; intros p t r sp Hw Hsp E; simpl; [lia|].
  unfold nospace in Hw. simpl in Hw. apply andb_true_iff in Hw as [Ha Hw].
  destruct p as [|b p]; simpl in E; injection E as <- E.
  - rewrite Hsp in Ha. discriminate.
  - simpl. apply le_n_S. now apply (IH p t r sp).
Qed.

Lemma word_start_cases (pre : str) :
  word_start pre ->
  pre = [] \/ exists p sp, pre = p ++ [sp] /\ isspace sp = true.
Proof.
  intros [-> | H]; [now left|]. right. unfold last_is in H.
  destruct (rev pre) as [|a l] eqn:E; [discriminate|].
  exists (rev l), a. split; [|exact H].
  rewrite <- (rev_involutive pre), E. reflexivity.
Qed.

Lemma word_start_snoc (p : str) (sp : ascii) :
  isspace sp = true -> word_start (p ++ [sp]).
Proof. intros H. right. now rewrite last_is_snoc. Qed.

(** What the de-gluing pattern matches. *)
Lemma glued_match_inv (i : nat) (s : str) (m : mobj) :
  match_at GLUED_PREFIX_RE i s = Some m ->
  exists w r, s = w ++ r /\ m_end m = i + length w /\ In w GLUE_TEXTS.
Proof.
  intros H. apply match_at_accepts in H as (s' & A & _).
  unfold GLUED_PREFIX_RE in A. inv A.
  match goal with H : accepts (Ahead _) _ _ _ _ _ _ |- _ => inv H end.
  match goal with H : accepts (Grp _ _) _ _ _ _ _ _ |- _ =>
    apply accepts_grp_inv in H as (w & cs0 & Hw & E & Hi & _) end.
  exists w. eexists. split; [exact E|]. split; [exact Hi|].
  apply accepts_consumes in Hw as Hc. destruct Hc as (w' & Ew & _).
  apply app_inv_tail in Ew. subst w'.
  assert (Hlit : forall l j t cs j' t' cs',
            accepts (Lit l) j t cs j' t' cs' -> t = l ++ t').
  { intros l j t cs j' t' cs' Hl. now inv Hl. }
  repeat match goal with
         | H : accepts (Alt _ _) _ _ _ _ _ _ |- _ => inv H
         end;
  try match goal with
      | H : accepts (Lit _) _ _ _ _ _ _ |- _ =>
          apply Hlit in H; apply app_inv_tail in H; subst w;
          unfold GLUE_TEXTS; simpl; tauto
      end.
  inv_seq. inv_rep. subst.
  match goal with
  | Hd : forallb (any_of _) ?x = true, Hl : within _ (length ?x),
    E : _ = w ++ _ |- _ =>
      simpl in Hl; destruct (opt_word "."%char x Hd Hl) as [-> | ->];
      [ change (lit "GCO/HELPPAY" ++ a :: s0 = w ++ a :: s0) in E
      | change (lit "G.CO/HELPPAY" ++ a :: s0 = w ++ a :: s0) in E ];
      apply app_inv_tail in E; subst w; unfold GLUE_TEXTS; simpl; tauto
  end.
Qed.

Lemma glue_texts_nospace (w : str) : In w GLUE_TEXTS -> nospace w.
Proof.
  unfold GLUE_TEXTS. intros H.
  repeat (destruct H as [<- | H]; [reflexivity|]). destruct H.
Qed.

(** A text of the pattern that is made of capital letters starts with one
    of the glued words. *)
Lemma glue_texts_letters (w : str) :
  In w GLUE_TEXTS -> forallb isupper w = true ->
  exists k, In k GLUE_WORDS /\ startswith w k = true.
Proof.
  unfold GLUE_TEXTS, GLUE_WORDS.
  intros [<-|[<-|[<-|[<-|[<-|[<-|[<-|[]]]]]]]] Hu;
    try (vm_compute in Hu; discriminate Hu).
  - exists (lit "HTTP"). split; [simpl; tauto | reflexivity].
  - exists (lit "HTTP"). split; [simpl; tauto | reflexivity].
  - exists (lit "HTTP"). split; [simpl; tauto | reflexivity].
  - exists (lit "WWW"). split; [simpl; tauto | reflexivity].
  - exists (lit "ONLINE"). split; [simpl; tauto | reflexivity].
Qed.

Lemma contains_glue (word k : str) :
  existsb (contains word) GLUE_WORDS = false -> In k GLUE_WORDS ->
  contains word k = false.
Proof.
  intros Hg Hin. destruct (contains word k) eqn:E; [|reflexivity].
  assert (H : existsb (contains word) GLUE_WORDS = true)
    by (apply existsb_exists; now exists k).
  congruence.
Qed.

(** The de-gluing pattern matches nowhere in a word of capital letters
    without a glued word. *)
Lemma plain_no_glue (word : str) :
  existsb (contains word) GLUE_WORDS = false ->
  forallb isupper word = true ->
  forall p t j, word = p ++ t -> match_at GLUED_PREFIX_RE j t = None.
Proof.
  intros Hg Hu p t j E.
  destruct (match_at GLUED_PREFIX_RE j t) as [m|] eqn:Em; [|reflexivity].
  exfalso. apply glued_match_inv in Em as (w & r & Et & _ & Hin).
  subst t word. rewrite !forallb_app in Hu.
  apply andb_true_iff in Hu as [_ Hu]. apply andb_true_iff in Hu as [Hw _].
  destruct (glue_texts_letters w Hin Hw) as (k & Hk & Hs).
  apply startswith_iff in Hs as [t' ->].
  assert (Hc : contains (p ++ (k ++ t') ++ r) k = true).
  { apply contains_iff. exists p, (t' ++ r). now rewrite <- app_assoc. }
  now rewrite (contains_glue _ k Hg Hk) in Hc.
Qed.

Lemma contains_class (c : ascii -> bool) (s old : str) :
  contains s old = true -> forallb c s = true -> forallb c old = true.
Proof.
  intros H Hs. apply contains_iff in H as (u & t & ->).
  rewrite !forallb_app in Hs.
  apply andb_true_iff in Hs as [_ Hs]. now apply andb_true_iff in Hs as [Hs _].
Qed.

(** Where a text does not occur, replacing it changes nothing. *)
Lemma replace_none (old new : str) (s : str) :
  contains s old = false -> replace_from 0 old new s = s.
Proof.
  induction s as [|a s IH]; intros H; [reflexivity|].
  cbn [contains] in H. apply orb_false_iff in H as [H1 H2].
  cbn [replace_from]. rewrite H1. f_equal. now apply IH.
Qed.

(** De-gluing leaves the last word of a text alone. *)
Lemma sub_glued_keeps (repl word : str) (sp : ascii) :
  isspace sp = true ->
  (forall p t j, word = p ++ t -> match_at GLUED_PREFIX_RE j t = None) ->
  forall p skip i, skip <= length p ->
  exists x, sub_from GLUED_PREFIX_RE repl skip i (p ++ sp :: word)
            = x ++ sp :: word.
Proof.
  intros Hsp Hnone.
  assert (Hlen : forall p i m,
    match_at GLUED_PREFIX_RE i (p ++ sp :: word) = Some m ->
    m_end m - i <= length p).
  { intros p i m Em. apply glued_match_inv in Em as (w & r & Es & He & Hin).
    apply glue_texts_nospace in Hin.
    pose proof (nospace_prefix w p word r sp Hin Hsp Es). lia. }
  induction p as [|a p IH]; intros skip i Hs.
  - assert (skip = 0) by (simpl in Hs; lia). subst skip.
    exists []. cbn [app sub_from].
    destruct (match_at GLUED_PREFIX_RE i (sp :: word)) as [m|] eqn:Em.
    + pose proof (Hlen [] i m Em) as Hl. simpl in Hl.
      replace (m_end m <=? i) with true by (symmetry; apply Nat.leb_le; lia).
      f_equal. now apply sub_from_none.
    + f_equal. now apply sub_from_none.
  - cbn [app sub_from]. destruct skip as [|n].
    + destruct (match_at GLUED_PREFIX_RE i (a :: p ++ sp :: word))
        as [m|] eqn:Em.
      * destruct (m_end m <=? i).
        -- destruct (IH 0 (S i)) as [x Hx]; [lia|].
           exists (a :: x). now rewrite Hx.
        -- pose proof (Hlen (a :: p) i m Em) as Hl. simpl in Hl.
           destruct (IH (m_end m - i - 1) (S i)) as [x Hx]; [lia|].
           exists (repl ++ x). now rewrite Hx, app_assoc.
      * destruct (IH 0 (S i)) as [x Hx]; [lia|].
        exists (a :: x). now rewrite Hx.
    + simpl in Hs. destruct (IH n (S i)) as [x Hx]; [lia|].
      exists x. exact Hx.
Qed.

(** Replacing a text without whitespace leaves the last word of a text
    alone, where the word does not hold it. *)
Lemma replace_keeps (old new word : str) (sp : ascii) :
  isspace sp = true -> nospace old -> old <> [] ->
  contains word old = false ->
  forall p skip, skip <= length p ->
  exists x, replace_from skip old new (p ++ sp :: word) = x ++ sp :: word.
Proof.
  intros Hsp Hold Hne Hc.
  assert (Hlen : forall p,
    startswith (p ++ sp :: word) old = true -> length old <= length p).
  { intros p Hst. apply startswith_iff in Hst as [t Et].
    exact (nospace_prefix old p word t sp Hold Hsp Et). }
  induction p as [|a p IH]; intros skip Hs.
  - assert (skip = 0) by (simpl in Hs; lia). subst skip.
    exists []. cbn [app replace_from].
    destruct (startswith (sp :: word) old) eqn:Est.
    + apply (Hlen []) in Est. simpl in Est.
      destruct old; [congruence | simpl in Est; lia].
    + f_equal. now apply replace_none.
  - cbn [app replace_from]. destruct skip as [|n].
    + destruct (startswith (a :: p ++ sp :: word) old) eqn:Est.
      * apply (Hlen (a :: p)) in Est. simpl in Est.
        destruct (IH (length old - 1)) as [x Hx]; [lia|].
        exists (new ++ x). now rewrite Hx, app_assoc.
      * destruct (IH 0) as [x Hx]; [lia|].
        exists (a :: x). now rewrite Hx.
    + simpl in Hs. destruct (IH n) as [x Hx]; [lia|].
      exists x. exact Hx.
Qed.

Lemma plain_word_inv (w : str) :
  plain_word w = true ->
  forallb isupper w = true /\ 3 <= length w /\ mem w STOP = false /\
  mem w JOINERS = false /\ existsb (contains w) GLUE_WORDS = false.
Proof.
  unfold plain_word. rewrite !andb_true_iff, !negb_true_iff, Nat.leb_le.
  tauto.
Qed.

Lemma upper_nospace (w : str) : forallb isupper w = true -> nospace w.
Proof.
  unfold nospace. induction w as [|a w IH]; simpl; [reflexivity|].
  intros H. apply andb_true_iff in H as [Ha Hw].
  now rewrite (isupper_nospace a Ha), IH.
Qed.

(** The three rewritings of the text before the province leave its last
    word alone. *)
Lemma tail_raw_keeps (pre word : str) :
  word_start pre -> forallb isupper word = true ->
  existsb (contains word) GLUE_WORDS = false ->
  exists x, word_start x /\
    replace (replace (sub GLUED_PREFIX_RE " " (pre ++ word))
                     "UBERCOM" "UBER COM") "AMAZON.CA" "AMAZON CA"
      = x ++ word.
Proof.
  intros Hs Hu Hg.
  pose proof (plain_no_glue word Hg Hu) as Hnone.
  assert (H1 : contains word "UBERCOM" = false)
    by (apply contains_glue; [exact Hg | unfold GLUE_WORDS; simpl; tauto]).
  assert (H2 : contains word "AMAZON.CA" = false).
  { destruct (contains word "AMAZON.CA") eqn:E; [|reflexivity].
    apply (contains_class isupper) in E; [|exact Hu].
    vm_compute in E. discriminate E. }
  apply word_start_cases in Hs as [-> | (p & sp & -> & Hsp)].
  - exists []. split; [now left|]. cbn [app]. unfold sub, replace.
    rewrite (sub_from_none _ _ _ 0 Hnone).
    now rewrite (replace_none _ _ _ H1), (replace_none _ _ _ H2).
  - rewrite <- app_assoc. cbn [app]. unfold sub, replace.
    destruct (sub_glued_keeps " " word sp Hsp Hnone p 0 0) as [x1 E1]; [lia|].
    rewrite E1.
    destruct (replace_keeps "UBERCOM" "UBER COM" word sp Hsp eq_refl
                ltac:(discriminate) H1 x1 0) as [x2 E2]; [lia|].
    rewrite E2.
    destruct (replace_keeps "AMAZON.CA" "AMAZON CA" word sp Hsp eq_refl
                ltac:(discriminate) H2 x2 0) as [x3 E3]; [lia|].
    rewrite E3. exists (x3 ++ [sp]). split; [now apply word_start_snoc|].
    now rewrite <- app_assoc.
Qed.

(** Blanking what is no capital letter and no whitespace leaves the last
    word alone. *)
Lemma cls_keeps_word (x word : str) :
  word_start x -> forallb isupper word = true ->
  exists z, word_start z /\
    sub (Cls not_upper_or_space) " " (x ++ word) = z ++ word.
Proof.
  intros Hs Hu. unfold sub. rewrite sub_cls, flat_map_app.
  set (f := fun a : ascii => if not_upper_or_space a then lit " " else [a]).
  assert (Hw : flat_map f word = word).
  { clear Hs. induction word as [|a w IH]; [reflexivity|].
    simpl in Hu. apply andb_true_iff in Hu as [Ha Hu].
    cbn [flat_map]. rewrite (IH Hu). unfold f, not_upper_or_space.
    now rewrite Ha. }
  rewrite Hw. exists (flat_map f x). split; [|reflexivity].
  apply word_start_cases in Hs as [-> | (p & sp & -> & Hsp)]; [now left|].
  rewrite flat_map_app. cbn [flat_map]. unfold f at 2, not_upper_or_space.
  rewrite Hsp, orb_true_r. cbn [negb app]. now apply word_start_snoc.
Qed.

Lemma split_from_app_space (sp : ascii) (s : str) :
  isspace sp = true -> forall z cur,
  split_from cur (z ++ sp :: s) = split_from cur z ++ split_from [] s.
Proof.
  intros Hsp. induction z as [|a z IH]; intros cur; cbn [app split_from].
  - rewrite Hsp. now destruct cur.
  - destruct (isspace a); [|apply IH].
    destruct cur; [apply IH|]. cbn [app]. f_equal. apply IH.
Qed.

(** The last word of a text is its last token. *)
Lemma split_last_word (z word : str) :
  word_start z -> nospace word -> word <> [] ->
  exists toks, split (z ++ word) = toks ++ [word].
Proof.
  intros Hs Hn Hne. unfold split.
  apply word_start_cases in Hs as [-> | (p & sp & -> & Hsp)].
  - exists []. cbn [app]. now apply split_from_end.
  - exists (split_from [] p). rewrite <- app_assoc. cbn [app].
    rewrite (split_from_app_space sp word Hsp). f_equal.
    now apply split_from_end.
Qed.

(** The tokens of the alphabetic tail end with the last word before the
    province. *)
Lemma tail_alpha_tokens (U : str) (m : mobj) (pre word : str) :
  rstrip (firstn (m_start m) U) = pre ++ word ->
  word_start pre -> forallb isupper word = true -> word <> [] ->
  existsb (contains word) GLUE_WORDS = false ->
  exists toks, split (tail_alpha_of U m) = toks ++ [word].
Proof.
  intros E Hs Hu Hne Hg. unfold tail_alpha_of. cbv zeta.
  rewrite split_squeeze, E.
  destruct (tail_raw_keeps pre word Hs Hu Hg) as (x & Hx & ->).
  destruct (cls_keeps_word x word Hx Hu) as (z & Hz & ->).
  apply split_last_word; trivial. now apply upper_nospace.
Qed.

Lemma upper_word_match (w : str) :
  forallb isupper w = true -> w <> [] ->
  is_some (rematch UPPER_WORD_RE w) = true.
Proof.
  intros Hu Hne.
  assert (Hl : 1 <= length w) by (destruct w; [congruence | simpl; lia]).
  pose proof (acc_rep true isupper 1 None w 0 [] [] Hu Hl I) as A.
  rewrite app_nil_r in A.
  eapply accepts_rematch. unfold UPPER_WORD_RE.
  eapply acc_seq; [apply acc_bol|].
  eapply acc_seq; [exact A|]. apply acc_eol. now left.
Qed.

(** The token heuristics read the city from a plain last token. *)
Lemma pick_city_last_word (toks : list str) (word : str) :
  plain_word word = true ->
  pick_city_from_tokens (toks ++ [word]) = city_of_token word.
Proof.
  intros H. apply plain_word_inv in H as (Hu & Hl & Hstop & Hj & _).
  assert (Hne : word <> []) by (destruct word; [simpl in Hl; lia | congruence]).
  unfold pick_city_from_tokens. rewrite rev_unit.
  assert (Hlast :
    (if negb (mem word STOP) && is_some (rematch UPPER_WORD_RE word)
     then if length word <? 3 then [] else city_of_token word
     else []) = city_of_token word).
  { rewrite Hstop, (upper_word_match word Hu Hne). cbn [negb andb].
    now replace (length word <? 3) with false
      by (symmetry; apply Nat.ltb_ge; lia). }
  destruct (rev toks) as [|before rest]; [exact Hlast|].
  rewrite Hj. cbn [andb]. exact Hlast.
Qed.

Lemma city_of_token_usable (word : str) :
  plain_word word = true ->
  truthy (city_of_token word) = true /\ mem (city_of_token word) STOP = false.
Proof.
  intros H. apply plain_word_inv in H as (_ & Hl & Hstop & _).
  unfold city_of_token.
  destruct (city_in_token word _) as [pat|] eqn:E.
  - apply city_in_token_In, combine_fst_In in E. split.
    + now apply truthy_has_word, cities_have_word.
    + now apply cities_not_stopped.
  - split; [|exact Hstop]. destruct word; [simpl in Hl; lia | reflexivity].
Qed.

(** The location of a description that ends with a plain word, a
    whitespace character and a province code. *)
Lemma last_word_location (desc pre word : str) (c : ascii) (prov : string) :
  strip (upper desc) = pre ++ word ++ [c] ++ lit prov ->
  word_start pre -> isspace c = true -> In prov PROVINCE_CODES ->
  plain_word word = true ->
  _extract_location desc =
    (_normalize_city (city_of_token word) ++ " " ++ lit prov,
     _normalize_city (city_of_token word), lit prov).
Proof.
  intros HU Hs Hc Hin Hp.
  destruct (city_of_token_usable word Hp) as [Ht Hstop].
  pose proof (pick_city_last_word) as Hpick.
  apply plain_word_inv in Hp as Hparts.
  destruct Hparts as (Hu & Hl & _ & _ & Hg).
  assert (Hne : word <> []) by (destruct word; [simpl in Hl; lia | congruence]).
  destruct (space_province_found (pre ++ word) c prov [] Hc Hin eq_refl)
    as (m & E & Hstart & Hgroup).
  assert (HU' : strip (upper desc) = (pre ++ word) ++ [c] ++ lit prov ++ [])
    by (now rewrite HU, app_nil_r, <- app_assoc).
  assert (Hd : _detect_province_suffix (strip (upper desc))
               = (Some m, lit prov, lit "space")).
  { unfold _detect_province_suffix. now rewrite HU', E, Hgroup. }
  assert (Hlast : last_is isspace (pre ++ word) = false).
  { destruct (exists_last Hne) as (w & a & ->).
    rewrite app_assoc, last_is_snoc. apply isupper_nospace.
    rewrite forallb_app in Hu. apply andb_true_iff in Hu as [_ Hu].
    simpl in Hu. now rewrite andb_true_r in Hu. }
  destruct (tail_alpha_tokens (strip (upper desc)) m pre word)
    as (toks & Etoks); trivial.
  { now rewrite Hstart, HU', firstn_length_app, rstrip_keeps. }
  assert (Hcand : candidate_city (tail_alpha_of (strip (upper desc)) m)
                    (lit prov) (lit "space") = city_of_token word).
  { assert (Htok : token_city (tail_alpha_of (strip (upper desc)) m)
                     (lit "space") = city_of_token word).
    { unfold token_city.
      change (str_eqb (lit "space") (lit "domain")) with false. cbv iota.
      now rewrite Etoks, Hpick. }
    rewrite candidate_usable; [exact Htok|]. rewrite Htok.
    unfold unusable. now rewrite Ht, Hstop. }
  pose proof (located desc m (lit prov) (lit "space")) as L.
  cbv zeta in L. rewrite Hcand in L. now apply L.
Qed.

End WordFacts.

(** * Further properties of the code *)

(** X1: the year of a statement.  Either no page holds a header of the
    form "Transactions from ... YYYY", and the year is the one of the
    clock; or the first page that holds one decides: the year is the
    value of four digits of a header of that page, a number from 0 to
    9999, whatever the clock says and whatever the later pages hold. *)
Theorem extract_year_header_or_clock (now_year : Z) (pages : list str) :
  ((forall t ds, In t pages -> ~ year_header t ds) /\
   _extract_year now_year pages = now_year) \/
  (exists before t after ds y,
     pages = before ++ t :: after /\
     (forall t' ds', In t' before -> ~ year_header t' ds') /\
     year_header t ds /\
     Num.nat_literal ds = Some y /\ (0 <= y <= 9999)%Z /\
     forall clock later, _extract_year clock (before ++ t :: later) = y).
Proof.
  destruct (YearFacts.extract_year_cases pages)
    as [Hnone | (before & t & after & m & y & E & Hb & Hm & Ey & Hy)].
  - left. split.
    + intros t ds Hin. now apply (proj1 (YearFacts.search_year_none t)), Hnone.
    + now apply YearFacts.extract_year_clock.
  - right. exists before, t, after, (Re.group "1" (Re.m_caps m)), y.
    repeat split; trivial; try lia.
    + intros t' ds' Hin.
      now apply (proj1 (YearFacts.search_year_none t')), Hb.
    + now apply YearFacts.search_year_sound.
    + intros clock later.
      now apply (YearFacts.extract_year_header clock before later t m y).
Qed.

(** X2: the lines the noise filter drops are, once the whitespace around
    them is stripped, exactly: the empty line, a line that starts with
    "Card number" or with "Total for", a page counter "Page N of M", a bar
    code of seven digits or more between two stars, and a reference code
    of three digits, a hyphen and six digits or more, with or without a
    hyphen in front. *)
Theorem noise_lines (line : str) :
  _is_noise line = true <-> noise_shape (Py.strip line).
Proof. apply NoiseFacts.is_noise_shape. Qed.

(** X3: the noise filter drops no row: a line the row grammar matches is
    no noise. *)
Theorem rows_are_no_noise (line : str) (m : Re.mobj) :
  Re.rematch ROW_RE line = Some m -> _is_noise line = false.
Proof. apply NoiseFacts.row_not_noise. Qed.

Lemma rows_are_no_noise_witness : _is_noise sample_row = false.
Proof.
  eapply rows_are_no_noise. vm_compute. reflexivity.
Defined.

(** X4: city normalisation changes the letter case only: the result,
    upper-cased, is the upper-cased text with its whitespace normalised;
    and the first normalisation of the whitespace in the function is
    subsumed by the second. *)
Theorem normalize_city_changes_case_only (s : str) :
  Py.upper (_normalize_city s) = Py.upper (Py.squeeze s) /\
  _normalize_city s = Py.join " " (map Py.capitalize (Py.split s)).
Proof.
  split; [apply NameFacts.normalize_city_upper | apply NameFacts.normalize_city_eq].
Qed.

(** X5: a normalised city is in normal form: normalising it again changes
    nothing, it has no whitespace at its ends and no two whitespace
    characters in a row, and the whitespace of the argument does not
    matter. *)
Theorem normalize_city_normal_form (s : str) :
  _normalize_city (_normalize_city s) = _normalize_city s /\
  tidy (_normalize_city s) /\
  _normalize_city (Py.squeeze s) = _normalize_city s.
Proof.
  split; [apply NameFacts.normalize_city_idem|].
  split; [apply NameFacts.normalize_city_tidy|].
  apply NameFacts.normalize_city_squeeze.
Qed.

(** X6: [_letters_only] keeps the letters of the text, upper-cased and in
    their order, and nothing else: its result holds capital letters only,
    it goes through concatenation, and applying it twice is applying it
    once. *)
Theorem letters_only_keeps_letters (s t : str) :
  _letters_only s = filter Py.isupper (Py.upper s) /\
  forallb Py.isupper (_letters_only s) = true /\
  _letters_only (s ++ t) = _letters_only s ++ _letters_only t /\
  _letters_only (_letters_only s) = _letters_only s.
Proof.
  rewrite !NameFacts.letters_only_filter. repeat split.
  - apply NameFacts.forallb_filter.
  - now rewrite CaseFacts.upper_app, filter_app.
  - rewrite (NameFacts.filter_isupper_upper (filter Py.isupper (Py.upper s)))
      by apply NameFacts.forallb_filter.
    apply NameFacts.filter_idem.
Qed.

(** X7: what province detection returns.  A province that is found is one
    of the thirteen codes, the mode is one of the four, the match object
    gives the province as its group, and the text reads: what is before
    the start of the match, a separator (whitespace or one hyphen, or
    nothing), the province, and whitespace at most.  When nothing is
    found the province and the mode are empty. *)
Theorem province_suffix_sound (U : str) :
  match _detect_province_suffix U with
  | (Some m, prov, mode) =>
      In prov PROVINCES /\ In mode MODES /\
      Re.group "1" (Re.m_caps m) = prov /\
      exists sep ws,
        U = firstn (Re.m_start m) U ++ sep ++ prov ++ ws /\
        forallb Py.isspace ws = true /\
        (forallb Py.isspace sep = true \/ sep = lit "-")
  | (None, prov, mode) => prov = [] /\ mode = []
  end.
Proof.
  destruct (_detect_province_suffix U) as [[[m|] prov] mode] eqn:E.
  - now apply ProvinceFacts.detect_province_inv.
  - now apply (ProvinceFacts.detect_province_none U).
Qed.

(** X8: a text that ends with a whitespace character, a province code and
    whitespace at most is detected by the first strategy: the mode is
    "space", the province is that code, and the match starts at the
    whitespace character, whatever stands before it. *)
Theorem space_province_detected
    (pre : str) (c : ascii) (prov : string) (ws : str) :
  Py.isspace c = true -> In prov PROVINCE_CODES ->
  forallb Py.isspace ws = true ->
  exists m,
    _detect_province_suffix (pre ++ [c] ++ lit prov ++ ws)
      = (Some m, lit prov, lit "space") /\
    Re.m_start m = length pre.
Proof.
  intros Hc Hin Hws.
  destruct (SpaceFacts.space_province_found pre c prov ws Hc Hin Hws)
    as (m & E & Hs & Hg).
  exists m. split; [|exact Hs].
  unfold _detect_province_suffix. now rewrite E, Hg.
Qed.

Lemma space_province_detected_witness :
  exists m,
    _detect_province_suffix
      (lit "TIM HORTONS OTTAWA" ++ [" "%char] ++ lit "ON" ++ [])
      = (Some m, lit "ON", lit "space") /\
    Re.m_start m = length (lit "TIM HORTONS OTTAWA").
Proof.
  apply (space_province_detected "TIM HORTONS OTTAWA" " "%char "ON" []).
  - reflexivity.
  - simpl. tauto.
  - reflexivity.
Defined.

(** X9: location extraction does not see the letter case of a
    description, nor the whitespace around it. *)
Theorem location_ignores_case_and_padding (desc g1 g2 : str) :
  forallb Py.isspace g1 = true -> forallb Py.isspace g2 = true ->
  _extract_location (g1 ++ desc ++ g2) = _extract_location desc /\
  _extract_location (Py.upper desc) = _extract_location desc /\
  _extract_location (Py.lower desc) = _extract_location desc /\
  _extract_location (Py.strip desc) = _extract_location desc.
Proof.
  intros H1 H2. split; [now apply PlaceFacts.extract_location_pad|].
  split; [apply PlaceFacts.extract_location_upper|].
  split; [apply PlaceFacts.extract_location_lower|].
  apply PlaceFacts.extract_location_strip.
Qed.

Lemma location_ignores_case_and_padding_witness :
  let desc := lit "Tim Hortons Ottawa On" in
  _extract_location (lit "  " ++ desc ++ lit " ") = _extract_location desc /\
  _extract_location (Py.upper desc) = _extract_location desc /\
  _extract_location (Py.lower desc) = _extract_location desc /\
  _extract_location (Py.strip desc) = _extract_location desc.
Proof.
  apply (location_ignores_case_and_padding "Tim Hortons Ottawa On" "  " " ");
    reflexivity.
Defined.

(** X10: the province of a location.  Either no province was found, and
    then the location and the city are empty too; or the province is one
    of the thirteen codes and the description, upper-cased and stripped,
    ends with it. *)
Theorem location_province_is_a_code (desc : str) :
  let '(loc, city, prov) := _extract_location desc in
  (prov = [] /\ loc = [] /\ city = []) \/
  (In prov PROVINCES /\
   Py.endswith (Py.strip (Py.upper desc)) prov = true).
Proof. apply PlaceFacts.extract_location_province. Qed.

(** X11: the city of a location is never one of the stop words, in
    whatever letter case, and it is in the form city normalisation
    gives. *)
Theorem location_city_is_no_stop_word (desc : str) :
  let '(loc, city, prov) := _extract_location desc in city_ok city.
Proof. apply PlaceFacts.extract_location_city. Qed.

(** X12: the clean-up of the description column at the end of
    [_parse_pages_text] changes nothing: the tables are the rows as the
    scan of the lines made them. *)
Theorem cleanup_is_identity (now_year : Z) (pages : list str) :
  _parse_pages_text now_year pages =
    (st <- scan_pages (_extract_year now_year pages) initial_state pages ;;
     Ok (payments st, txns st)).
Proof. apply RecordFacts.parse_pages_scan. Qed.

(** X13: every description of the two tables is tidy: it has no
    whitespace at its ends and no two whitespace characters in a row. *)
Theorem descriptions_are_tidy (now_year : Z) (pages : list str)
    (pays : list PaymentRow.t) (txs : list TransactionRow.t) :
  _parse_pages_text now_year pages = Ok (pays, txs) ->
  Forall payment_tidy pays /\ Forall txn_tidy txs.
Proof.
  intros H. apply RecordFacts.parse_pages_ok in H as (st & Hst & -> & ->).
  exact (CleanFacts.statement_tidy _ _ _ Hst).
Qed.

Lemma descriptions_are_tidy_witness :
  exists pays txs,
    _parse_pages_text 2025 [sample_page1; sample_page2] = Ok (pays, txs) /\
    Forall payment_tidy pays /\ Forall txn_tidy txs.
Proof.
  eexists. eexists. split; [vm_compute; reflexivity|].
  apply (descriptions_are_tidy 2025 [sample_page1; sample_page2]).
  vm_compute. reflexivity.
Defined.

(** X14: every record of a statement carries the year of the statement:
    with a year of four digits, the transaction date and the posting date
    of every payment and of every transaction lie in that one year, in a
    month from 1 to 12 and on a day that month has. *)
Theorem records_carry_statement_year (now_year : Z) (pages : list str)
    (pays : list PaymentRow.t) (txs : list TransactionRow.t) :
  four_digit (_extract_year now_year pages) ->
  _parse_pages_text now_year pages = Ok (pays, txs) ->
  Forall (payment_dated (_extract_year now_year pages)) pays /\
  Forall (txn_dated (_extract_year now_year pages)) txs.
Proof.
  intros Hy. apply RecordFacts.parse_pages_rows.
  intros raw m d1 d2 q _ Hr.
  destruct (RecordFacts.row_dated _ raw m d1 d2 q Hy Hr) as [H1 H2].
  split; [now split|].
  unfold txn_dated.
  destruct (CleanFacts.transaction_row_dates d1 d2
              (Re.group "body" (Re.m_caps m)) q) as (-> & -> & _).
  now split.
Qed.

Lemma records_carry_statement_year_witness :
  let pages := [sample_page1; sample_page2] in
  exists pays txs,
    _parse_pages_text 1999 pages = Ok (pays, txs) /\
    Forall (payment_dated (_extract_year 1999 pages)) pays /\
    Forall (txn_dated (_extract_year 1999 pages)) txs.
Proof.
  cbv zeta. eexists. eexists. split; [vm_compute; reflexivity|].
  apply (records_carry_statement_year 1999 [sample_page1; sample_page2]).
  - vm_compute. split; discriminate.
  - vm_compute. reflexivity.
Defined.

(** X15: the fields of every transaction that the parser derives from the
    text are valid: the category is a known label or empty, the source is
    "CIBC", the province is empty or a code that ends the upper-cased
    description, and the city is empty or a normalised name that is no
    stop word; and every payment has the source "CIBC". *)
Theorem transaction_fields_valid (now_year : Z) (pages : list str)
    (pays : list PaymentRow.t) (txs : list TransactionRow.t) :
  _parse_pages_text now_year pages = Ok (pays, txs) ->
  Forall (fun p => PaymentRow.source p = lit "CIBC") pays /\
  Forall txn_fields_ok txs.
Proof.
  apply RecordFacts.parse_pages_rows. intros raw m d1 d2 q _ _.
  split; [reflexivity | apply RecordFacts.transaction_row_fields_ok].
Qed.

Lemma transaction_fields_valid_witness :
  exists pays txs,
    _parse_pages_text 2025 [sample_page1; sample_page2] = Ok (pays, txs) /\
    Forall (fun p => PaymentRow.source p = lit "CIBC") pays /\
    Forall txn_fields_ok txs.
Proof.
  eexists. eexists. split; [vm_compute; reflexivity|].
  apply (transaction_fields_valid 2025 [sample_page1; sample_page2]).
  vm_compute. reflexivity.
Defined.

(** X16: no record is invented: every payment and every transaction of
    the tables was read from a line of the statement that the row grammar
    matches and whose dates normalise; the description of a payment is
    the body of that line, and the amount is the amount text of the line
    without its commas, converted. *)
Theorem records_come_from_rows (now_year : Z) (pages : list str)
    (pays : list PaymentRow.t) (txs : list TransactionRow.t) :
  _parse_pages_text now_year pages = Ok (pays, txs) ->
  Forall (payment_from (_extract_year now_year pages) (statement_lines pages))
         pays /\
  Forall (txn_from (_extract_year now_year pages) (statement_lines pages)) txs.
Proof.
  apply RecordFacts.parse_pages_rows. intros raw m d1 d2 q Hin Hr.
  split; exists raw, m, d1, d2, q;
    (split; [exact Hin | split; [exact Hr | reflexivity]]).
Qed.

Lemma records_come_from_rows_witness :
  let pages := [sample_page1; sample_page2] in
  exists pays txs,
    _parse_pages_text 2025 pages = Ok (pays, txs) /\
    Forall (payment_from (_extract_year 2025 pages) (statement_lines pages))
           pays /\
    Forall (txn_from (_extract_year 2025 pages) (statement_lines pages)) txs.
Proof.
  cbv zeta. eexists. eexists. split; [vm_compute; reflexivity|].
  apply (records_come_from_rows 2025 [sample_page1; sample_page2]).
  vm_compute. reflexivity.
Defined.

(** X17: at the end of a scan the scanner is in one section at most, and
    the two tables together hold no more records than the statement has
    lines that the row grammar matches. *)
Theorem one_section_one_record_per_row
    (year : Z) (pages : list str) (st : scan_state) :
  scan_pages year initial_state pages = Ok st ->
  in_payments st && in_charges st = false /\
  length (payments st) + length (txns st)
    <= length (filter is_row (statement_lines pages)).
Proof.
  rewrite TwoPageFacts.scan_pages_lines. intros H. split.
  - now apply (FlagFacts.scan_lines_exclusive year _ initial_state st) in H.
  - apply FlagFacts.scan_lines_count in H. exact H.
Qed.

Lemma one_section_one_record_per_row_witness :
  let pages := [sample_page1; sample_page2] in
  exists st,
    scan_pages 2025 initial_state pages = Ok st /\
    in_payments st && in_charges st = false /\
    length (payments st) + length (txns st)
      <= length (filter is_row (statement_lines pages)).
Proof.
  cbv zeta. eexists. split; [vm_compute; reflexivity|].
  apply (one_section_one_record_per_row 2025 [sample_page1; sample_page2]).
  vm_compute. reflexivity.
Defined.

(** X18: the charges section has no end of its own.  Once it is open,
    and as long as no payments header comes, the scanner stays in it
    through every line, total lines included: the payments table stays
    as it is and every line the row grammar matches adds one
    transaction. *)
Theorem charges_section_stays_open
    (year : Z) (st st' : scan_state) (lines : list str) :
  in_payments st = false -> in_charges st = true ->
  (forall l, In l lines ->
     Py.startswith (Py.squeeze l) PAYMENTS_START = false) ->
  scan_lines year st lines = Ok st' ->
  in_payments st' = false /\ in_charges st' = true /\
  payments st' = payments st /\
  length (txns st') = length (txns st) + length (filter is_row lines).
Proof. apply FlagFacts.scan_lines_charges_open. Qed.

Lemma charges_section_stays_open_witness :
  let st := set_section false true initial_state in
  let lines := [ lit "Total payments $5.00";
                 lit "Jan 5 Jan 7 TIM HORTONS OTTAWA ON Restaurants 12.34";
                 lit "Total for 4500 1234 12.34";
                 lit "Jan 9 Jan 9 PAYMENT THANK YOU 20.00" ] in
  exists st',
    scan_lines 2025 st lines = Ok st' /\
    in_payments st' = false /\ in_charges st' = true /\
    payments st' = payments st /\
    length (txns st') = length (txns st) + length (filter is_row lines).
Proof.
  cbv zeta. eexists. split; [vm_compute; reflexivity|].
  apply (charges_section_stays_open 2025 (set_section false true initial_state)).
  - reflexivity.
  - reflexivity.
  - intros l [<- | [<- | [<- | [<- | []]]]]; reflexivity.
  - vm_compute. reflexivity.
Defined.

(** X19: what date normalisation makes of a date token of the row
    grammar, with a year of four digits: the token names a month and a
    day number from 0 to 99; a day of 1 or more gives the date of that
    year and month on that day, or on the last day of the month when the
    month is shorter; the day 0 fails, with the error of the date parser
    about the day, which carries the token and the year. *)
Theorem normalize_date_of_token (td : str) (year : Z) :
  RowSpec.date_token td -> four_digit year ->
  exists mon ws day m d,
    td = lit mon ++ ws ++ day /\ In mon RowSpec.months /\
    Calendar.strptime_b (lit mon) = Some m /\ (1 <= m <= 12)%Z /\
    Num.nat_literal day = Some d /\ (0 <= d <= 99)%Z /\
    _normalize_date td year =
      if (1 <=? d)%Z
      then Ok {| dt_year := year; dt_month := m;
                 dt_day := Z.min d (Calendar.monthrange year m) |}
      else Raise (ParserError DAY_OUT_OF_RANGE (td ++ " " ++ Num.to_str year)).
Proof. apply DateMore.normalize_date_token. Qed.

Lemma normalize_date_of_token_witness :
  exists mon ws day m d,
    lit "Feb 30" = lit mon ++ ws ++ day /\ In mon RowSpec.months /\
    Calendar.strptime_b (lit mon) = Some m /\ (1 <= m <= 12)%Z /\
    Num.nat_literal day = Some d /\ (0 <= d <= 99)%Z /\
    _normalize_date "Feb 30" 2025 =
      if (1 <=? d)%Z
      then Ok {| dt_year := 2025; dt_month := m;
                 dt_day := Z.min d (Calendar.monthrange 2025 m) |}
      else Raise (ParserError DAY_OUT_OF_RANGE
                    (lit "Feb 30" ++ " " ++ Num.to_str 2025)).
Proof.
  apply (normalize_date_of_token "Feb 30" 2025).
  - exists "Feb"%string, (lit " "), (lit "30").
    split; [reflexivity|]. split; [simpl; tauto|].
    split; [split; [discriminate|reflexivity]|].
    split; [reflexivity|]. simpl. lia.
  - split; discriminate.
Defined.

(** X20: the merchant of a description.  Either no token of the
    description is a province code, in whatever letter case, and the
    merchant is the description as it is; or the merchant is the text of
    the tokens before the first such token, with one space between them,
    which is empty when the description starts with a province code. *)
Theorem rough_merchant_cuts_at_province (desc : str) :
  ((forall u, In u (Py.split desc) ->
      Py.mem (Py.upper u) prov_tokens = false) /\
   rough_merchant desc = desc) \/
  (exists pre t post,
     Py.split desc = pre ++ t :: post /\
     (forall u, In u pre -> Py.mem (Py.upper u) prov_tokens = false) /\
     Py.mem (Py.upper t) prov_tokens = true /\
     Forall PySpec.word pre /\
     rough_merchant desc = Py.join " " pre).
Proof. apply MerchantFacts.rough_merchant_cases. Qed.

(** X21: no token of a merchant is a province code, so that taking the
    merchant of a merchant changes nothing. *)
Theorem rough_merchant_idempotent (desc : str) :
  rough_merchant (rough_merchant desc) = rough_merchant desc /\
  forall u, In u (Py.split (rough_merchant desc)) ->
            Py.mem (Py.upper u) prov_tokens = false.
Proof.
  split; [apply MerchantFacts.rough_merchant_idem|].
  intros u. apply MerchantFacts.rough_merchant_clear.
Qed.

(** X22: one known label at most ends a text, so that the order in which
    category extraction tries the labels does not matter: any order of the
    known labels gives the label the longest-first order gives. *)
Theorem label_order_is_immaterial (cats : list str) (s : str) :
  Permutation KNOWN_CATEGORIES cats ->
  first_suffix s cats = first_suffix s KNOWN_CATEGORIES_SORTED /\
  forall p q, In p KNOWN_CATEGORIES -> In q KNOWN_CATEGORIES ->
    Py.endswith s p = true -> Py.endswith s q = true -> p = q.
Proof.
  intros Hperm. split; [|intros p q; apply CategoryFacts.label_unique].
  apply LabelFacts.first_suffix_order.
  - intros x. rewrite CategoryFacts.known_sorted_In. split.
    + apply Permutation_in, Permutation_sym, Hperm.
    + apply Permutation_in, Hperm.
  - intros p q Hp Hq. apply CategoryFacts.label_unique.
    + now apply (Permutation_in _ (Permutation_sym Hperm)).
    + now apply (Permutation_in _ (Permutation_sym Hperm)).
Qed.

Lemma label_order_is_immaterial_witness :
  let s := lit "TIM HORTONS OTTAWA ON Restaurants" in
  first_suffix s (rev KNOWN_CATEGORIES)
    = first_suffix s KNOWN_CATEGORIES_SORTED /\
  forall p q, In p KNOWN_CATEGORIES -> In q KNOWN_CATEGORIES ->
    Py.endswith s p = true -> Py.endswith s q = true -> p = q.
Proof.
  apply (label_order_is_immaterial (rev KNOWN_CATEGORIES)).
  apply Permutation_rev.
Defined.

(** X23: category extraction loses nothing of the body: the category is a
    known label or empty, the description is tidy, and the description,
    one whitespace character at most and the category make up the body
    with its whitespace normalised; without a category the description is
    all of it. *)
Theorem category_split_loses_nothing (body : str) :
  let '(cat, desc) := _find_category_and_desc body in
  category_ok cat /\ tidy desc /\
  exists gap,
    Py.squeeze body = desc ++ gap ++ cat /\
    forallb Py.isspace gap = true /\ length gap <= 1 /\
    (cat = [] -> gap = []).
Proof. apply RecordFacts.find_category_split. Qed.

(** X24: in the payments section, and as long as no charges header and
    no payments-total line comes, the scanner stays in the section: the
    transactions table stays as it is and every line the row grammar
    matches adds one payment. *)
Theorem payments_section_collects_rows
    (year : Z) (st st' : scan_state) (lines : list str) :
  in_payments st = true ->
  (forall l, In l lines ->
     Py.startswith (Py.squeeze l) CHARGES_START = false /\
     Py.startswith (Py.squeeze l) PAYMENTS_TOTAL_PREFIX = false) ->
  scan_lines year st lines = Ok st' ->
  in_payments st' = true /\ txns st' = txns st /\
  length (payments st')
    = length (payments st) + length (filter is_row lines).
Proof. apply FlagFacts.scan_lines_payments_open. Qed.

Lemma payments_section_collects_rows_witness :
  let st := set_section true false initial_state in
  let lines := [ lit "Jan 5 Jan 7 PAYMENT THANK YOU 1,234.56";
                 lit "Card number 4500 XXXX XXXX 1234";
                 lit "Jan 9 Jan 9  PAYMENT THANK YOU 20.00" ] in
  exists st',
    scan_lines 2025 st lines = Ok st' /\
    in_payments st' = true /\ txns st' = txns st /\
    length (payments st')
      = length (payments st) + length (filter is_row lines).
Proof.
  cbv zeta. eexists. split; [vm_compute; reflexivity|].
  apply (payments_section_collects_rows 2025
           (set_section true false initial_state)).
  - reflexivity.
  - intros l [<- | [<- | [<- | []]]]; split; reflexivity.
  - vm_compute. reflexivity.
Defined.

(** X25: which strategy finds a province that stands at the end of a
    text, before whitespace at most, when no whitespace character stands
    before it.  After a hyphen the mode is "hyphen" and the match starts
    at the hyphen.  Otherwise, with a domain or brand hint in the text,
    the mode is "domain" and the match starts at the province.
    Otherwise the province is found only when nothing follows it and the
    letters before it end with a gazetteer name written without spaces:
    the mode is then "gluedcity", with the match object made up for it;
    in every other case nothing is found. *)
Theorem province_strategy_by_separator
    (pre : str) (prov : string) (ws : str) :
  In prov PROVINCE_CODES -> forallb Py.isspace ws = true ->
  last_is Py.isspace pre = false ->
  let U := pre ++ lit prov ++ ws in
  (Py.endswith pre "-" = true ->
   exists m, _detect_province_suffix U = (Some m, lit prov, lit "hyphen") /\
             S (Re.m_start m) = length pre) /\
  (Py.endswith pre "-" = false ->
   existsb (Py.contains U) DOMAIN_HINTS = true ->
   exists m, _detect_province_suffix U = (Some m, lit prov, lit "domain") /\
             Re.m_start m = length pre) /\
  (Py.endswith pre "-" = false ->
   existsb (Py.contains U) DOMAIN_HINTS = false ->
   _detect_province_suffix U =
     match ws with
     | [] =>
         if glued_city (_letters_only pre) CITY_PATTERNS_NOSPACE
         then (Some (_FakeMatch (length pre) (length U) (lit prov)),
               lit prov, lit "gluedcity")
         else (None, [], [])
     | _ :: _ => (None, [], [])
     end).
Proof.
  intros Hin Hws Hlast U. subst U.
  unfold _detect_province_suffix.
  rewrite (PriorityFacts.space_province_none pre prov ws Hin Hws Hlast).
  split; [|split].
  - intros Hh. apply PyFacts.endswith_iff in Hh as [x Ex].
    destruct (PriorityFacts.hyphen_province_found x prov ws Hin Hws)
      as (m & E & Hs & Hg).
    exists m. subst pre. rewrite <- app_assoc, E, Hg. split; [reflexivity|].
    rewrite Hs, length_app. simpl. lia.
  - intros Hh Hd.
    rewrite (PriorityFacts.hyphen_province_none pre prov ws Hin Hws Hh).
    destruct (PriorityFacts.tail_province_found pre prov ws Hin Hws)
      as (m & E & Hs & Hg).
    exists m. unfold domain_province. rewrite Hd, E, Hg.
    now split.
  - intros Hh Hd.
    rewrite (PriorityFacts.hyphen_province_none pre prov ws Hin Hws Hh).
    unfold domain_province. rewrite Hd. unfold glued_province.
    destruct ws as [|a ws].
    + rewrite app_nil_r.
      rewrite (PriorityFacts.detect_glued_code pre prov PROVINCE_CODES); trivial.
      now rewrite (PriorityFacts.rstrip_keeps pre Hlast).
    + rewrite PriorityFacts.detect_glued_spaced; trivial.
      assert (Hne : a :: ws <> []) by discriminate.
      destruct (exists_last Hne) as (w & b & Ew). rewrite Ew in *.
      rewrite !app_assoc, PriorityFacts.last_is_snoc.
      rewrite forallb_app in Hws. apply andb_true_iff in Hws as [_ Hb].
      simpl in Hb. now rewrite andb_true_r in Hb.
Qed.

Lemma province_strategy_by_separator_witness :
  let pre := lit "AMAZON.CA" in
  let U := pre ++ lit "ON" ++ [] in
  (Py.endswith pre "-" = true ->
   exists m, _detect_province_suffix U = (Some m, lit "ON", lit "hyphen") /\
             S (Re.m_start m) = length pre) /\
  (Py.endswith pre "-" = false ->
   existsb (Py.contains U) DOMAIN_HINTS = true ->
   exists m, _detect_province_suffix U = (Some m, lit "ON", lit "domain") /\
             Re.m_start m = length pre) /\
  (Py.endswith pre "-" = false ->
   existsb (Py.contains U) DOMAIN_HINTS = false ->
   _detect_province_suffix U =
     if glued_city (_letters_only pre) CITY_PATTERNS_NOSPACE
     then (Some (_FakeMatch (length pre) (length U) (lit "ON")),
           lit "ON", lit "gluedcity")
     else (None, [], [])).
Proof.
  apply (province_strategy_by_separator "AMAZON.CA" "ON" []).
  - simpl. tauto.
  - reflexivity.
  - reflexivity.
Defined.

(** X26: the city of a description that ends with a plain word, a
    whitespace character and a province code, whatever stands before the
    word, as long as the word starts the text or follows a whitespace
    character.  A plain word has three capital letters or more, is no
    stop word, is not CREEK, FALLS or HILL, and holds none of the glued
    texts HTTP, WWW, ONLINE and UBERCOM.  The city is then the first
    gazetteer name that the word ends with or contains, in title case,
    or, when there is none, the word itself with a capital first letter;
    the location is the city, a space and the province. *)
Theorem last_word_names_the_city
    (desc pre word : str) (c : ascii) (prov : string) :
  Py.strip (Py.upper desc) = pre ++ word ++ [c] ++ lit prov ->
  word_start pre -> Py.isspace c = true -> In prov PROVINCE_CODES ->
  plain_word word = true ->
  let city := _normalize_city (city_of_token word) in
  _extract_location desc = (city ++ " " ++ lit prov, city, lit prov) /\
  (city_in_token word (combine CITY_PATTERNS_SORTED CITY_PATTERNS_NOSPACE)
     = None ->
   city = Py.capitalize word).
Proof.
  intros HU Hs Hc Hin Hp city. split.
  - now apply (WordFacts.last_word_location desc pre word c prov).
  - intros Hnone. unfold city, city_of_token. rewrite Hnone.
    apply WordFacts.plain_word_inv in Hp as (Hu & Hl & _).
    rewrite NameFacts.normalize_city_eq. unfold Py.split.
    rewrite SplitFacts.split_from_end.
    + reflexivity.
    + now apply WordFacts.upper_nospace.
    + destruct word; [simpl in Hl; lia | congruence].
Qed.

Lemma last_word_names_the_city_witness :
  _extract_location "Tim Hortons #1234 Toronto ON"
    = (lit "Toronto ON", lit "Toronto", lit "ON").
Proof.
  apply (last_word_names_the_city
           "Tim Hortons #1234 Toronto ON" "TIM HORTONS #1234 " "TORONTO"
           " "%char "ON").
  - reflexivity.
  - right. reflexivity.
  - reflexivity.
  - simpl. tauto.
  - reflexivity.
Defined.
